(** * ralph-loop-agent: the CLI sandbox glue and the outer loop

    Part one embeds [examples/cli/lib/sandbox.ts] (and the prompt
    resolution that ships next to it): the module-level sandbox handle, the
    file selection and the batches of [copyLocalToSandbox], the installers
    of the development tools, the copy back of [copySandboxToLocal],
    [closeSandbox] and the guarded accessors, [getTaskPrompt] and
    [runInterviewAndGetPrompt].

    Part two is the outer "Ralph" loop.  Its implementation is not among
    the sources at hand (only the README documents it), so it is modelled
    from the specification, and every definition of that part says so. *)

From Stdlib Require Import List String Ascii Bool Arith ZArith Lia.
From Stdlib Require Import DecimalString.
Import ListNotations.

Local Open Scope string_scope.
Local Open Scope list_scope.
Local Open Scope nat_scope.

Set Warnings "-register-all".

(** ** JavaScript string helpers

    A JavaScript string is modelled by the bytes of its UTF-8 encoding, and
    a [Buffer] by its bytes ([string] is a list of 8-bit characters), so
    that [Buffer.length] is [String.length].  Reading a file as text goes
    through [decodeUtf8]. *)

Module JsString.

(** [s.startsWith(p)] *)
Definition startsWith (s p : string) : bool := String.prefix p s.

(** [s.endsWith(p)] *)
Definition endsWith (s p : string) : bool :=
  let n := String.length s in
  let m := String.length p in
  if (m <=? n)%nat
  then String.eqb (String.substring (n - m) m s) p
  else false.

(** [s.slice(1)] *)
Definition slice1 (s : string) : string :=
  match s with
  | EmptyString => EmptyString
  | String _ r => r
  end.

(** White space and line terminators as [trim] sees them.  Below code 128
    they take one byte: tab, line feed, vertical tab, form feed, carriage
    return and space. *)
Definition isSpace (c : ascii) : bool :=
  let n := nat_of_ascii c in
  (((9 <=? n) && (n <=? 13)) || (n =? 32))%nat.

(** U+00A0, no-break space: bytes C2 A0. *)
Definition isSpace2 (c1 c2 : ascii) : bool :=
  ((nat_of_ascii c1 =? 194) && (nat_of_ascii c2 =? 160))%nat.

(** The white space on three bytes: U+1680 (E1 9A 80), U+2000 to U+200A
    (E2 80 80 to E2 80 8A), the line and paragraph separators U+2028 and
    U+2029 (E2 80 A8, E2 80 A9), U+202F (E2 80 AF), U+205F (E2 81 9F),
    U+3000 (E3 80 80) and the byte order mark U+FEFF (EF BB BF). *)
Definition isSpace3 (c1 c2 c3 : ascii) : bool :=
  let n1 := nat_of_ascii c1 in
  let n2 := nat_of_ascii c2 in
  let n3 := nat_of_ascii c3 in
  (((n1 =? 225) && (n2 =? 154) && (n3 =? 128))
   || ((n1 =? 226) && (n2 =? 128)
       && (((128 <=? n3) && (n3 <=? 138))
           || (n3 =? 168) || (n3 =? 169) || (n3 =? 175)))
   || ((n1 =? 226) && (n2 =? 129) && (n3 =? 159))
   || ((n1 =? 227) && (n2 =? 128) && (n3 =? 128))
   || ((n1 =? 239) && (n2 =? 187) && (n3 =? 191)))%nat.

(** Drops leading white space, one character (of one, two or three bytes)
    at a time. *)
Fixpoint trimStart (s : string) : string :=
  match s with
  | EmptyString => EmptyString
  | String c1 r1 =>
      if isSpace c1 then trimStart r1
      else
        match r1 with
        | String c2 r2 =>
            if isSpace2 c1 c2 then trimStart r2
            else
              match r2 with
              | String c3 r3 =>
                  if isSpace3 c1 c2 c3 then trimStart r3 else s
              | EmptyString => s
              end
        | EmptyString => s
        end
  end.

(** Whether the text is one white-space character. *)
Definition isOneSpace (s : string) : bool :=
  match s with
  | String c1 EmptyString => isSpace c1
  | String c1 (String c2 EmptyString) => isSpace2 c1 c2
  | String c1 (String c2 (String c3 EmptyString)) => isSpace3 c1 c2 c3
  | _ => false
  end.

(** Drops trailing white space: the tail is trimmed first; if a single
    white-space character is all that is left with the byte in front, it
    goes too. *)
Fixpoint trimEnd (s : string) : string :=
  match s with
  | EmptyString => EmptyString
  | String c r =>
      let kept := String c (trimEnd r) in
      if isOneSpace kept then EmptyString else kept
  end.

(** [s.trim()] *)
Definition trim (s : string) : string := trimEnd (trimStart s).

(** [s.split('\n')]: never empty, the last piece is what follows the last
    line feed. *)
Fixpoint splitLines (s : string) : list string :=
  match s with
  | EmptyString => [EmptyString]
  | String c r =>
      if Ascii.eqb c "010"%char then EmptyString :: splitLines r
      else match splitLines r with
           | [] => [String c EmptyString]
           | l :: ls => String c l :: ls
           end
  end.

(** Truthiness of a string: only [''] is falsy. *)
Definition truthy (s : string) : bool :=
  match s with
  | EmptyString => false
  | String _ _ => true
  end.

(** U+FFFD, the replacement character: bytes EF BF BD. *)
Definition replacement : string :=
  String "239"%char (String "191"%char (String "189"%char EmptyString)).

(** A continuation byte, 80 to BF. *)
Definition isCont (c : ascii) : bool :=
  let n := nat_of_ascii c in ((128 <=? n) && (n <=? 191))%nat.

(** The second byte a lead byte of a three- or four-byte sequence admits:
    A0 to BF after E0 (no overlong form), 80 to 9F after ED (no surrogate),
    90 to BF after F0, 80 to 8F after F4 (nothing past U+10FFFF), any
    continuation byte otherwise. *)
Definition secondOk (lead : nat) (c : ascii) : bool :=
  let n := nat_of_ascii c in
  (if lead =? 224 then (160 <=? n) && (n <=? 191)
   else if lead =? 237 then (128 <=? n) && (n <=? 159)
   else if lead =? 240 then (144 <=? n) && (n <=? 191)
   else if lead =? 244 then (128 <=? n) && (n <=? 143)
   else (128 <=? n) && (n <=? 191))%nat.

(** [buffer.toString('utf-8')], which [fs.readFile(path, 'utf-8')] applies
    to the bytes of the file: well-formed UTF-8 is kept as it is, a byte
    order mark included; every byte that cannot start a character and every
    sequence cut short becomes U+FFFD, and decoding resumes at the byte that
    did not fit. *)
Fixpoint decodeUtf8 (s : string) : string :=
  match s with
  | EmptyString => EmptyString
  | String c1 r1 =>
      let n1 := nat_of_ascii c1 in
      if (n1 <? 128)%nat then String c1 (decodeUtf8 r1)
      else if ((194 <=? n1) && (n1 <=? 223))%nat then
        match r1 with
        | String c2 r2 =>
            if isCont c2 then String c1 (String c2 (decodeUtf8 r2))
            else (replacement ++ decodeUtf8 r1)%string
        | EmptyString => replacement
        end
      else if ((224 <=? n1) && (n1 <=? 239))%nat then
        match r1 with
        | String c2 r2 =>
            if secondOk n1 c2 then
              match r2 with
              | String c3 r3 =>
                  if isCont c3
                  then String c1 (String c2 (String c3 (decodeUtf8 r3)))
                  else (replacement ++ decodeUtf8 r2)%string
              | EmptyString => replacement
              end
            else (replacement ++ decodeUtf8 r1)%string
        | EmptyString => replacement
        end
      else if ((240 <=? n1) && (n1 <=? 244))%nat then
        match r1 with
        | String c2 r2 =>
            if secondOk n1 c2 then
              match r2 with
              | String c3 r3 =>
                  if isCont c3 then
                    match r3 with
                    | String c4 r4 =>
                        if isCont c4
                        then String c1 (String c2 (String c3
                               (String c4 (decodeUtf8 r4))))
                        else (replacement ++ decodeUtf8 r3)%string
                    | EmptyString => replacement
                    end
                  else (replacement ++ decodeUtf8 r2)%string
              | EmptyString => replacement
              end
            else (replacement ++ decodeUtf8 r1)%string
        | EmptyString => replacement
        end
      else (replacement ++ decodeUtf8 r1)%string
  end.

End JsString.

(** ** The local directory tree

    What [fs.readdir(dir, {withFileTypes: true})] and [fs.readFile] show of
    the local directory: entries in directory order, each one
    - a regular file, whose read may fail;
    - a directory that can be listed;
    - a directory whose listing fails: it shows nothing of what it holds,
      except that [fs.readFile] may still read the [.gitignore] in it, which
      needs no listing;
    - or something that is neither for [readdir] ([isDirectory()] and
      [isFile()] both false), such as a symbolic link: [fs.readFile] follows
      it and may read a content through it. *)

Inductive Node : Type :=
| FileNode (content : option string)
| DirNode (entries : list (string * Node))
| UnreadableDir (gitignore : option string)
| OtherNode (content : option string).

Definition isDirectory (n : Node) : bool :=
  match n with
  | DirNode _ | UnreadableDir _ => true
  | _ => false
  end.

(** [prefix ? `${prefix}/${name}` : name] *)
Definition joinSandboxPath (prefix name : string) : string :=
  if JsString.truthy prefix then (prefix ++ "/" ++ name)%string else name.

(** The sandbox path of an entry reached through the given names from the
    root (whose prefix is ['']). *)
Definition sandboxPathOf (segs : list string) : string :=
  fold_left joinSandboxPath segs "".

(** [reaches root segs n]: following the entry names [segs] down from
    [root] ends at node [n]. *)
Inductive reaches : Node -> list string -> Node -> Prop :=
| reaches_here : forall n, reaches n [] n
| reaches_down : forall entries name child segs n,
    In (name, child) entries ->
    reaches child segs n ->
    reaches (DirNode entries) (name :: segs) n.

(** ** constants.ts *)

Definition MAX_FILE_CHARS : Z := 30000.
Definition MAX_FILE_LINES_PREVIEW : Z := 400.
Definition SANDBOX_TIMEOUT_MS : Z := 30 * 60 * 1000.

(** ** File selection of [copyLocalToSandbox]

    The [ignore] package is an outside library.  An [Ignore] instance is
    modelled by the patterns added to it, in order; its matcher
    [ig.ignores(path)] is a parameter, and may throw (it rejects paths it
    does not hold to be relative). *)

Inductive Result (A : Type) : Type :=
| Ok (a : A)
| Throw (e : string).

Arguments Ok {A} a.
Arguments Throw {A} e.

Definition Ignore : Type := list string.

Module CopyIn.

(** Lines of a [.gitignore] kept as patterns:
    [content.split('\n').filter(line => line.trim() && !line.startsWith('#'))] *)
Definition gitignoreLines (content : string) : list string :=
  filter (fun line =>
            JsString.truthy (JsString.trim line)
            && negb (JsString.startsWith line "#"))
         (JsString.splitLines content).

(** The [map] of [loadFromDir]: patterns of a nested [.gitignore] get the
    directory prefix, after the [!] of a negation. *)
Definition prefixPattern (prefix pattern : string) : string :=
  if JsString.truthy prefix then
    if JsString.startsWith pattern "!"
    then ("!" ++ prefix ++ "/" ++ JsString.slice1 pattern)%string
    else (prefix ++ "/" ++ pattern)%string
  else pattern.

Fixpoint lookupEntry (name : string) (entries : list (string * Node))
  : option Node :=
  match entries with
  | [] => None
  | (n, node) :: rest =>
      if String.eqb n name then Some node else lookupEntry name rest
  end.

(** The bytes [fs.readFile(path.join(dir, name))] gives inside a listed
    directory; [None] when the read throws.  The read goes through a
    link. *)
Definition readFileIn (entries : list (string * Node)) (name : string)
  : option string :=
  match lookupEntry name entries with
  | Some (FileNode (Some content)) | Some (OtherNode (Some content)) =>
      Some content
  | _ => None
  end.

(** The patterns one [.gitignore] adds: its bytes are read as text. *)
Definition patternsOf (prefix : string) (gitignore : option string)
  : list string :=
  match gitignore with
  | Some bytes =>
      map (prefixPattern prefix) (gitignoreLines (JsString.decodeUtf8 bytes))
  | None => []
  end.

(** [loadFromDir]: the patterns this directory and its subdirectories add,
    in the order of the [ig.add] calls.  The [.gitignore] is read before
    the directory is listed, so a listing that fails loses the
    subdirectories only. *)
Fixpoint loadFromDir (dir : Node) (prefix : string) : list string :=
  match dir with
  | DirNode entries =>
      patternsOf prefix (readFileIn entries ".gitignore") ++
      (fix subdirs (es : list (string * Node)) : list string :=
         match es with
         | [] => []
         | (name, n) :: rest =>
             if isDirectory n
                && negb (String.eqb name ".git")
                && negb (String.eqb name "node_modules")
             then loadFromDir n (joinSandboxPath prefix name) ++ subdirs rest
             else subdirs rest
         end) entries
  | UnreadableDir gitignore => patternsOf prefix gitignore
  | _ => []
  end.

(** [loadGitignore] *)
Definition loadGitignore (root : Node) : Ignore :=
  [".git"; "node_modules"] ++ loadFromDir root "".

(** [shouldAlwaysSkip] *)
Definition shouldAlwaysSkip (name : string) (isDir : bool) : bool :=
  if String.eqb name ".env" || JsString.startsWith name ".env." then true
  else if String.eqb name ".DS_Store" then true
  else if isDir && String.eqb name "node_modules" then true
  else false.

Definition CopiedFile : Type := (string * string)%type.

Section Collect.

Variable ignores : string -> Result bool.

(** [collectFiles]: the files pushed onto [filesToCopy] by the walk of
    [dir], in order.  A throw of [ig.ignores] ends the loop of the
    directory at hand (the outer [try]); what was pushed stays. *)
Fixpoint collectFiles (dir : Node) (prefix : string) : list CopiedFile :=
  match dir with
  | DirNode entries =>
      (fix loop (es : list (string * Node)) : list CopiedFile :=
         match es with
         | [] => []
         | (name, n) :: rest =>
             let sandboxPath := joinSandboxPath prefix name in
             if shouldAlwaysSkip name (isDirectory n) then loop rest
             else
               let checkPath :=
                 if isDirectory n then (sandboxPath ++ "/")%string
                 else sandboxPath in
               match ignores checkPath with
               | Throw _ => []
               | Ok true => loop rest
               | Ok false =>
                   match n with
                   | DirNode _ | UnreadableDir _ =>
                       collectFiles n sandboxPath ++ loop rest
                   | FileNode (Some content) =>
                       if (Z.of_nat (String.length content) <? 1024 * 1024)%Z
                       then (sandboxPath, content) :: loop rest
                       else loop rest
                   | FileNode None => loop rest
                   | OtherNode _ => loop rest
                   end
               end
         end) entries
  | _ => []
  end.

End Collect.

(** [filesToCopy.slice(i, i + batchSize)] *)
Definition slice {A : Type} (i j : nat) (l : list A) : list A :=
  firstn (j - i) (skipn i l).

Definition batchSize : nat := 50.

(** The [for (let i = 0; i < filesToCopy.length; i += batchSize)] loop: the
    batches handed to [writeFiles], in order.  [fuel] bounds the number of
    rounds; [length files] rounds are always enough. *)
Fixpoint batchesFrom {A : Type} (fuel i : nat) (files : list A)
  : list (list A) :=
  match fuel with
  | 0 => []
  | S fuel' =>
      if i <? List.length files
      then slice i (i + batchSize) files
             :: batchesFrom fuel' (i + batchSize) files
      else []
  end.

Definition batches {A : Type} (files : list A) : list (list A) :=
  batchesFrom (List.length files) 0 files.

End CopyIn.

(** ** The outside of [sandbox.ts]

    Everything the module calls but does not define: the [@vercel/sandbox]
    service, the [ignore] matcher, the local disk, the process environment
    and the console.  The outside world is a state [W] threaded through
    every call; a call returns a value or throws. *)

Record LogEntry : Type := { stream : string; data : string }.

Record CommandResult : Type :=
  { stdout : string; stderr : string; exitCode : Z }.

Record Outside : Type := {
  W : Type;
  Handle : Type;                 (* a [Sandbox] object *)
  Cmd : Type;                    (* a detached command *)
  Stream : Type;                 (* a readable stream *)
  (* [Sandbox.create({runtime: 'node22', timeout, ports: [3000], ...})] *)
  Sandbox_create : Z -> W -> Result Handle * W;
  (* [sandbox.domain(port)] *)
  sandbox_domain : Handle -> Z -> W -> Result string * W;
  sandbox_sandboxId : Handle -> string;
  (* [sandbox.runCommand({cmd, args, detached: true})] *)
  sandbox_runCommand : Handle -> string -> list string -> W -> Result Cmd * W;
  (* [for await (... of cmd.logs())]: the entries delivered, and the error
     that ended the iteration, if one did *)
  cmd_logs : Cmd -> W -> (list LogEntry * option string) * W;
  (* [(await cmd.wait()).exitCode] *)
  cmd_wait : Cmd -> W -> Result Z * W;
  sandbox_readFile : Handle -> string -> W -> Result (option Stream) * W;
  sandbox_writeFiles : Handle -> list (string * string) -> W -> Result unit * W;
  sandbox_close : Handle -> W -> Result unit * W;
  (* [streamToString], a loop over the chunks of the stream *)
  streamToString : Stream -> W -> Result string * W;
  (* [ig.ignores(path)] for the instance holding the given patterns *)
  ignores : Ignore -> string -> Result bool;
  (* the local directory tree under a path *)
  localTree : W -> string -> Node;
  (* [fs.readFile(path, 'utf-8')] on the local disk *)
  fs_readFile : string -> W -> Result string * W;
  (* [path.resolve], [path.join] *)
  path_resolve : string -> string;
  path_join : string -> string -> string;
  (* [process.env.HOME] *)
  env_HOME : W -> option string;
  (* [s.replace(pattern, replacement)] with a string pattern *)
  js_replace : string -> string -> string -> string;
  (* [log(message, color)] of logger.js: writes to the console and returns *)
  log : string -> string -> W -> W;
  (* [installDevTools] and [copySandboxToLocal], run on the live sandbox:
     long scripts of outside calls, taken whole *)
  installDevTools : Handle -> W -> Result unit * W;
  copySandboxToLocal : Handle -> string -> W -> Result unit * W
}.

(** ** The module and its state

    [let sandbox: Sandbox | null = null; let sandboxDomain: string | null =
    null;] are the module's two variables.  A function of the module is a
    computation over them and the outside world that returns or throws. *)

Section SandboxModule.

Variable o : Outside.

Record ModuleState : Type :=
  { sandbox : option (Handle o); sandboxDomain : option string }.

Record Env : Type := { vars : ModuleState; world : W o }.

Definition initialState : ModuleState :=
  {| sandbox := None; sandboxDomain := None |}.

Definition M (A : Type) : Type := Env -> Result A * Env.

Definition ret {A : Type} (a : A) : M A := fun e => (Ok a, e).

Definition bind {A B : Type} (m : M A) (k : A -> M B) : M B :=
  fun e =>
    match m e with
    | (Ok a, e') => k a e'
    | (Throw err, e') => (Throw err, e')
    end.

(** [throw new Error(msg)] *)
Definition throw {A : Type} (msg : string) : M A := fun e => (Throw msg, e).

(** [try { body } catch { handler }] *)
Definition tryCatch {A : Type} (body : M A) (handler : M A) : M A :=
  fun e =>
    match body e with
    | (Ok a, e') => (Ok a, e')
    | (Throw _, e') => handler e'
    end.

(** An outside call, run on the world of the environment. *)
Definition outside {A : Type} (f : W o -> Result A * W o) : M A :=
  fun e =>
    let '(r, w) := f (world e) in
    (r, {| vars := vars e; world := w |}).

Definition readVars : M ModuleState := fun e => (Ok (vars e), e).

Definition writeVars (s : ModuleState) : M unit :=
  fun e => (Ok tt, {| vars := s; world := world e |}).

Definition say (message color : string) : M unit :=
  outside (fun w => (Ok tt, log o message color w)).

End SandboxModule.

Arguments ret {o A} a.
Arguments bind {o A B} m k.
Arguments throw {o A} msg.
Arguments tryCatch {o A} body handler.
Arguments outside {o A} f.
Arguments readVars {o}.
Arguments writeVars {o} s.
Arguments say {o} message color.
Arguments sandbox {o} m.
Arguments sandboxDomain {o} m.
Arguments vars {o} e.
Arguments world {o} e.

Notation "x <- c ;; k" := (bind c (fun x => k))
  (at level 61, c at next level, right associativity).
Notation "c ;;; k" := (bind c (fun _ => k))
  (at level 61, right associativity).

(** [`${n}`] for a length *)
Definition showNat (n : nat) : string := NilZero.string_of_uint (Nat.to_uint n).

Inductive TaskPrompt : Type :=
| PromptFrom (prompt source : string)
| NeedsInterview.

Section SandboxFunctions.

Variable o : Outside.

Definition setSandbox (v : option (Handle o)) : M o unit :=
  s <- readVars ;;
  writeVars {| sandbox := v; sandboxDomain := sandboxDomain s |}.

Definition setSandboxDomain (v : option string) : M o unit :=
  s <- readVars ;;
  writeVars {| sandbox := sandbox s; sandboxDomain := v |}.

(** [getSandbox] *)
Definition getSandbox : M o (option (Handle o)) :=
  s <- readVars ;; ret (sandbox s).

(** [getSandboxDomain] *)
Definition getSandboxDomain : M o (option string) :=
  s <- readVars ;; ret (sandboxDomain s).

(** [sandbox!.method(...)]: the assertion leaves no check behind, and a
    call on [null] throws a [TypeError], whose message names the method. *)
Definition sandboxBang (method : string) : M o (Handle o) :=
  s <- readVars ;;
  match sandbox s with
  | Some h => ret h
  | None =>
      throw ("Cannot read properties of null (reading '" ++ method ++ "')")
  end.

(** The files [copyLocalToSandbox] collects from the tree at [localDir]. *)
Definition filesToCopy (root : Node) : list CopyIn.CopiedFile :=
  CopyIn.collectFiles (ignores o (CopyIn.loadGitignore root)) root "".

Fixpoint writeBatches (bs : list (list CopyIn.CopiedFile)) : M o unit :=
  match bs with
  | [] => ret tt
  | batch :: rest =>
      h <- sandboxBang "writeFiles" ;;
      outside (sandbox_writeFiles o h batch) ;;;
      writeBatches rest
  end.

(** [copyLocalToSandbox] *)
Definition copyLocalToSandbox (localDir : string) : M o unit :=
  say "  [-] Copying project files to sandbox..." "cyan" ;;;
  root <- outside (fun w => (Ok (localTree o w localDir), w)) ;;
  let files := filesToCopy root in
  if 0 <? List.length files then
    writeBatches (CopyIn.batches files) ;;;
    say ("  [+] Copied " ++ showNat (List.length files)
           ++ " files to sandbox")%string "green"
  else
    say "  [i] Starting with empty sandbox (new project)" "dim".

(** [initializeSandbox] *)
Definition initializeSandbox (localDir : string) : M o unit :=
  say "  [-] Creating secure sandbox..." "cyan" ;;;
  h <- outside (Sandbox_create o SANDBOX_TIMEOUT_MS) ;;
  setSandbox (Some h) ;;;
  h' <- sandboxBang "domain" ;;
  d <- outside (sandbox_domain o h' 3000%Z) ;;
  setSandboxDomain (Some d) ;;;
  say ("  [+] Sandbox created (" ++ sandbox_sandboxId o h' ++ ")")%string
      "green" ;;;
  say ("      Dev server URL: " ++ d)%string "dim" ;;;
  copyLocalToSandbox localDir ;;;
  h'' <- sandboxBang "runCommand" ;;
  outside (installDevTools o h'').

(** [closeSandbox] *)
Definition closeSandbox (localDir : string) : M o unit :=
  s <- readVars ;;
  match sandbox s with
  | Some h =>
      tryCatch
        (outside (copySandboxToLocal o h localDir) ;;;
         h' <- sandboxBang "close" ;;
         outside (sandbox_close o h') ;;;
         say "  [-] Sandbox closed" "dim")
        (ret tt) ;;;
      setSandbox None ;;;
      setSandboxDomain None
  | None => ret tt
  end.

(** The [stdout += ...] / [stderr += ...] accumulation over the log. *)
Definition gather (which : string) (entries : list LogEntry) : string :=
  fold_left
    (fun acc entry =>
       if String.eqb (stream entry) which then (acc ++ data entry)%string
       else acc)
    entries "".

(** [runInSandbox] *)
Definition runInSandbox (command : string) : M o CommandResult :=
  s <- readVars ;;
  match sandbox s with
  | None => throw "Sandbox not initialized"
  | Some h =>
      cmd <- outside (sandbox_runCommand o h "sh" ["-c"; command]) ;;
      entries <- outside (fun w =>
                            let '((es, _), w') := cmd_logs o cmd w in
                            (Ok es, w')) ;;
      code <- outside (cmd_wait o cmd) ;;
      ret {| stdout := gather "stdout" entries;
             stderr := gather "stderr" entries;
             exitCode := code |}
  end.

(** [readFromSandbox] *)
Definition readFromSandbox (filePath : string) : M o (option string) :=
  s <- readVars ;;
  match sandbox s with
  | None => throw "Sandbox not initialized"
  | Some h =>
      st <- outside (sandbox_readFile o h filePath) ;;
      match st with
      | None => ret None
      | Some stream =>
          text <- outside (streamToString o stream) ;;
          ret (Some text)
      end
  end.

(** [writeToSandbox] *)
Definition writeToSandbox (filePath content : string) : M o unit :=
  s <- readVars ;;
  match sandbox s with
  | None => throw "Sandbox not initialized"
  | Some h => outside (sandbox_writeFiles o h [(filePath, content)])
  end.

(** The tail of [getTaskPrompt]: [PROMPT.md] of the local directory, then
    Plan Mode. *)
Definition promptFromFile (localDir : string) : M o TaskPrompt :=
  found <- tryCatch
             (content <- outside
                           (fs_readFile o (path_join o localDir "PROMPT.md")) ;;
              if JsString.truthy content
              then ret (Some (PromptFrom (JsString.trim content) "PROMPT.md"))
              else ret None)
             (ret None) ;;
  match found with
  | Some p => ret p
  | None => ret NeedsInterview
  end.

(** [pathModule.resolve(promptArg.replace('~', process.env.HOME || ''))] *)
Definition promptPathOf (home : option string) (arg : string) : string :=
  let home' := match home with
               | Some h => if JsString.truthy h then h else ""
               | None => ""
               end in
  path_resolve o (js_replace o arg "~" home').

(** [getTaskPrompt]; [promptArg] is [None] for [undefined]. *)
Definition getTaskPrompt (promptArg : option string) (localDir : string)
  : M o TaskPrompt :=
  match promptArg with
  | Some arg =>
      if JsString.truthy arg then
        if JsString.endsWith arg ".md" then
          home <- outside (fun w => (Ok (env_HOME o w), w)) ;;
          let promptPath := promptPathOf home arg in
          tryCatch
            (content <- outside (fs_readFile o promptPath) ;;
             ret (PromptFrom (JsString.trim content) promptPath))
            (ret (PromptFrom arg "CLI argument"))
        else ret (PromptFrom arg "CLI argument")
      else promptFromFile localDir
  | None => promptFromFile localDir
  end.

End SandboxFunctions.

(** * The outer loop

    The implementation of [RalphLoopAgent] ([loop], [stream], the
    evaluators, the stop conditions) is not among the sources; what follows
    is written from the specification: its data model (section 3), the state
    machine of the outer loop (4.1), the evaluator variants (4.2), the stop
    condition (4.3), the streaming finalizer (4.4) and the interfaces
    (section 6). *)

Module Ralph.

(** Modelled from the spec: a conversation turn.  The implementation's
    message type is missing; the spec names what becomes a turn: the
    original prompt, a generation output, a feedback text, and the
    completion question a judge appends to the transcript. *)
Inductive TurnKind : Type :=
| PromptTurn | OutputTurn | FeedbackTurn | QuestionTurn.

Record Turn : Type := { kind : TurnKind; text : string }.

(** Modelled from the spec: [Verdict], "{complete: boolean,
    reason/feedback: optional text}" (the verdict type is missing). *)
Record Verdict : Type := { complete : bool; reason : option string }.

(** Modelled from the spec: "When [complete=false], [feedback] (if present)
    is the text injected as a new turn before the next iteration." *)
Definition feedbackOf (v : Verdict) : option string :=
  if complete v then None else reason v.

(** Modelled from the spec: [completionReason: 'verified' |
    'max-iterations' | 'aborted'] of the missing result type. *)
Inductive CompletionReason : Type :=
| Verified | MaxIterations | AbortedRun.

(** Modelled from the spec: the two forms of the inner-loop call, the
    ordinary one and the "streaming variant" (section 6). *)
Inductive Mode : Type := NonStreaming | Streaming.

(** Modelled from the spec: one invocation of the inner loop, as the trace
    of a run records it: for which iteration, with which history ("the
    message history passed into iteration k"), in which mode. *)
Record InnerCall : Type :=
  { callIteration : nat; callHistory : list Turn; callMode : Mode }.

(** Modelled from the spec: the consumed generation engine (section 6),
    which is an outside collaborator: [runInnerLoop(history, tools,
    innerStopCondition)], its streaming variant (here: the result once the
    stream is drained), the tool-free generation request of the judges with
    the parse of its answer, a clock for durations and the abort signal. *)
Record Engine : Type := {
  World : Type;
  GenResult : Type;
  ModelId : Type;
  Tools : Type;
  InnerStop : Type;
  resultText : GenResult -> string;
  runInnerLoop :
    list Turn -> Tools -> InnerStop -> World -> Result GenResult * World;
  runInnerLoopStreaming :
    list Turn -> Tools -> InnerStop -> World -> Result GenResult * World;
  generateText : ModelId -> list Turn -> World -> Result string * World;
  affirmative : string -> bool;
  defaultQuestion : string;
  clock : World -> nat;
  abortSignalled : World -> bool
}.

Section Loop.

Variable E : Engine.

(** Modelled from the spec: [IterationRecord], "iteration index (1-based,
    monotonic), the inner loop's generation result, the Verdict produced
    for it (absent if the loop aborted before evaluation), wall-clock
    duration". *)
Record IterationRecord : Type := {
  index : nat;
  generation : GenResult E;
  verdict : option Verdict;
  duration : nat
}.

(** Modelled from the spec: [LoopState], "original prompt, append-only
    ordered sequence of conversation turns, ordered sequence of
    IterationRecord". *)
Record LoopState : Type := {
  originalPrompt : string;
  history : list Turn;
  records : list IterationRecord
}.

(** Modelled from the spec: the evaluator's input, "{latestResult,
    iterationIndex, allIterationRecords, originalPrompt}". *)
Record EvalInput : Type := {
  latestResult : GenResult E;
  iterationIndex : nat;
  allIterationRecords : list IterationRecord;
  evalPrompt : string
}.

(** Modelled from the spec: what a callback may return, "a plain boolean
    ([true] => complete, no feedback) or a structured Verdict"; anything
    else is the "malformed verdict" of the error taxonomy. *)
Inductive CallbackReturn : Type :=
| RetBool (b : bool)
| RetVerdict (v : Verdict)
| RetMalformed.

(** Modelled from the spec: the closed set of evaluator variants (4.2). *)
Inductive Evaluator : Type :=
| SelfJudge (question : option string)
| JudgeModel (judge : ModelId E) (question : option string)
| Callback (fn : EvalInput -> World E -> Result CallbackReturn * World E).

(** Modelled from the spec: the notifications emitted after a successful
    inner-loop round, [onIterationEnd] and [onIterationFinish]. *)
Inductive ObserverEvent : Type :=
| IterationEnd (rec : IterationRecord)
| IterationFinish (rec : IterationRecord).

(** Modelled from the spec: the configuration surface (section 6). *)
Record Settings : Type := {
  model : ModelId E;
  tools : Tools E;
  evaluator : Evaluator;
  stopWhen : LoopState -> bool;
  toolStopWhen : InnerStop E;
  observer : ObserverEvent -> World E -> Result unit * World E
}.

(** Modelled from the spec: the default stop condition, "fixed maximum
    count", a predicate over the loop state asked after an evaluated
    iteration: stop once [n] iterations are on record. *)
Definition iterationCountIs (n : nat) : LoopState -> bool :=
  fun st => n <=? List.length (records st).

(** Modelled from the spec: observers "must not alter control flow --
    exceptions from observers are logged and swallowed". *)
Definition notify (cfg : Settings) (ev : ObserverEvent) (w : World E)
  : World E :=
  snd (observer cfg ev w).

(** Modelled from the spec: a judge "issues one additional, tool-free
    generation request ..., appending a fixed or caller-supplied
    completion question to the transcript; parses the response into a
    boolean-like verdict (affirmative tokens -> complete) plus the raw
    response as [reason]". *)
Definition judge (who : ModelId E) (question : option string)
           (st : LoopState) (w : World E) : Result Verdict * World E :=
  let q := match question with
           | Some q => q
           | None => defaultQuestion E
           end in
  match generateText E who
          (history st ++ [{| kind := QuestionTurn; text := q |}]) w with
  | (Ok response, w') =>
      (Ok {| complete := affirmative E response; reason := Some response |},
       w')
  | (Throw e, w') => (Throw e, w')
  end.

(** Modelled from the spec: the evaluator dispatch (4.2), one case per
    variant; an exception raised inside an evaluator propagates. *)
Definition evaluate (cfg : Settings) (st : LoopState) (input : EvalInput)
           (w : World E) : Result Verdict * World E :=
  match evaluator cfg with
  | SelfJudge question => judge (model cfg) question st w
  | JudgeModel who question => judge who question st w
  | Callback fn =>
      match fn input w with
      | (Ok (RetBool b), w') => (Ok {| complete := b; reason := None |}, w')
      | (Ok (RetVerdict v), w') => (Ok v, w')
      | (Ok RetMalformed, w') => (Throw "malformed verdict", w')
      | (Throw e, w') => (Throw e, w')
      end
  end.

(** Modelled from the spec: the states of the outer loop, "Idle ->
    Running -> Evaluating -> {Completed | MaxIterationsReached |
    Aborted}"; [Evaluating] holds the generation result under
    evaluation, [Aborted] the error. *)
Inductive Phase : Type :=
| Idle
| Running
| Evaluating (latest : GenResult E)
| Completed
| MaxIterationsReached
| Aborted (error : string).

(** Modelled from the spec: the outer loop in one of its states, with the
    iteration index, the loop state it owns, the world of its
    collaborators, and the trace of the inner-loop calls made so far. *)
Record Machine : Type := {
  phase : Phase;
  iteration : nat;
  state : LoopState;
  now : World E;
  calls : list InnerCall
}.

(** Modelled from the spec: the states no transition leaves. *)
Definition terminal (p : Phase) : bool :=
  match p with
  | Completed | MaxIterationsReached | Aborted _ => true
  | _ => false
  end.

(** Modelled from the spec: the machine before the loop starts ([Idle]);
    the loop state is created with the original prompt by the first
    transition. *)
Definition start (prompt : string) (w : World E) : Machine :=
  {| phase := Idle; iteration := 0;
     state := {| originalPrompt := prompt; history := []; records := [] |};
     now := w; calls := [] |}.

(** Modelled from the spec: "history is append-only": a turn is added at
    the end. *)
Definition appendTurn (k : TurnKind) (t : string) (st : LoopState)
  : LoopState :=
  {| originalPrompt := originalPrompt st;
     history := history st ++ [{| kind := k; text := t |}];
     records := records st |}.

(** Modelled from the spec: "append IterationRecord". *)
Definition appendRecord (rec : IterationRecord) (st : LoopState)
  : LoopState :=
  {| originalPrompt := originalPrompt st;
     history := history st;
     records := records st ++ [rec] |}.

(** Modelled from the spec: the record of an iteration with the verdict
    "produced for it". *)
Definition withVerdict (v : Verdict) (rec : IterationRecord)
  : IterationRecord :=
  {| index := index rec; generation := generation rec;
     verdict := Some v; duration := duration rec |}.

(** Modelled from the spec: the verdict of the iteration under evaluation
    is entered in its record, the last one ("verdict pending" until
    then). *)
Definition recordVerdict (v : Verdict) (st : LoopState) : LoopState :=
  {| originalPrompt := originalPrompt st;
     history := history st;
     records :=
       match rev (records st) with
       | [] => []
       | rec :: earlier => rev earlier ++ [withVerdict v rec]
       end |}.

(** Modelled from the spec: the evaluator's input for the machine at
    hand. *)
Definition evalInputOf (m : Machine) (latest : GenResult E) : EvalInput :=
  {| latestResult := latest;
     iterationIndex := iteration m;
     allIterationRecords := records (state m);
     evalPrompt := originalPrompt (state m) |}.

(** Modelled from the spec: the machine of [stream] once the terminating
    iteration has been issued again and its stream drained to the result
    [r] (4.4): the output turn and the record of the non-streaming attempt
    are taken back and those of the streamed result put in their place,
    the streaming call is on the trace with the history the attempt was
    given, and the evaluator has yet to run on the drained text. *)
Definition reissued (m : Machine) (r : GenResult E) (w : World E)
  : Machine :=
  let h := removelast (history (state m)) in
  {| phase := Evaluating r;
     iteration := iteration m;
     state :=
       {| originalPrompt := originalPrompt (state m);
          history := h ++ [{| kind := OutputTurn; text := resultText E r |}];
          records :=
            removelast (records (state m))
              ++ [{| index := iteration m; generation := r;
                     verdict := None;
                     duration := clock E w - clock E (now m) |}] |};
     now := w;
     calls := calls m ++ [{| callIteration := iteration m;
                             callHistory := h;
                             callMode := Streaming |}] |}.

Section Transitions.

Variable cfg : Settings.

(** Modelled from the spec: the transitions of the outer loop (4.1) and
    the cancellation rule of section 5.

    - [Idle -> Running]: "create LoopState with the original prompt as
      first turn".
    - [Running -> Evaluating]: the inner loop is invoked "with the
      current accumulated history and the caller's tool set and inner
      stop condition"; on success the generation output becomes a turn,
      the iteration record is appended (verdict pending) and the
      observers are notified.
    - [Evaluating -> Completed]: the verdict is complete.  Completion is
      looked at first: the stop condition is "evaluated once per
      completed-and-evaluated iteration that did not itself report
      completion" (4.3), and a run with [maxIterations = 1] "may still
      report verified".
    - [Evaluating -> MaxIterationsReached]: the verdict is not complete
      and the stop condition says stop.
    - [Evaluating -> Running]: the verdict is not complete and the stop
      condition says continue; the feedback (if provided) is appended as
      a new turn and the iteration index incremented.  An abort signal
      observed here, between iterations, aborts instead.
    - [* -> Aborted]: the inner loop or the evaluator raises; the error
      is kept. *)
Definition step (m : Machine) : Machine :=
  match phase m with
  | Idle =>
      {| phase := Running; iteration := 1;
         state := appendTurn PromptTurn (originalPrompt (state m))
                             (state m);
         now := now m; calls := calls m |}
  | Running =>
      let h := history (state m) in
      let call := {| callIteration := iteration m; callHistory := h;
                     callMode := NonStreaming |} in
      match runInnerLoop E h (tools cfg) (toolStopWhen cfg) (now m) with
      | (Ok r, w) =>
          let rec := {| index := iteration m; generation := r;
                        verdict := None;
                        duration := clock E w - clock E (now m) |} in
          {| phase := Evaluating r; iteration := iteration m;
             state := appendRecord rec
                        (appendTurn OutputTurn (resultText E r) (state m));
             now := notify cfg (IterationFinish rec)
                      (notify cfg (IterationEnd rec) w);
             calls := calls m ++ [call] |}
      | (Throw e, w) =>
          {| phase := Aborted e; iteration := iteration m;
             state := state m; now := w; calls := calls m ++ [call] |}
      end
  | Evaluating r =>
      match evaluate cfg (state m) (evalInputOf m r) (now m) with
      | (Ok v, w) =>
          let st := recordVerdict v (state m) in
          if complete v then
            {| phase := Completed; iteration := iteration m;
               state := st; now := w; calls := calls m |}
          else if stopWhen cfg st then
            {| phase := MaxIterationsReached; iteration := iteration m;
               state := st; now := w; calls := calls m |}
          else if abortSignalled E w then
            {| phase := Aborted "aborted"; iteration := iteration m;
               state := st; now := w; calls := calls m |}
          else
            {| phase := Running; iteration := S (iteration m);
               state := match feedbackOf v with
                        | Some fb => appendTurn FeedbackTurn fb st
                        | None => st
                        end;
               now := w; calls := calls m |}
      | (Throw e, w) =>
          {| phase := Aborted e; iteration := iteration m;
             state := state m; now := w; calls := calls m |}
      end
  | Completed | MaxIterationsReached | Aborted _ => m
  end.

(** Modelled from the spec: the loop itself: the machine is stepped until
    it is in a terminal state; [fuel] bounds the number of transitions. *)
Fixpoint run (fuel : nat) (m : Machine) : option Machine :=
  if terminal (phase m) then Some m
  else match fuel with
       | 0 => None
       | S fuel' => run fuel' (step m)
       end.

(** Modelled from the spec: the output of [loop] (section 6),
    "{finalText, iterations, completionReason, reason?, lastResult,
    allIterationResults}", with the error an aborted run carries. *)
Record LoopResult : Type := {
  finalText : string;
  iterations : nat;
  completionReason : CompletionReason;
  resultReason : option string;
  lastResult : option (GenResult E);
  allIterationResults : list (GenResult E);
  error : option string
}.

(** Modelled from the spec: the record of the last iteration, the source of
    [finalText], [reason] and [lastResult]. *)
Definition lastRecord (st : LoopState) : option IterationRecord :=
  match rev (records st) with
  | [] => None
  | rec :: _ => Some rec
  end.

(** Modelled from the spec: the result read off a machine: [iterations] is
    its iteration index, [allIterationResults] the generation results on
    record, in order. *)
Definition summary (why : CompletionReason) (err : option string)
           (m : Machine) : LoopResult :=
  let final := lastRecord (state m) in
  {| finalText := match final with
                  | Some rec => resultText E (generation rec)
                  | None => ""
                  end;
     iterations := iteration m;
     completionReason := why;
     resultReason := match final with
                     | Some rec =>
                         match verdict rec with
                         | Some v => reason v
                         | None => None
                         end
                     | None => None
                     end;
     lastResult := option_map generation final;
     allIterationResults := map generation (records (state m));
     error := err |}.

(** Modelled from the spec: the result a terminal machine stands for:
    [Completed] is 'verified', [MaxIterationsReached] is 'max-iterations',
    [Aborted] is 'aborted' with its error. *)
Definition resultOf (m : Machine) : option LoopResult :=
  match phase m with
  | Completed => Some (summary Verified None m)
  | MaxIterationsReached => Some (summary MaxIterations None m)
  | Aborted e => Some (summary AbortedRun (Some e) m)
  | _ => None
  end.

(** Modelled from the spec: operation [loop(input)], by the machine it
    ends in. *)
Definition loopMachine (fuel : nat) (prompt : string) (w : World E)
  : option Machine :=
  run fuel (start prompt w).

(** Modelled from the spec: operation [loop(input)]. *)
Definition loop (fuel : nat) (prompt : string) (w : World E)
  : option LoopResult :=
  match loopMachine fuel prompt w with
  | Some m => resultOf m
  | None => None
  end.

(** Modelled from the spec: the streaming finalizer (4.4).  The
    iteration that resolved termination (through [Completed] or
    [MaxIterationsReached]) "is re-issued to the inner loop in streaming
    mode (not reused from the non-streaming attempt)": the streaming
    variant is invoked on the history that iteration was given, and "the
    Evaluator is still run against the fully drained text", that is on the
    machine [reissued].  No further iteration follows ("only the final
    iteration is ever exposed to the caller as a stream"), so a verdict
    that is not complete leaves ['max-iterations'], the one outcome left;
    an error aborts. *)
Definition finalize (m : Machine) : Machine :=
  match phase m with
  | Completed | MaxIterationsReached =>
      let h := removelast (history (state m)) in
      match runInnerLoopStreaming E h (tools cfg) (toolStopWhen cfg)
              (now m) with
      | (Ok r, w) =>
          let drained := reissued m r w in
          match evaluate cfg (state drained) (evalInputOf drained r) w with
          | (Ok v, w') =>
              {| phase := if complete v then Completed
                          else MaxIterationsReached;
                 iteration := iteration m;
                 state := recordVerdict v (state drained);
                 now := w'; calls := calls drained |}
          | (Throw e, w') =>
              {| phase := Aborted e; iteration := iteration m;
                 state := state drained; now := w'; calls := calls drained |}
          end
      | (Throw e, w) =>
          {| phase := Aborted e; iteration := iteration m;
             state := state m; now := w;
             calls := calls m ++ [{| callIteration := iteration m;
                                     callHistory := h;
                                     callMode := Streaming |}] |}
      end
  | _ => m
  end.

(** Modelled from the spec: operation [stream(input)], by the machine it
    ends in once the stream is drained. *)
Definition streamMachine (fuel : nat) (prompt : string) (w : World E)
  : option Machine :=
  option_map finalize (loopMachine fuel prompt w).

(** Modelled from the spec: operation [stream(input)], by its bookkeeping
    once the stream is drained. *)
Definition stream (fuel : nat) (prompt : string) (w : World E)
  : option LoopResult :=
  match streamMachine fuel prompt w with
  | Some m => resultOf m
  | None => None
  end.

End Transitions.

End Loop.

Arguments index {E} i.
Arguments generation {E} i.
Arguments verdict {E} i.
Arguments duration {E} i.
Arguments originalPrompt {E} l.
Arguments history {E} l.
Arguments records {E} l.
Arguments latestResult {E} e.
Arguments iterationIndex {E} e.
Arguments allIterationRecords {E} e.
Arguments evalPrompt {E} e.
Arguments SelfJudge {E} question.
Arguments JudgeModel {E} judge question.
Arguments Callback {E} fn.
Arguments IterationEnd {E} rec.
Arguments IterationFinish {E} rec.
Arguments model {E} s.
Arguments tools {E} s.
Arguments evaluator {E} s.
Arguments stopWhen {E} s.
Arguments toolStopWhen {E} s.
Arguments observer {E} s.
Arguments notify {E} cfg ev w.
Arguments judge {E} who question st w.
Arguments evaluate {E} cfg st input w.
Arguments Idle {E}.
Arguments Running {E}.
Arguments Evaluating {E} latest.
Arguments Completed {E}.
Arguments MaxIterationsReached {E}.
Arguments Aborted {E} error.
Arguments phase {E} m.
Arguments iteration {E} m.
Arguments state {E} m.
Arguments now {E} m.
Arguments calls {E} m.
Arguments terminal {E} p.
Arguments appendTurn {E} k t st.
Arguments appendRecord {E} rec st.
Arguments withVerdict {E} v rec.
Arguments recordVerdict {E} v st.
Arguments evalInputOf {E} m latest.
Arguments step {E} cfg m.
Arguments run {E} cfg fuel m.
Arguments finalText {E} l.
Arguments iterations {E} l.
Arguments completionReason {E} l.
Arguments resultReason {E} l.
Arguments lastResult {E} l.
Arguments allIterationResults {E} l.
Arguments error {E} l.
Arguments lastRecord {E} st.
Arguments summary {E} why err m.
Arguments resultOf {E} m.
Arguments loopMachine {E} cfg fuel prompt w.
Arguments loop {E} cfg fuel prompt w.
Arguments reissued {E} m r w.
Arguments finalize {E} cfg m.
Arguments streamMachine {E} cfg fuel prompt w.
Arguments stream {E} cfg fuel prompt w.

End Ralph.

(** ** Predicates used to state the properties *)

(** The directories passed on the way down: none is skipped outright, and
    the matcher lets each one through (asked with a trailing slash). *)
Fixpoint dirsPassed (ig : string -> Result bool) (prefix : string)
         (dirs : list string) : Prop :=
  match dirs with
  | [] => True
  | d :: rest =>
      CopyIn.shouldAlwaysSkip d true = false
      /\ ig (joinSandboxPath prefix d ++ "/")%string = Ok false
      /\ dirsPassed ig (joinSandboxPath prefix d) rest
  end.

(** What the loop of [collectFiles] asks of an entry before anything of it
    is pushed. *)
Definition entryPassed (ig : string -> Result bool) (prefix p c : string)
           (e : string * Node) : Prop :=
  let '(name, n) := e in
  CopyIn.shouldAlwaysSkip name (isDirectory n) = false
  /\ ((n = FileNode (Some c)
       /\ p = joinSandboxPath prefix name
       /\ ig p = Ok false
       /\ (Z.of_nat (String.length c) < 1024 * 1024)%Z)
      \/ (isDirectory n = true
          /\ ig (joinSandboxPath prefix name ++ "/")%string = Ok false
          /\ In (p, c)
                (CopyIn.collectFiles ig n (joinSandboxPath prefix name)))).

(** The reading of "no process-wide singleton" on this module: a
    provisioning call made by someone else leaves the sandbox of the first
    caller, as [getSandbox] reports it, as it was. *)
Definition noSharedSandboxState (o : Outside) : Prop :=
  forall (dirA dirB : string) (e : Env o),
    let e1 := snd (initializeSandbox o dirA e) in
    let e2 := snd (initializeSandbox o dirB e1) in
    fst (getSandbox o e2) = fst (getSandbox o e1).

(** A computation that leaves the module variables alone. *)
Definition keepsVars {o : Outside} {A : Type} (m : M o A) : Prop :=
  forall e, vars (snd (m e)) = vars e.

(** ** A small outside world to run the module on *)

Module Fixture.

Record World : Type := {
  nextId : nat;
  written : list (list (string * string));
  console : list string
}.

(** A stand-in for the matcher: a path is ignored when, its trailing slash
    apart, it is one of the patterns; a path of dots only is rejected. *)
Definition dropSlash (path : string) : string :=
  if JsString.endsWith path "/"
  then String.substring 0 (String.length path - 1) path
  else path.

Definition toyIgnores (ig : Ignore) (path : string) : Result bool :=
  if String.eqb path "..." then Throw "RangeError: path should be relative"
  else Ok (existsb (String.eqb (dropSlash path)) ig).

Definition tree : Node :=
  DirNode
    [ (".env", FileNode (Some "TOKEN=abc"));
      (".env.local", FileNode (Some "TOKEN=def"));
      (".DS_Store", FileNode (Some "meta"));
      (".gitignore", FileNode (Some "dist
# build output
"));
      ("node_modules", DirNode [("pkg.js", FileNode (Some "module"))]);
      ("dist", DirNode [("out.js", FileNode (Some "built"))]);
      ("src", DirNode [ ("index.ts", FileNode (Some "export {}"));
                        (".env", FileNode (Some "TOKEN=ghi"));
                        ("locked", FileNode None) ]);
      ("README.md", FileNode (Some "# demo")) ].

Definition toy : Outside := {|
  W := World;
  Handle := nat;
  Cmd := string;
  Stream := string;
  Sandbox_create := fun _ w =>
    (Ok (nextId w),
     {| nextId := S (nextId w); written := written w; console := console w |});
  sandbox_domain := fun h _ w => (Ok ("sb-" ++ showNat h)%string, w);
  sandbox_sandboxId := showNat;
  sandbox_runCommand := fun _ _ args w => (Ok (String.concat " " args), w);
  cmd_logs := fun c w => (([{| stream := "stdout"; data := c |}], None), w);
  cmd_wait := fun _ w => (Ok 0%Z, w);
  sandbox_readFile := fun _ _ w => (Ok None, w);
  sandbox_writeFiles := fun _ files w =>
    (Ok tt,
     {| nextId := nextId w; written := written w ++ [files];
        console := console w |});
  sandbox_close := fun _ w => (Throw "close failed", w);
  streamToString := fun s w => (Ok s, w);
  ignores := toyIgnores;
  localTree := fun _ _ => tree;
  fs_readFile := fun path w =>
    if String.eqb path "/work/PROMPT.md" then (Ok "", w)
    else (Throw "ENOENT", w);
  path_resolve := fun p => p;
  path_join := fun a b => (a ++ "/" ++ b)%string;
  env_HOME := fun _ => Some "/home/dev";
  js_replace := fun s _ _ => s;
  log := fun message _ w =>
    {| nextId := nextId w; written := written w;
       console := console w ++ [message] |};
  installDevTools := fun _ w => (Ok tt, w);
  copySandboxToLocal := fun _ _ w => (Throw "find failed", w)
|}.

Definition world0 : World := {| nextId := 0; written := []; console := [] |}.

Definition env0 : Env toy := {| vars := initialState toy; world := world0 |}.

End Fixture.

(** A computation that leaves the [sandbox] variable alone. *)
Definition keepsHandle {o : Outside} {A : Type} (m : M o A) : Prop :=
  forall e, sandbox (vars (snd (m e))) = sandbox (vars e).

(** ** Predicates on the collaborators of the outer loop *)

Module RalphSpec.

Import Ralph.

(** The inner-loop stub returns a result on every call. *)
Definition innerLoopSucceeds (E : Engine) : Prop :=
  forall h t s w, exists r w', runInnerLoop E h t s w = (Ok r, w').

(** No abort is ever signalled. *)
Definition neverAborted (E : Engine) : Prop :=
  forall w, abortSignalled E w = false.

(** The evaluator reports incomplete on every iteration whose index
    satisfies [P]. *)
Definition reportsIncomplete {E : Engine} (cfg : Settings E)
           (P : nat -> Prop) : Prop :=
  forall st input w,
    P (iterationIndex input) ->
    exists v w', evaluate cfg st input w = (Ok v, w') /\ complete v = false.

(** The outer loop is bounded by [maxIterations = n]. *)
Definition maxIterationsIs {E : Engine} (cfg : Settings E) (n : nat) : Prop :=
  forall st, stopWhen cfg st = iterationCountIs E n st.

(** The evaluator call raises [e] on the machine at hand, leaving world
    [w']: the generation request of a judge fails, or the callback
    throws. *)
Definition evaluatorRaises {E : Engine} (cfg : Settings E) (m : Machine E)
           (latest : GenResult E) (e : string) (w' : World E) : Prop :=
  let transcript question :=
    history (state m)
      ++ [{| kind := QuestionTurn;
             text := match question with
                     | Some q => q
                     | None => defaultQuestion E
                     end |}] in
  match evaluator cfg with
  | SelfJudge question =>
      generateText E (model cfg) (transcript question) (now m) = (Throw e, w')
  | JudgeModel who question =>
      generateText E who (transcript question) (now m) = (Throw e, w')
  | Callback fn => fn (evalInputOf m latest) (now m) = (Throw e, w')
  end.

(** The turns an iteration on record has added to the history: its output,
    then the feedback of its verdict, if it has one. *)
Definition turnsOf {E : Engine} (rec : IterationRecord E) : list Turn :=
  {| kind := OutputTurn; text := resultText E (generation rec) |}
    :: match verdict rec with
       | Some v =>
           match feedbackOf v with
           | Some fb => [{| kind := FeedbackTurn; text := fb |}]
           | None => []
           end
       | None => []
       end.

(** The history after the given iterations. *)
Definition historyAfter {E : Engine} (prompt : string)
           (recs : list (IterationRecord E)) : list Turn :=
  {| kind := PromptTurn; text := prompt |} :: flat_map turnsOf recs.

(** What holds of every machine a run goes through: call [i] (from 0) is
    the non-streaming call of iteration [i + 1], made with the history after
    the first [i] iterations; the history of a machine about to run or to
    evaluate is the history after the iterations on record. *)
Definition callsAligned {E : Engine} (m : Machine E) : Prop :=
  forall i c,
    nth_error (calls m) i = Some c ->
    callIteration c = S i
    /\ callMode c = NonStreaming
    /\ callHistory c
       = historyAfter (originalPrompt (state m))
                      (firstn i (records (state m))).

Definition phaseInvariant {E : Engine} (m : Machine E) : Prop :=
  match phase m with
  | Idle =>
      calls m = [] /\ records (state m) = [] /\ history (state m) = []
  | Running =>
      List.length (calls m) = List.length (records (state m))
      /\ iteration m = S (List.length (records (state m)))
      /\ history (state m)
         = historyAfter (originalPrompt (state m)) (records (state m))
      /\ (forall rec, In rec (records (state m)) -> verdict rec <> None)
  | Evaluating r =>
      List.length (calls m) = List.length (records (state m))
      /\ iteration m = List.length (records (state m))
      /\ history (state m)
         = historyAfter (originalPrompt (state m)) (records (state m))
      /\ exists earlier rec,
           records (state m) = earlier ++ [rec]
           /\ verdict rec = None /\ generation rec = r
           /\ (forall rec', In rec' earlier -> verdict rec' <> None)
  | Completed | MaxIterationsReached =>
      List.length (calls m) = List.length (records (state m))
      /\ iteration m = List.length (records (state m))
      /\ exists earlier rec,
           records (state m) = earlier ++ [rec]
           /\ history (state m)
              = historyAfter (originalPrompt (state m)) earlier
                  ++ [{| kind := OutputTurn;
                         text := resultText E (generation rec) |}]
  | Aborted _ => True
  end.

Definition invariant {E : Engine} (m : Machine E) : Prop :=
  callsAligned m /\ phaseInvariant m.

(** Record [i] (from 0) is the record of iteration [i + 1]. *)
Definition recordsIndexed {E : Engine} (m : Machine E) : Prop :=
  forall i rec, nth_error (records (state m)) i = Some rec -> index rec = S i.

(** Whether two turns are the same turn: same kind, same text. *)
Definition sameTurn (t1 t2 : Turn) : bool :=
  match kind t1, kind t2 with
  | PromptTurn, PromptTurn | OutputTurn, OutputTurn
  | FeedbackTurn, FeedbackTurn | QuestionTurn, QuestionTurn =>
      String.eqb (text t1) (text t2)
  | _, _ => false
  end.

(** How many turns of a history are the turn [t]. *)
Definition occurrences (t : Turn) (h : list Turn) : nat :=
  List.length (filter (sameTurn t) h).

(** Two records that differ at most in the wall-clock duration. *)
Definition sameRecord {E : Engine} (r1 r2 : IterationRecord E) : Prop :=
  index r1 = index r2
  /\ generation r1 = generation r2
  /\ verdict r1 = verdict r2.

Definition sameState {E : Engine} (s1 s2 : LoopState E) : Prop :=
  originalPrompt s1 = originalPrompt s2
  /\ history s1 = history s2
  /\ Forall2 sameRecord (records s1) (records s2).

Definition sameInput {E : Engine} (i1 i2 : EvalInput E) : Prop :=
  latestResult i1 = latestResult i2
  /\ iterationIndex i1 = iterationIndex i2
  /\ Forall2 sameRecord (allIterationRecords i1) (allIterationRecords i2)
  /\ evalPrompt i1 = evalPrompt i2.

(** Two machines in the same state of the loop, their worlds and the
    durations they measured apart. *)
Definition sameMachine {E : Engine} (m1 m2 : Machine E) : Prop :=
  phase m1 = phase m2
  /\ iteration m1 = iteration m2
  /\ sameState (state m1) (state m2)
  /\ calls m1 = calls m2.

(** Deterministic collaborators: what the inner loop returns depends on
    its arguments only, what the evaluator and the stop condition answer
    depends on what they are given only (and not on measured durations), and
    the abort signal does not change. *)
Definition deterministicStubs {E : Engine} (cfg : Settings E) : Prop :=
  (forall h t s w1 w2,
      fst (runInnerLoop E h t s w1) = fst (runInnerLoop E h t s w2))
  /\ (forall st1 st2 i1 i2 w1 w2,
         sameState st1 st2 -> sameInput i1 i2 ->
         fst (evaluate cfg st1 i1 w1) = fst (evaluate cfg st2 i2 w2))
  /\ (forall st1 st2, sameState st1 st2 -> stopWhen cfg st1 = stopWhen cfg st2)
  /\ (forall w1 w2, abortSignalled E w1 = abortSignalled E w2).

End RalphSpec.

(** ** A small engine to run the loop on *)

Module LoopFixture.

Import Ralph.

(** The world counts the calls made so far and serves as the clock; a
    generation result is its text. *)
Definition engine : Engine := {|
  World := nat;
  GenResult := string;
  ModelId := unit;
  Tools := unit;
  InnerStop := unit;
  resultText := fun r => r;
  runInnerLoop := fun h _ _ w =>
    (Ok ("draft " ++ showNat (List.length h))%string, S w);
  runInnerLoopStreaming := fun h _ _ w =>
    (Ok ("draft " ++ showNat (List.length h))%string, S w);
  generateText := fun _ _ w => (Throw "network down", S w);
  affirmative := String.eqb "YES";
  defaultQuestion := "Has the task been fully completed? Answer YES or NO.";
  clock := fun w => w;
  abortSignalled := fun _ => false
|}.

Definition settings (ev : Evaluator engine) (n : nat) : Settings engine :=
  Build_Settings engine
    tt                                          (* model *)
    tt                                          (* tools *)
    ev                                          (* evaluator *)
    (iterationCountIs engine n)                 (* stopWhen *)
    tt                                          (* toolStopWhen *)
    (fun _ w => (Throw "observer failed", w))   (* observer *).

(** A callback that never accepts and always sends the same feedback. *)
Definition alwaysRetry : Evaluator engine :=
  Callback (fun _ w =>
              (Ok (RetVerdict {| complete := false; reason := Some "retry" |}),
               w)).

(** A callback that accepts at iteration [k]. *)
Definition doneAt (k : nat) : Evaluator engine :=
  Callback (fun input w => (Ok (RetBool (iterationIndex input =? k)), w)).

(** A callback that throws. *)
Definition crashing : Evaluator engine :=
  Callback (fun _ w => (Throw "evaluator crashed", w)).

Definition retryOnce : Settings engine := settings alwaysRetry 1.
Definition retryThrice : Settings engine := settings alwaysRetry 3.
Definition doneAtTwo : Settings engine := settings (doneAt 2) 5.
Definition crashingJudge : Settings engine := settings crashing 5.
Definition selfJudging : Settings engine := settings (SelfJudge None) 5.

(** What [loop] returns on the fixture for [doneAtTwo]. *)
Definition verifiedAtTwo : LoopResult engine :=
  Build_LoopResult engine
    "draft 2"                  (* finalText *)
    2                          (* iterations *)
    Verified                   (* completionReason *)
    None                       (* reason *)
    (Some "draft 2")           (* lastResult *)
    ["draft 1"; "draft 2"]     (* allIterationResults *)
    None                       (* error *).

(** An engine whose judge answers: [YES] once the transcript it is asked
    about holds five turns, the question included, and a remark before. *)
Definition judgingEngine : Engine := {|
  World := nat;
  GenResult := string;
  ModelId := unit;
  Tools := unit;
  InnerStop := unit;
  resultText := fun r => r;
  runInnerLoop := fun h _ _ w =>
    (Ok ("draft " ++ showNat (List.length h))%string, S w);
  runInnerLoopStreaming := fun h _ _ w =>
    (Ok ("draft " ++ showNat (List.length h))%string, S w);
  generateText := fun _ h w =>
    (Ok (if 5 <=? List.length h then "YES" else "NO: keep going"), S w);
  affirmative := String.eqb "YES";
  defaultQuestion := "Has the task been fully completed? Answer YES or NO.";
  clock := fun w => w;
  abortSignalled := fun _ => false
|}.

(** A self-judge on that engine, with [maxIterations = 5]. *)
Definition selfJudged : Settings judgingEngine :=
  Build_Settings judgingEngine
    tt tt (SelfJudge None) (iterationCountIs judgingEngine 5) tt
    (fun _ w => (Ok tt, w)).

(** An engine whose inner loop, streaming or not, answers by the world: the
    second call made says [DONE], every other call a draft. *)
Definition moodyEngine : Engine := {|
  World := nat;
  GenResult := string;
  ModelId := unit;
  Tools := unit;
  InnerStop := unit;
  resultText := fun r => r;
  runInnerLoop := fun _ _ _ w =>
    (Ok (if w =? 1 then "DONE" else "draft"), S w);
  runInnerLoopStreaming := fun _ _ _ w =>
    (Ok (if w =? 1 then "DONE" else "draft"), S w);
  generateText := fun _ _ w => (Throw "network down", w);
  affirmative := String.eqb "YES";
  defaultQuestion := "Has the task been fully completed? Answer YES or NO.";
  clock := fun w => w;
  abortSignalled := fun _ => false
|}.

(** A callback on that engine that accepts the result [DONE], with
    [maxIterations = 5]. *)
Definition doneWhenSaid : Settings moodyEngine :=
  Build_Settings moodyEngine
    tt tt
    (@Callback moodyEngine
       (fun (input : EvalInput moodyEngine) (w : nat) =>
          (Ok (RetBool (String.eqb (latestResult input) "DONE")), w)))
    (iterationCountIs moodyEngine 5) tt
    (fun _ w => (Ok tt, w)).

End LoopFixture.

(** A text made of white space only. *)
Fixpoint allSpace (s : string) : bool :=
  match s with
  | EmptyString => true
  | String c r => JsString.isSpace c && allSpace r
  end.

(** The fixture with a given content of [/work/PROMPT.md]. *)
Definition fixtureWithPrompt (content : string) : Outside := {|
  W := Fixture.World;
  Handle := nat;
  Cmd := string;
  Stream := string;
  Sandbox_create := Sandbox_create Fixture.toy;
  sandbox_domain := sandbox_domain Fixture.toy;
  sandbox_sandboxId := sandbox_sandboxId Fixture.toy;
  sandbox_runCommand := sandbox_runCommand Fixture.toy;
  cmd_logs := cmd_logs Fixture.toy;
  cmd_wait := cmd_wait Fixture.toy;
  sandbox_readFile := sandbox_readFile Fixture.toy;
  sandbox_writeFiles := sandbox_writeFiles Fixture.toy;
  sandbox_close := sandbox_close Fixture.toy;
  streamToString := streamToString Fixture.toy;
  ignores := ignores Fixture.toy;
  localTree := localTree Fixture.toy;
  fs_readFile := fun path w =>
    if String.eqb path "/work/PROMPT.md" then (Ok content, w)
    else (Throw "ENOENT", w);
  path_resolve := path_resolve Fixture.toy;
  path_join := path_join Fixture.toy;
  env_HOME := env_HOME Fixture.toy;
  js_replace := js_replace Fixture.toy;
  log := log Fixture.toy;
  installDevTools := installDevTools Fixture.toy;
  copySandboxToLocal := copySandboxToLocal Fixture.toy
|}.

(** ** Plan Mode

    [runPlanMode] of plan-mode.js is not among the sources: it is taken as a
    parameter, a computation of the module that returns [{prompt,
    saveToFile}] or throws. *)

Section PlanMode.

Variable o : Outside.
Variable runPlanMode : M o (string * bool).

(** [runInterviewAndGetPrompt]; the result is [{prompt, source}]. *)
Definition runInterviewAndGetPrompt : M o (string * string) :=
  say "No PROMPT.md found. Starting Plan Mode..." "yellow" ;;;
  plan <- runPlanMode ;;
  let '(prompt, saveToFile) := plan in
  (if saveToFile then
     writeToSandbox o "PROMPT.md" prompt ;;;
     say (String "010"%char "[+] Saved PROMPT.md to sandbox") "green"
   else ret tt) ;;;
  ret (prompt, if saveToFile then "PROMPT.md" else "Plan Mode").

End PlanMode.

(** ** Installing the development tools

    [installPlaywright], [installPostgres] and [installRedis], each a
    sequence of shell commands run through [runInSandboxInternal] inside one
    [try].  ([installDevTools] runs the three concurrently under
    [Promise.all]; it is the [installDevTools] of the outside.) *)

Module DevTools.

(** [s.includes(sub)] *)
Definition includes (s sub : string) : bool :=
  match String.index 0 sub s with
  | Some _ => true
  | None => false
  end.

(** What a byte of the text adds to the [length] of the JavaScript string,
    which counts UTF-16 code units: nothing for a continuation byte, two
    for the first byte of a character past U+FFFF (F0 and above), one for
    any other first byte. *)
Definition unitsOf (c : ascii) : nat :=
  if JsString.isCont c then 0
  else if 240 <=? nat_of_ascii c then 2
  else 1.

(** [s.length] *)
Fixpoint units (s : string) : nat :=
  match s with
  | EmptyString => 0
  | String c r => unitsOf c + units r
  end.

(** [s.slice(0, n)]: the characters that fit in the first [n] code units.
    A cut between the two code units of a character leaves half of it,
    which is logged as U+FFFD. *)
Fixpoint sliceFirst (n : nat) (s : string) : string :=
  match s with
  | EmptyString => EmptyString
  | String c r =>
      if JsString.isCont c then String c (sliceFirst n r)
      else if unitsOf c <=? n then String c (sliceFirst (n - unitsOf c) r)
      else if n =? 1 then JsString.replacement
      else EmptyString
  end.

(** [s.slice(k)] for [k <= s.length]: the text without its first [k] code
    units. *)
Fixpoint dropUnits (k : nat) (s : string) : string :=
  match s with
  | EmptyString => EmptyString
  | String c r =>
      if JsString.isCont c then dropUnits k r
      else if k =? 0 then s
      else if unitsOf c <=? k then dropUnits (k - unitsOf c) r
      else (JsString.replacement ++ dropUnits 0 r)%string
  end.

(** [s.slice(-n)] for [n > 0]: the last [n] code units, all of [s] when it
    has fewer. *)
Definition sliceLast (n : nat) (s : string) : string :=
  dropUnits (units s - n) s.

(** [`${code}`] for an exit code *)
Definition showZ (z : Z) : string := NilZero.string_of_int (Z.to_int z).

(** The double quote, for the shell commands that hold one. *)
Definition dq : string := String "034"%char "".

Definition criticalDeps : list string := ["nss"; "nspr"].
Definition displayDeps : list string :=
  ["libxkbcommon"; "atk"; "at-spi2-atk"; "at-spi2-core"].
Definition xDeps : list string :=
  ["libXcomposite"; "libXdamage"; "libXrandr"; "libXfixes"; "libXcursor";
   "libXi"; "libXtst"; "libXScrnSaver"; "libXext"].
Definition graphicsDeps : list string :=
  ["mesa-libgbm"; "libdrm"; "mesa-libGL"; "mesa-libEGL"].
Definition otherDeps : list string :=
  ["cups-libs"; "alsa-lib"; "pango"; "cairo"; "gtk3"; "dbus-libs"].
Definition allOtherDeps : list string :=
  displayDeps ++ xDeps ++ graphicsDeps ++ otherDeps.

Definition PLAYWRIGHT_CACHE : string :=
  "/home/vercel-sandbox/.cache/ms-playwright".

Definition installRedisCommand : string := "sudo dnf install -y redis6 2>&1".
Definition startRedisCommand : string :=
  "sudo systemctl start redis 2>&1 || redis-server --daemonize yes 2>&1 || true".

Definition installPostgresCommand : string :=
  "sudo dnf install -y postgresql16 postgresql16-server 2>&1".
Definition postgresSetupCommands : list string :=
  ["sudo postgresql-setup --initdb 2>&1 || true";
   "sudo systemctl start postgresql 2>&1 || sudo pg_ctl -D /var/lib/pgsql/data start 2>&1 || true";
   "sleep 2";
   "sudo -u postgres createuser -s $(whoami) 2>&1 || true";
   "createdb sandbox 2>&1 || true"].

Definition npmInstallCommand : string :=
  "npm install -g playwright@latest 2>&1".
Definition browserInstallCommand : string :=
  ("PLAYWRIGHT_BROWSERS_PATH=" ++ PLAYWRIGHT_CACHE
     ++ " npx playwright install --with-deps chromium 2>&1")%string.
Definition browserRetryCommand : string :=
  ("PLAYWRIGHT_BROWSERS_PATH=" ++ PLAYWRIGHT_CACHE
     ++ " npx playwright install chromium 2>&1")%string.

Section Installers.

Variable o : Outside.

(** [try { body } catch (error) { handler(error.message) }] *)
Definition tryCatchE {A : Type} (body : M o A) (handler : string -> M o A)
  : M o A :=
  fun e =>
    match body e with
    | (Ok a, e') => (Ok a, e')
    | (Throw err, e') => handler err e'
    end.

(** [runInSandboxInternal] *)
Definition runInSandboxInternal (command : string) : M o CommandResult :=
  h <- sandboxBang o "runCommand" ;;
  cmd <- outside (sandbox_runCommand o h "sh" ["-c"; command]) ;;
  entries <- outside (fun w =>
                        let '((es, _), w') := cmd_logs o cmd w in
                        (Ok es, w')) ;;
  code <- outside (cmd_wait o cmd) ;;
  ret {| stdout := gather "stdout" entries;
         stderr := gather "stderr" entries;
         exitCode := code |}.

(** The commands run one after the other, their results dropped. *)
Fixpoint runAll (commands : list string) : M o unit :=
  match commands with
  | [] => ret tt
  | c :: rest => runInSandboxInternal c ;;; runAll rest
  end.

(** [installRedis] *)
Definition installRedis : M o bool :=
  tryCatch
    (installResult <- runInSandboxInternal installRedisCommand ;;
     if negb (exitCode installResult =? 0)%Z then ret false
     else
       runInSandboxInternal startRedisCommand ;;;
       ret true)
    (ret false).

(** [installPostgres]: the install, then the init, the start of the
    service, the wait and the two creations, whose results are not looked
    at. *)
Definition installPostgres : M o bool :=
  tryCatch
    (installResult <- runInSandboxInternal installPostgresCommand ;;
     if negb (exitCode installResult =? 0)%Z then ret false
     else
       runAll postgresSetupCommands ;;;
       ret true)
    (ret false).

(** The first part of [installPlaywright]: the system libraries Chromium
    needs, up to the check of the library cache. *)
Definition chromiumSystemDeps : M o unit :=
  say "      Installing Chromium system dependencies..." "dim" ;;;
  runInSandboxInternal "sudo dnf clean all 2>&1" ;;;
  criticalResult <- runInSandboxInternal
                      ("sudo dnf install -y " ++ String.concat " " criticalDeps
                         ++ " 2>&1")%string ;;
  (if negb (exitCode criticalResult =? 0)%Z then
     say "      Critical deps failed, retrying with --allowerasing..." "dim" ;;;
     runInSandboxInternal
       ("sudo dnf install -y --allowerasing "
          ++ String.concat " " criticalDeps ++ " 2>&1")%string ;;;
     ret tt
   else ret tt) ;;;
  runInSandboxInternal
    ("sudo dnf install -y --skip-broken " ++ String.concat " " allOtherDeps
       ++ " 2>&1")%string ;;;
  runInSandboxInternal "sudo ldconfig 2>&1" ;;;
  libCheck <- runInSandboxInternal
                ("ldconfig -p | grep -E " ++ dq ++ "libnspr4|libxkbcommon"
                   ++ dq ++ " 2>&1")%string ;;
  if includes (stdout libCheck) "libnspr4"
     && includes (stdout libCheck) "libxkbcommon"
  then say "      Critical libraries verified: libnspr4, libxkbcommon" "dim"
  else
    nspr <- runInSandboxInternal "rpm -q nspr 2>&1" ;;
    nss <- runInSandboxInternal "rpm -q nss 2>&1" ;;
    say ("      Library check: nspr=" ++ JsString.trim (stdout nspr)
           ++ ", nss=" ++ JsString.trim (stdout nss))%string "dim" ;;;
    findLib <- runInSandboxInternal
                 ("find /usr -name " ++ dq ++ "libnspr4*" ++ dq
                    ++ " 2>/dev/null | head -1")%string ;;
    if JsString.truthy (JsString.trim (stdout findLib))
    then say ("      Found libnspr4 at: "
                ++ JsString.trim (stdout findLib))%string "dim"
    else ret tt.

(** The end of [installPlaywright]: the check that the browser is in the
    cache, which only logs. *)
Definition verifyChromium : M o bool :=
  verifyResult <- runInSandboxInternal
                    ("ls -la " ++ PLAYWRIGHT_CACHE ++ "/ 2>&1")%string ;;
  let cacheContent := JsString.trim (stdout verifyResult) in
  say ("      Playwright cache contents: "
         ++ String.concat "; "
              (firstn 3 (JsString.splitLines cacheContent)))%string "dim" ;;;
  chromiumCheck <- runInSandboxInternal
                     ("find " ++ PLAYWRIGHT_CACHE ++ " -name " ++ dq
                        ++ "chrome*" ++ dq
                        ++ " -type f 2>/dev/null | head -1")%string ;;
  (if JsString.truthy (JsString.trim (stdout chromiumCheck))
   then say ("      Chromium binary found: "
               ++ JsString.trim (stdout chromiumCheck))%string "dim"
   else say "      Warning: Chromium binary not found in cache" "yellow") ;;;
  ret true.

(** The middle of [installPlaywright]: the package, then the browser, with
    one retry without [--with-deps]. *)
Definition installPackageAndBrowser : M o bool :=
  say "      Installing playwright globally..." "dim" ;;;
  installResult <- runInSandboxInternal npmInstallCommand ;;
  if negb (exitCode installResult =? 0)%Z then
    say ("      Playwright npm install failed: "
           ++ sliceFirst 300 (stdout installResult))%string "dim" ;;;
    ret false
  else
    say "      Playwright package installed" "dim" ;;;
    say "      Installing Chromium browser..." "dim" ;;;
    browserResult <- runInSandboxInternal browserInstallCommand ;;
    (if JsString.truthy (stdout browserResult)
     then say ("      Browser install output: "
                 ++ sliceLast 300 (stdout browserResult))%string "dim"
     else ret tt) ;;;
    if negb (exitCode browserResult =? 0)%Z then
      say ("      Chromium install failed (exit "
             ++ showZ (exitCode browserResult) ++ ")")%string "dim" ;;;
      say "      Retrying without --with-deps..." "dim" ;;;
      retryResult <- runInSandboxInternal browserRetryCommand ;;
      if negb (exitCode retryResult =? 0)%Z then ret false
      else verifyChromium
    else verifyChromium.

(** [installPlaywright] *)
Definition installPlaywright : M o bool :=
  tryCatchE
    (chromiumSystemDeps ;;; installPackageAndBrowser)
    (fun message =>
       say ("      Playwright install exception: " ++ message)%string "dim" ;;;
       ret false).

End Installers.

End DevTools.

(** ** Copying the files back

    [loadSandboxGitignore] and [copySandboxToLocal] as the module writes
    them ([closeSandbox] above takes the second whole, as the
    [copySandboxToLocal] of the outside).  They call three things of the
    local disk that nothing else in the module calls. *)

Record Disk (o : Outside) : Type := {
  (* [fs.mkdir(dir, {recursive: true})] *)
  fs_mkdir : string -> W o -> Result unit * W o;
  (* [fs.writeFile(path, content, 'utf-8')] *)
  fs_writeFile : string -> string -> W o -> Result unit * W o;
  (* [path.dirname] *)
  path_dirname : string -> string
}.

Arguments fs_mkdir {o} d dir w.
Arguments fs_writeFile {o} d path content w.
Arguments path_dirname {o} d path.

Module CopyOut.

(** [s.replace(/^\.\//, '')] *)
Definition stripDotSlash (s : string) : string :=
  if JsString.startsWith s "./"
  then String.substring 2 (String.length s - 2) s
  else s.

(** The [map] of [loadSandboxGitignore]: the directory of the [.gitignore]
    goes in front of each pattern, after the [!] of a negation. *)
Definition prefixWith (relativePath pattern : string) : string :=
  if JsString.startsWith pattern "!"
  then ("!" ++ relativePath ++ "/" ++ JsString.slice1 pattern)%string
  else (relativePath ++ "/" ++ pattern)%string.

Definition findGitignoresArgs : list string :=
  ["."; "-name"; ".gitignore"; "-not"; "-path"; "./node_modules/*";
   "-not"; "-path"; "./.git/*"].

Definition findFilesArgs : list string :=
  ["."; "-type"; "f"; "-not"; "-path"; "./node_modules/*";
   "-not"; "-path"; "./.git/*"].

(** [stdout.split('\n').filter(f => f.trim() && f !== './.gitignore')] *)
Definition gitignoreFilesOf (out : string) : list string :=
  filter (fun f =>
            JsString.truthy (JsString.trim f)
            && negb (String.eqb f "./.gitignore"))
         (JsString.splitLines out).

(** [stdout.split('\n').filter(f => f.trim() && f !== '.')] *)
Definition filesOf (out : string) : list string :=
  filter (fun f =>
            JsString.truthy (JsString.trim f) && negb (String.eqb f "."))
         (JsString.splitLines out).

Section CopyBack.

Variable o : Outside.
Variable disk : Disk o.

(** [find] with the given arguments, detached: what it printed on [stdout].
    An error of the log stream is dropped; the exit code is not looked
    at. *)
Definition findOutput (args : list string) : M o string :=
  h <- sandboxBang o "runCommand" ;;
  cmd <- outside (sandbox_runCommand o h "find" args) ;;
  entries <- outside (fun w =>
                        let '((es, _), w') := cmd_logs o cmd w in
                        (Ok es, w')) ;;
  outside (cmd_wait o cmd) ;;;
  ret (gather "stdout" entries).

(** The first [try]: the patterns of the [.gitignore] at the root. *)
Definition rootPatterns : M o (list string) :=
  tryCatch
    (h <- sandboxBang o "readFile" ;;
     st <- outside (sandbox_readFile o h ".gitignore") ;;
     match st with
     | Some stream =>
         content <- outside (streamToString o stream) ;;
         ret (CopyIn.gitignoreLines content)
     | None => ret []
     end)
    (ret []).

(** The body of the loop over the nested [.gitignore] files, a [try] of its
    own: the patterns the file adds. *)
Definition nestedPatterns (gitignorePath : string) : M o (list string) :=
  tryCatch
    (let relativePath :=
       js_replace o (stripDotSlash gitignorePath) "/.gitignore" "" in
     h <- sandboxBang o "readFile" ;;
     st <- outside (sandbox_readFile o h (stripDotSlash gitignorePath)) ;;
     match st with
     | Some stream =>
         content <- outside (streamToString o stream) ;;
         ret (map (prefixWith relativePath) (CopyIn.gitignoreLines content))
     | None => ret []
     end)
    (ret []).

Fixpoint addNested (ig : Ignore) (gitignoreFiles : list string)
  : M o Ignore :=
  match gitignoreFiles with
  | [] => ret ig
  | gitignorePath :: rest =>
      patterns <- nestedPatterns gitignorePath ;;
      addNested (ig ++ patterns) rest
  end.

(** [loadSandboxGitignore].  The instance is the list of the patterns added
    so far.  In the second [try] only [find] can throw, before any pattern
    of a nested file is added, so its handler leaves the instance as the
    first [try] left it. *)
Definition loadSandboxGitignore : M o Ignore :=
  let ig0 := [".git"; "node_modules"] in
  own <- rootPatterns ;;
  let ig1 := ig0 ++ own in
  tryCatch
    (out <- findOutput findGitignoresArgs ;;
     addNested ig1 (gitignoreFilesOf out))
    (ret ig1).

(** The [try] around the copy of one file: whether [copiedCount] went
    up. *)
Definition copyOne (sandboxPath localPath : string) : M o bool :=
  tryCatch
    (h <- sandboxBang o "readFile" ;;
     st <- outside (sandbox_readFile o h sandboxPath) ;;
     match st with
     | Some stream =>
         content <- outside (streamToString o stream) ;;
         outside (fs_mkdir disk (path_dirname disk localPath)) ;;;
         outside (fs_writeFile disk localPath content) ;;;
         ret true
     | None => ret false
     end)
    (ret false).

(** The [for (const file of files)] loop, with its two counters. *)
Fixpoint copyFiles (ig : Ignore) (localDir : string) (files : list string)
         (copiedCount skippedCount : nat) : M o (nat * nat) :=
  match files with
  | [] => ret (copiedCount, skippedCount)
  | file :: rest =>
      let sandboxPath := stripDotSlash file in
      ignored <- (fun e => (ignores o ig sandboxPath, e)) ;;
      if ignored : bool then
        copyFiles ig localDir rest copiedCount (S skippedCount)
      else
        let localPath := path_join o localDir sandboxPath in
        copied <- copyOne sandboxPath localPath ;;
        copyFiles ig localDir rest
          (if copied : bool then S copiedCount else copiedCount) skippedCount
  end.

(** [copySandboxToLocal] *)
Definition copySandboxToLocal (localDir : string) : M o unit :=
  say "  [-] Copying changes back to local..." "cyan" ;;;
  ig <- loadSandboxGitignore ;;
  out <- findOutput findFilesArgs ;;
  counts <- copyFiles ig localDir (filesOf out) 0 0 ;;
  let '(copiedCount, skippedCount) := counts in
  say ("  [+] Copied " ++ showNat copiedCount ++ " files back to local"
         ++ (if (0 <? skippedCount)%nat
             then " (" ++ showNat skippedCount ++ " ignored)"
             else ""))%string "green".

End CopyBack.

End CopyOut.


(** Whether the matcher holding [ig] answers [true] for a line of [find],
    and whether it answers [false]. *)
Definition isIgnored (o : Outside) (ig : Ignore) (file : string) : bool :=
  match ignores o ig (CopyOut.stripDotSlash file) with
  | Ok true => true
  | _ => false
  end.

Definition isKept (o : Outside) (ig : Ignore) (file : string) : bool :=
  match ignores o ig (CopyOut.stripDotSlash file) with
  | Ok false => true
  | _ => false
  end.

(** The fixture with a sandbox whose [find] prints a listing (of the
    [.gitignore] files when asked for them by name) and whose files all
    read as one line, [dist] for a [.gitignore]. *)
Definition backFixture : Outside := {|
  W := Fixture.World;
  Handle := nat;
  Cmd := string;
  Stream := string;
  Sandbox_create := Sandbox_create Fixture.toy;
  sandbox_domain := sandbox_domain Fixture.toy;
  sandbox_sandboxId := sandbox_sandboxId Fixture.toy;
  sandbox_runCommand := sandbox_runCommand Fixture.toy;
  cmd_logs := fun c w =>
    (([{| stream := "stdout";
          data := if JsString.startsWith c ". -name"
                  then "./.gitignore
./src/.gitignore
"
                  else "./src/index.ts
./dist
./src/dist
./README.md
" |}], None), w);
  cmd_wait := cmd_wait Fixture.toy;
  sandbox_readFile := fun _ path w =>
    (Ok (Some (if JsString.endsWith path ".gitignore" then "dist"
               else ("text of " ++ path)%string)), w);
  sandbox_writeFiles := sandbox_writeFiles Fixture.toy;
  sandbox_close := sandbox_close Fixture.toy;
  streamToString := streamToString Fixture.toy;
  ignores := ignores Fixture.toy;
  localTree := localTree Fixture.toy;
  fs_readFile := fs_readFile Fixture.toy;
  path_resolve := path_resolve Fixture.toy;
  path_join := path_join Fixture.toy;
  env_HOME := env_HOME Fixture.toy;
  js_replace := fun s _ _ =>
    if JsString.endsWith s "/.gitignore"
    then String.substring 0 (String.length s - 11) s
    else s;
  log := log Fixture.toy;
  installDevTools := installDevTools Fixture.toy;
  copySandboxToLocal := copySandboxToLocal Fixture.toy
|}.

Definition backDisk : Disk backFixture :=
  Build_Disk backFixture
    (fun _ (w : Fixture.World) => (Ok tt, w))
    (fun path content (w : Fixture.World) =>
       (Ok tt,
        {| Fixture.nextId := Fixture.nextId w;
           Fixture.written := Fixture.written w;
           Fixture.console :=
             Fixture.console w
               ++ [("write " ++ path ++ ": " ++ content)%string] |}))
    (fun p => p).

(** The fixture after [Sandbox.create]: handle 0. *)
Definition backEnv : Env backFixture :=
  Build_Env backFixture
    (Build_ModuleState backFixture (Some 0) None) Fixture.world0.

(** ** What is handed to [writeFiles]

    The outside with a record kept of the [sandbox.writeFiles] calls: its
    world is the world of [o] next to the batches handed over so far, in the
    order of the calls.  Every call does to the world of [o] what it does
    there; [writeFiles] also notes its argument. *)

Definition Handed : Type := list (list (string * string)).

Section Recording.

Variable o : Outside.

Definition onWorld {A : Type} (f : W o -> Result A * W o)
           (w : W o * Handed) : Result A * (W o * Handed) :=
  let '(r, w') := f (fst w) in (r, (w', snd w)).

Definition recording : Outside :=
  Build_Outside
    (W o * Handed)%type (Handle o) (Cmd o) (Stream o)
    (fun timeout => onWorld (Sandbox_create o timeout))
    (fun h port => onWorld (sandbox_domain o h port))
    (sandbox_sandboxId o)
    (fun h cmd args => onWorld (sandbox_runCommand o h cmd args))
    (fun c w => let '(r, w') := cmd_logs o c (fst w) in (r, (w', snd w)))
    (fun c => onWorld (cmd_wait o c))
    (fun h path => onWorld (sandbox_readFile o h path))
    (fun h files w =>
       let '(r, w') := sandbox_writeFiles o h files (fst w) in
       (r, (w', snd w ++ [files])))
    (fun h => onWorld (sandbox_close o h))
    (fun stream => onWorld (streamToString o stream))
    (ignores o)
    (fun w dir => localTree o (fst w) dir)
    (fun path => onWorld (fs_readFile o path))
    (path_resolve o)
    (path_join o)
    (fun w => env_HOME o (fst w))
    (js_replace o)
    (fun message color w => (log o message color (fst w), snd w))
    (fun h => onWorld (installDevTools o h))
    (fun h dir => onWorld (copySandboxToLocal o h dir)).

(** The environment [e] with the batches [handed] on record. *)
Definition recorded (e : Env o) (handed : Handed) : Env recording :=
  Build_Env recording
    (Build_ModuleState recording (sandbox (vars e)) (sandboxDomain (vars e)))
    (world e, handed).

End Recording.

(** The fixture after [Sandbox.create]: handle 0. *)
Definition toyEnv : Env Fixture.toy :=
  Build_Env Fixture.toy
    (Build_ModuleState Fixture.toy (Some 0) None) Fixture.world0.

(** A prompt file saved with a byte order mark in front and a no-break
    space behind. *)
Definition markedPrompt : string :=
  String "239"%char (String "187"%char (String "191"%char
    ("Fix the login page"
       ++ String "194"%char (String "160"%char EmptyString)))).

(** * Properties of the sandbox module *)

(** Induction over a directory tree, with the hypothesis for every entry of
    a directory. *)
Section NodeInduction.

Variable P : Node -> Prop.
Hypothesis P_file : forall content, P (FileNode content).
Hypothesis P_dir :
  forall entries, Forall (fun e => P (snd e)) entries -> P (DirNode entries).
Hypothesis P_unreadable : forall gitignore, P (UnreadableDir gitignore).
Hypothesis P_other : forall content, P (OtherNode content).

Fixpoint Node_tree_ind (n : Node) : P n :=
  match n with
  | FileNode content => P_file content
  | DirNode entries =>
      P_dir entries
        ((fix all (es : list (string * Node))
            : Forall (fun e => P (snd e)) es :=
            match es with
            | [] => Forall_nil _
            | (name, child) :: rest =>
                Forall_cons (name, child) (Node_tree_ind child) (all rest)
            end) entries)
  | UnreadableDir gitignore => P_unreadable gitignore
  | OtherNode content => P_other content
  end.

End NodeInduction.

Section CollectFacts.

Variable ig : string -> Result bool.

Lemma collect_entry (entries : list (string * Node)) (prefix : string)
      (p c : string) :
  In (p, c) (CopyIn.collectFiles ig (DirNode entries) prefix) ->
  Exists (entryPassed ig prefix p c) entries.
Proof.
  cbn [CopyIn.collectFiles].
  induction entries as [| [name n] rest IH]; [intros [] |].
  assert (Hrest : forall H, Exists (entryPassed ig prefix p c) ((name, n) :: rest))
    by (intros H; apply Exists_cons_tl; exact (IH H)).
  destruct (CopyIn.shouldAlwaysSkip name (isDirectory n)) eqn:Hskip;
    [exact Hrest |].
  destruct (ig (if isDirectory n
                then (joinSandboxPath prefix name ++ "/")%string
                else joinSandboxPath prefix name)) as [[|] | err] eqn:Hig;
    [exact Hrest | | intros []].
  destruct n as [[content |] | sub | gitignore | linked];
    cbn [isDirectory] in *;
    try exact Hrest.
  - destruct (Z.of_nat (String.length content) <? 1024 * 1024)%Z eqn:Hsz;
      [| exact Hrest].
    intros [Heq | H]; [| exact (Hrest H)].
    inversion Heq; subst p c.
    apply Exists_cons_hd. split; [exact Hskip |].
    left. repeat split; try assumption. now apply Z.ltb_lt.
  - intros H. apply in_app_or in H. destruct H as [H | H];
      [| exact (Hrest H)].
    apply Exists_cons_hd. split; [exact Hskip |].
    right. now repeat split.
Qed.

End CollectFacts.

Lemma collect_sound (ig : string -> Result bool) (dir : Node) :
  forall prefix p c,
    In (p, c) (CopyIn.collectFiles ig dir prefix) ->
    exists dirs name,
      p = fold_left joinSandboxPath (dirs ++ [name]) prefix
      /\ reaches dir (dirs ++ [name]) (FileNode (Some c))
      /\ CopyIn.shouldAlwaysSkip name false = false
      /\ dirsPassed ig prefix dirs
      /\ ig p = Ok false
      /\ (Z.of_nat (String.length c) < 1024 * 1024)%Z.
Proof.
  induction dir as [content | entries IH | gitignore | content]
    using Node_tree_ind;
    intros prefix p c Hin; try contradiction.
  apply collect_entry in Hin. apply Exists_exists in Hin.
  destruct Hin as ([name n] & Hentry & Hskip & Hcase).
  destruct Hcase as [(-> & -> & Hig & Hsize) | (Hdir & Hig & Hsub)].
  - exists [], name. cbn [app fold_left isDirectory] in *.
    repeat split; try assumption.
    eapply reaches_down; [exact Hentry | constructor].
  - rewrite Forall_forall in IH. specialize (IH _ Hentry). cbn [snd] in IH.
    destruct (IH _ _ _ Hsub) as (dirs & leaf & -> & Hreach & Hleaf & Hdirs
                                 & Higp & Hsize).
    exists (name :: dirs), leaf. rewrite Hdir in Hskip.
    cbn [app fold_left dirsPassed]. repeat split; try assumption.
    eapply reaches_down; [exact Hentry | exact Hreach].
Qed.

Lemma skip_names (name : string) (isDir : bool) :
  CopyIn.shouldAlwaysSkip name isDir = false ->
  name <> ".env"
  /\ JsString.startsWith name ".env." = false
  /\ name <> ".DS_Store"
  /\ (isDir = true -> name <> "node_modules").
Proof.
  unfold CopyIn.shouldAlwaysSkip. intros H.
  destruct (String.eqb name ".env") eqn:He; [discriminate |].
  destruct (JsString.startsWith name ".env.") eqn:Hp; [discriminate |].
  destruct (String.eqb name ".DS_Store") eqn:Hd; [discriminate |].
  cbn [orb] in H.
  apply String.eqb_neq in He. apply String.eqb_neq in Hd.
  repeat split; try assumption.
  intros -> Hn. subst name. discriminate H.
Qed.

Lemma dirsPassed_no_node_modules (ig : string -> Result bool)
      (dirs : list string) :
  forall prefix, dirsPassed ig prefix dirs -> ~ In "node_modules" dirs.
Proof.
  induction dirs as [| d rest IH]; intros prefix Hpass Hin; [exact Hin |].
  destruct Hpass as (Hskip & _ & Hrest).
  destruct Hin as [-> | Hin]; [discriminate Hskip |].
  exact (IH _ Hrest Hin).
Qed.

Lemma batchesFrom_concat {A : Type} (files : list A) :
  forall fuel i,
    List.length files <= i + fuel ->
    List.concat (CopyIn.batchesFrom fuel i files) = skipn i files.
Proof.
  induction fuel as [| fuel IH]; intros i Hlen; cbn [CopyIn.batchesFrom].
  - rewrite skipn_all2 by lia. reflexivity.
  - destruct (i <? List.length files) eqn:Hlt.
    + cbn [List.concat]. rewrite IH by (unfold CopyIn.batchSize; lia).
      unfold CopyIn.slice.
      replace (i + CopyIn.batchSize - i) with CopyIn.batchSize by lia.
      rewrite Nat.add_comm, <- skipn_skipn.
      apply firstn_skipn.
    + apply Nat.ltb_ge in Hlt. rewrite skipn_all2 by lia. reflexivity.
Qed.

Lemma batches_concat {A : Type} (files : list A) :
  List.concat (CopyIn.batches files) = files.
Proof.
  unfold CopyIn.batches. rewrite batchesFrom_concat by lia. reflexivity.
Qed.

(** What the selection lets through: a collected file is a readable regular
    file of the tree, reached through directories none of which is named
    [node_modules], not named like a secret or a metadata file, not ignored
    (nor any directory above it), and shorter than 1 MiB. *)
Lemma filesToCopy_allowed
      (o : Outside) (root : Node) (path content : string) :
  In (path, content) (filesToCopy o root) ->
  exists dirs name,
    path = sandboxPathOf (dirs ++ [name])
    /\ reaches root (dirs ++ [name]) (FileNode (Some content))
    /\ name <> ".env"
    /\ JsString.startsWith name ".env." = false
    /\ name <> ".DS_Store"
    /\ ~ In "node_modules" dirs
    /\ ignores o (CopyIn.loadGitignore root) path = Ok false
    /\ dirsPassed (ignores o (CopyIn.loadGitignore root)) "" dirs
    /\ (Z.of_nat (String.length content) < 1048576)%Z.
Proof.
  intros Hin. apply collect_sound in Hin.
  destruct Hin as (dirs & name & Hpath & Hreach & Hskip & Hdirs & Hig & Hsize).
  destruct (skip_names _ _ Hskip) as (Henv & Hprefix & Hds & _).
  exists dirs, name. unfold sandboxPathOf.
  repeat split; try assumption.
  eapply dirsPassed_no_node_modules; exact Hdirs.
Qed.

(** A file of exactly 1 MiB is left out, whatever its name and whatever the
    matcher says. *)
Lemma exact_mebibyte_is_skipped
      (ig : string -> Result bool) (name content prefix : string) :
  Z.of_nat (String.length content) = 1048576%Z ->
  CopyIn.collectFiles ig (DirNode [(name, FileNode (Some content))]) prefix
  = [].
Proof.
  intros Hsize. cbn [CopyIn.collectFiles isDirectory].
  destruct (CopyIn.shouldAlwaysSkip name false); [reflexivity |].
  destruct (ig (joinSandboxPath prefix name)) as [[|] | err];
    try reflexivity.
  rewrite Hsize. reflexivity.
Qed.

(** On the fixture, what reaches [writeFiles] is the one batch of the files
    selected: the [.env] files, [.DS_Store], [node_modules], the ignored
    [dist] and the unreadable file are not among them. *)
Example copyLocalToSandbox_on_fixture :
  Fixture.written
    (world (snd (initializeSandbox Fixture.toy "/work" Fixture.env0)))
  = CopyIn.batches (filesToCopy Fixture.toy Fixture.tree)
  /\ map fst (filesToCopy Fixture.toy Fixture.tree)
     = [".gitignore"; "src/index.ts"; "README.md"].
Proof. split; reflexivity. Qed.

(** ** The module variables *)

Section ModuleFacts.

Variable o : Outside.

Lemma keepsVars_ret {A : Type} (a : A) : keepsVars (@ret o A a).
Proof. intros e. reflexivity. Qed.

Lemma keepsVars_throw {A : Type} (msg : string) :
  keepsVars (@throw o A msg).
Proof. intros e. reflexivity. Qed.

Lemma keepsVars_outside {A : Type} (f : W o -> Result A * W o) :
  keepsVars (outside f).
Proof. intros e. unfold outside. destruct (f (world e)). reflexivity. Qed.

Lemma keepsVars_say (message color : string) :
  keepsVars (@say o message color).
Proof. apply keepsVars_outside. Qed.

Lemma keepsVars_readVars : keepsVars (@readVars o).
Proof. intros e. reflexivity. Qed.

Lemma keepsVars_bind {A B : Type} (m : M o A) (k : A -> M o B) :
  keepsVars m -> (forall a, keepsVars (k a)) -> keepsVars (bind m k).
Proof.
  intros Hm Hk e. unfold bind. specialize (Hm e).
  destruct (m e) as [[a | err] e1]; cbn [snd] in *.
  - rewrite Hk. exact Hm.
  - exact Hm.
Qed.

Lemma keepsVars_sandboxBang (method : string) :
  keepsVars (sandboxBang o method).
Proof.
  intros e. unfold sandboxBang, bind, readVars.
  destruct (sandbox (vars e)); reflexivity.
Qed.

Lemma keepsVars_writeBatches (bs : list (list CopyIn.CopiedFile)) :
  keepsVars (writeBatches o bs).
Proof.
  induction bs as [| batch rest IH]; cbn [writeBatches].
  - apply keepsVars_ret.
  - apply keepsVars_bind; [apply keepsVars_sandboxBang | intros h].
    apply keepsVars_bind; [apply keepsVars_outside | intros _; exact IH].
Qed.

Lemma keepsVars_copyLocalToSandbox (localDir : string) :
  keepsVars (copyLocalToSandbox o localDir).
Proof.
  unfold copyLocalToSandbox.
  apply keepsVars_bind; [apply keepsVars_say | intros _].
  apply keepsVars_bind; [apply keepsVars_outside | intros root].
  destruct (0 <? List.length (filesToCopy o root)).
  - apply keepsVars_bind; [apply keepsVars_writeBatches | intros _].
    apply keepsVars_say.
  - apply keepsVars_say.
Qed.

End ModuleFacts.

Section HandleFacts.

Variable o : Outside.

Lemma bind_ok {A B : Type} (m : M o A) (k : A -> M o B) (e e1 : Env o)
      (a : A) :
  m e = (Ok a, e1) -> bind m k e = k a e1.
Proof. intros H. unfold bind. rewrite H. reflexivity. Qed.

Lemma bind_throw {A B : Type} (m : M o A) (k : A -> M o B) (e e1 : Env o)
      (err : string) :
  m e = (Throw err, e1) -> bind m k e = (Throw err, e1).
Proof. intros H. unfold bind. rewrite H. reflexivity. Qed.

Lemma keepsVars_keepsHandle {A : Type} (m : M o A) :
  keepsVars m -> keepsHandle m.
Proof. intros H e. rewrite H. reflexivity. Qed.

Lemma keepsHandle_bind {A B : Type} (m : M o A) (k : A -> M o B) :
  keepsHandle m -> (forall a, keepsHandle (k a)) -> keepsHandle (bind m k).
Proof.
  intros Hm Hk e. unfold bind. specialize (Hm e).
  destruct (m e) as [[a | err] e1]; cbn [snd] in *.
  - rewrite Hk. exact Hm.
  - exact Hm.
Qed.

Lemma keepsHandle_setSandboxDomain (d : option string) :
  keepsHandle (setSandboxDomain o d).
Proof. intros e. reflexivity. Qed.

(** What follows the assignment [sandbox = await Sandbox.create(...)] in
    [initializeSandbox] never assigns [sandbox] again. *)
Lemma keepsHandle_after_create (localDir : string) :
  keepsHandle
    (h' <- sandboxBang o "domain" ;;
     d <- outside (sandbox_domain o h' 3000%Z) ;;
     setSandboxDomain o (Some d) ;;;
     say ("  [+] Sandbox created (" ++ sandbox_sandboxId o h' ++ ")")%string
         "green" ;;;
     say ("      Dev server URL: " ++ d)%string "dim" ;;;
     copyLocalToSandbox o localDir ;;;
     h'' <- sandboxBang o "runCommand" ;;
     outside (installDevTools o h'')).
Proof.
  apply keepsHandle_bind;
    [apply keepsVars_keepsHandle, keepsVars_sandboxBang | intros h'].
  apply keepsHandle_bind;
    [apply keepsVars_keepsHandle, keepsVars_outside | intros d].
  apply keepsHandle_bind; [apply keepsHandle_setSandboxDomain | intros _].
  apply keepsVars_keepsHandle.
  apply keepsVars_bind; [apply keepsVars_say | intros _].
  apply keepsVars_bind; [apply keepsVars_say | intros _].
  apply keepsVars_bind; [apply keepsVars_copyLocalToSandbox | intros _].
  apply keepsVars_bind; [apply keepsVars_sandboxBang | intros h''].
  apply keepsVars_outside.
Qed.

End HandleFacts.

(** C6, as the code has it.  The sandbox handle is module-level state:
    once [Sandbox.create] has returned a handle, [initializeSandbox] has
    stored it in the module variable [sandbox], whatever was there before
    and whatever the rest of the call does, and [getSandbox] returns that
    handle to every caller. *)
Theorem initializeSandbox_stores_handle
        (o : Outside) (localDir : string) (e : Env o) (h : Handle o)
        (w1 : W o) :
  Sandbox_create o SANDBOX_TIMEOUT_MS
    (log o "  [-] Creating secure sandbox..." "cyan" (world e)) = (Ok h, w1) ->
  let e' := snd (initializeSandbox o localDir e) in
  sandbox (vars e') = Some h
  /\ getSandbox o e' = (Ok (Some h), e').
Proof.
  intros Hcreate e'.
  assert (Hvar : sandbox (vars e') = Some h).
  { subst e'. unfold initializeSandbox.
    rewrite (bind_ok o _ _ e
               {| vars := vars e;
                  world := log o "  [-] Creating secure sandbox..." "cyan"
                             (world e) |} tt) by reflexivity.
    rewrite (bind_ok o _ _ _ {| vars := vars e; world := w1 |} h)
      by (unfold outside; cbn [world vars]; rewrite Hcreate; reflexivity).
    rewrite (bind_ok o _ _ _
               {| vars := {| sandbox := Some h;
                             sandboxDomain := sandboxDomain (vars e) |};
                  world := w1 |} tt) by reflexivity.
    rewrite (keepsHandle_after_create o localDir). reflexivity. }
  split; [exact Hvar |].
  unfold getSandbox, bind, readVars, ret. rewrite Hvar. reflexivity.
Qed.

Lemma initializeSandbox_stores_handle_witness :
  sandbox (vars (snd (initializeSandbox Fixture.toy "/work" Fixture.env0)))
  = Some 0
  /\ getSandbox Fixture.toy
       (snd (initializeSandbox Fixture.toy "/work" Fixture.env0))
     = (Ok (Some 0),
        snd (initializeSandbox Fixture.toy "/work" Fixture.env0)).
Proof.
  apply (initializeSandbox_stores_handle Fixture.toy "/work" Fixture.env0 0
           {| Fixture.nextId := 1; Fixture.written := [];
              Fixture.console := ["  [-] Creating secure sandbox..."] |}).
  reflexivity.
Defined.

(** C6, counterexample.  Two provisioning calls on the module share the
    handle: after the second, [getSandbox] no longer returns the sandbox of
    the first caller. *)
Lemma sandbox_state_is_shared : ~ noSharedSandboxState Fixture.toy.
Proof.
  intros H. specialize (H "/work/a" "/work/b" Fixture.env0).
  vm_compute in H. discriminate H.
Qed.

(** ** [closeSandbox] and the guarded calls *)

Section CloseFacts.

Variable o : Outside.

(** A [try] whose handler returns never throws. *)
Lemma tryCatch_ret_ok (body : M o unit) (e : Env o) :
  fst (tryCatch body (ret tt) e) = Ok tt.
Proof.
  unfold tryCatch, ret. destruct (body e) as [[[] | err] e1]; reflexivity.
Qed.

Lemma keepsVars_tryCatch {A : Type} (body handler : M o A) :
  keepsVars body -> keepsVars handler -> keepsVars (tryCatch body handler).
Proof.
  intros Hb Hh e. unfold tryCatch. specialize (Hb e).
  destruct (body e) as [[a | err] e1]; cbn [snd] in *.
  - exact Hb.
  - rewrite Hh. exact Hb.
Qed.

(** The guarded body of [closeSandbox] leaves the module variables to the
    two assignments that follow it. *)
Lemma keepsVars_close_body (h : Handle o) (localDir : string) :
  keepsVars
    (tryCatch
       (outside (copySandboxToLocal o h localDir) ;;;
        h' <- sandboxBang o "close" ;;
        outside (sandbox_close o h') ;;;
        say "  [-] Sandbox closed" "dim")
       (ret tt)).
Proof.
  apply keepsVars_tryCatch; [| apply keepsVars_ret].
  apply keepsVars_bind; [apply keepsVars_outside | intros _].
  apply keepsVars_bind; [apply keepsVars_sandboxBang | intros h'].
  apply keepsVars_bind; [apply keepsVars_outside | intros _].
  apply keepsVars_say.
Qed.

Lemma closeSandbox_open (localDir : string) (e : Env o) (h : Handle o) :
  sandbox (vars e) = Some h ->
  fst (closeSandbox o localDir e) = Ok tt
  /\ vars (snd (closeSandbox o localDir e)) = initialState o.
Proof.
  intros Hopen. unfold closeSandbox.
  rewrite (bind_ok o _ _ e e (vars e)) by reflexivity.
  rewrite Hopen.
  set (body := tryCatch _ _).
  pose proof (tryCatch_ret_ok
                (outside (copySandboxToLocal o h localDir) ;;;
                 h' <- sandboxBang o "close" ;;
                 outside (sandbox_close o h') ;;;
                 say "  [-] Sandbox closed" "dim") e) as Hok.
  fold body in Hok.
  destruct (body e) as [r e1] eqn:Hbody. cbn [fst] in Hok. subst r.
  rewrite (bind_ok o _ _ e e1 tt Hbody).
  split; reflexivity.
Qed.

Lemma guarded_calls_throw (e : Env o) :
  sandbox (vars e) = None ->
  (forall command,
      runInSandbox o command e = (Throw "Sandbox not initialized", e))
  /\ (forall filePath,
         readFromSandbox o filePath e = (Throw "Sandbox not initialized", e))
  /\ (forall filePath content,
         writeToSandbox o filePath content e
         = (Throw "Sandbox not initialized", e)).
Proof.
  intros Hnone.
  repeat split; intros;
    unfold runInSandbox, readFromSandbox, writeToSandbox, bind, readVars;
    rewrite Hnone; reflexivity.
Qed.

End CloseFacts.

(** C9.  [closeSandbox] returns without throwing, whatever copying back or
    closing does.  If a sandbox exists, both module variables are [null]
    afterwards: [getSandbox] and [getSandboxDomain] return [null], and
    [runInSandbox], [readFromSandbox] and [writeToSandbox] throw 'Sandbox
    not initialized'.  If none exists, nothing changes. *)
Theorem closeSandbox_never_throws_and_clears
        (o : Outside) (localDir : string) (e : Env o) :
  let e' := snd (closeSandbox o localDir e) in
  fst (closeSandbox o localDir e) = Ok tt
  /\ match sandbox (vars e) with
     | Some _ =>
         vars e' = initialState o
         /\ getSandbox o e' = (Ok None, e')
         /\ getSandboxDomain o e' = (Ok None, e')
         /\ (forall command,
                runInSandbox o command e'
                = (Throw "Sandbox not initialized", e'))
         /\ (forall filePath,
                readFromSandbox o filePath e'
                = (Throw "Sandbox not initialized", e'))
         /\ (forall filePath content,
                writeToSandbox o filePath content e'
                = (Throw "Sandbox not initialized", e'))
     | None => e' = e
     end.
Proof.
  intros e'. subst e'.
  destruct (sandbox (vars e)) as [h |] eqn:Hopen.
  - destruct (closeSandbox_open o localDir e h Hopen) as [Hok Hvars].
    split; [exact Hok |].
    set (e' := snd (closeSandbox o localDir e)) in *.
    assert (Hnone : sandbox (vars e') = None) by (rewrite Hvars; reflexivity).
    destruct (guarded_calls_throw o e' Hnone) as (Hrun & Hread & Hwrite).
    split; [exact Hvars |].
    repeat split; try assumption;
      unfold getSandbox, getSandboxDomain, bind, readVars, ret;
      rewrite Hvars; reflexivity.
  - unfold closeSandbox.
    rewrite (bind_ok o _ _ e e (vars e)) by reflexivity.
    rewrite Hopen. split; reflexivity.
Qed.

(** On the fixture both the copy back and the close throw; the call still
    returns, and the module is cleared. *)
Example closeSandbox_on_fixture :
  let e1 := snd (initializeSandbox Fixture.toy "/work" Fixture.env0) in
  let r := closeSandbox Fixture.toy "/work" e1 in
  sandbox (vars e1) = Some 0
  /\ fst r = Ok tt
  /\ vars (snd r) = initialState Fixture.toy
  /\ fst (runInSandbox Fixture.toy "ls" (snd r))
     = Throw "Sandbox not initialized".
Proof. vm_compute. repeat split. Qed.

(** ** [getTaskPrompt] *)

Lemma endsWith_md_truthy (arg : string) :
  JsString.endsWith arg ".md" = true -> JsString.truthy arg = true.
Proof. destruct arg; [discriminate | reflexivity]. Qed.

(** C10.  [getTaskPrompt] never throws.  For an argument that ends in
    [.md] and whose file cannot be read, it returns the argument itself as
    the prompt, with source 'CLI argument'.  Without an argument, and with a
    [PROMPT.md] that exists but is empty, it returns [needsInterview]. *)
Theorem getTaskPrompt_fallbacks (o : Outside) :
  (forall promptArg localDir e,
      exists v e', getTaskPrompt o promptArg localDir e = (Ok v, e'))
  /\ (forall arg localDir e err w',
         JsString.endsWith arg ".md" = true ->
         fs_readFile o (promptPathOf o (env_HOME o (world e)) arg) (world e)
         = (Throw err, w') ->
         getTaskPrompt o (Some arg) localDir e
         = (Ok (PromptFrom arg "CLI argument"),
            {| vars := vars e; world := w' |}))
  /\ (forall localDir e w',
         fs_readFile o (path_join o localDir "PROMPT.md") (world e)
         = (Ok "", w') ->
         getTaskPrompt o None localDir e
         = (Ok NeedsInterview, {| vars := vars e; world := w' |})).
Proof.
  assert (Hfile : forall localDir e,
             exists v e', promptFromFile o localDir e = (Ok v, e')).
  { intros localDir e. unfold promptFromFile, bind, tryCatch, outside, ret.
    destruct (fs_readFile o (path_join o localDir "PROMPT.md") (world e))
      as [[content | err] w1]; cbn.
    - destruct (JsString.truthy content); cbn; eauto.
    - eauto. }
  split; [| split].
  - intros [arg |] localDir e; cbn [getTaskPrompt]; [| apply Hfile].
    destruct (JsString.truthy arg); [| apply Hfile].
    destruct (JsString.endsWith arg ".md"); [| unfold ret; eauto].
    unfold bind, tryCatch, outside, ret. cbn.
    destruct (fs_readFile o _ (world e)) as [[content | err] w1]; cbn; eauto.
  - intros arg localDir e err w' Hmd Hread. cbn [getTaskPrompt].
    rewrite (endsWith_md_truthy arg Hmd), Hmd.
    unfold bind, tryCatch, outside, ret. cbn.
    rewrite Hread. reflexivity.
  - intros localDir e w' Hread. cbn [getTaskPrompt].
    unfold promptFromFile, bind, tryCatch, outside, ret.
    rewrite Hread. reflexivity.
Qed.

Lemma getTaskPrompt_fallbacks_witness :
  getTaskPrompt Fixture.toy (Some "plan.md") "/work" Fixture.env0
  = (Ok (PromptFrom "plan.md" "CLI argument"), Fixture.env0)
  /\ getTaskPrompt Fixture.toy None "/work" Fixture.env0
     = (Ok NeedsInterview, Fixture.env0).
Proof.
  destruct (getTaskPrompt_fallbacks Fixture.toy) as (_ & Hmd & Hempty).
  split.
  - apply (Hmd "plan.md" "/work" Fixture.env0 "ENOENT" Fixture.world0);
      reflexivity.
  - apply (Hempty "/work" Fixture.env0 Fixture.world0). reflexivity.
Defined.

(** * More of the sandbox module

    What [sandbox.ts] does beyond the properties above: which files the
    walk does collect, how a throwing matcher cuts a directory short, the
    shape of the batches, the scope of nested [.gitignore] files, and the
    failure paths of the module's functions. *)

(** ** Strings *)

Lemma append_assoc (a b c : string) :
  ((a ++ b) ++ c)%string = (a ++ b ++ c)%string.
Proof. induction a as [| ch a IH]; cbn; [reflexivity | now rewrite IH]. Qed.

Lemma append_empty_r (a : string) : (a ++ "")%string = a.
Proof. induction a as [| ch a IH]; cbn; [reflexivity | now rewrite IH]. Qed.

Lemma prefix_append (p r : string) : String.prefix p (p ++ r) = true.
Proof.
  induction p as [| ch p IH]; cbn.
  - destruct r; reflexivity.
  - destruct (ascii_dec ch ch) as [_ | Hne]; [exact IH | contradiction].
Qed.

Lemma prefix_split (p s : string) :
  String.prefix p s = true -> exists r, s = (p ++ r)%string.
Proof.
  revert s. induction p as [| ch p IH]; intros s H.
  - exists s. reflexivity.
  - destruct s as [| ch' s]; [discriminate H |].
    cbn in H. destruct (ascii_dec ch ch') as [<- | _]; [| discriminate H].
    destruct (IH s H) as [r ->]. exists r. reflexivity.
Qed.

(** ** The walk of [collectFiles] *)

Section WalkFacts.

Variable ig : string -> Result bool.

(** A matcher that answers on every path. *)
Hypothesis Hanswers : forall p, exists b, ig p = Ok b.

Lemma collect_entry_conv (entries : list (string * Node)) (prefix : string)
      (p c : string) :
  Exists (entryPassed ig prefix p c) entries ->
  In (p, c) (CopyIn.collectFiles ig (DirNode entries) prefix).
Proof.
  cbn [CopyIn.collectFiles].
  induction entries as [| [name n] rest IH]; intros Hex;
    [inversion Hex |].
  apply Exists_cons in Hex. unfold entryPassed at 1 in Hex.
  destruct (CopyIn.shouldAlwaysSkip name (isDirectory n)) eqn:Hskip.
  - destruct Hex as [[Hno _] | Hlater]; [discriminate Hno | exact (IH Hlater)].
  - destruct (Hanswers (if isDirectory n
                        then (joinSandboxPath prefix name ++ "/")%string
                        else joinSandboxPath prefix name)) as [b Hb].
    rewrite Hb.
    destruct Hex as [[_ Hhere] | Hlater].
    + destruct Hhere as [(-> & -> & Hig & Hsize) | (Hdir & Hig & Hsub)].
      * cbn [isDirectory] in Hb. rewrite Hig in Hb. inversion Hb; subst b.
        apply Z.ltb_lt in Hsize. rewrite Hsize. left. reflexivity.
      * rewrite Hdir in Hb. rewrite Hig in Hb. inversion Hb; subst b.
        destruct n as [content | sub | |]; try discriminate Hdir;
          apply in_or_app; left; exact Hsub.
    + destruct b; [exact (IH Hlater) |].
      destruct n as [[content |] | sub | |]; try exact (IH Hlater).
      * destruct (Z.of_nat (String.length content) <? 1024 * 1024)%Z;
          [right |]; exact (IH Hlater).
      * apply in_or_app; right; exact (IH Hlater).
Qed.

End WalkFacts.



(** A path the matcher rejects by throwing cuts the walk of its directory
    short: the entry and everything listed after it in that directory are
    left out without an error, and what was listed before it is collected as
    if the directory ended there. *)
Theorem collectFiles_matcher_throws
        (ig : string -> Result bool) (pre rest : list (string * Node))
        (name : string) (n : Node) (prefix e : string) :
  CopyIn.shouldAlwaysSkip name (isDirectory n) = false ->
  ig (if isDirectory n then (joinSandboxPath prefix name ++ "/")%string
      else joinSandboxPath prefix name) = Throw e ->
  CopyIn.collectFiles ig (DirNode (pre ++ (name, n) :: rest)) prefix
  = CopyIn.collectFiles ig (DirNode pre) prefix.
Proof.
  intros Hskip Hthrow. cbn [CopyIn.collectFiles].
  induction pre as [| [name0 n0] pre IH]; cbn [app].
  - rewrite Hskip, Hthrow. reflexivity.
  - destruct (CopyIn.shouldAlwaysSkip name0 (isDirectory n0));
      [exact IH |].
    destruct (ig (if isDirectory n0
                  then (joinSandboxPath prefix name0 ++ "/")%string
                  else joinSandboxPath prefix name0)) as [[|] | e0];
      [exact IH | | reflexivity].
    destruct n0 as [[content |] | sub | |]; try exact IH.
    + destruct (Z.of_nat (String.length content) <? 1024 * 1024)%Z;
        [f_equal |]; exact IH.
    + f_equal. exact IH.
Qed.

Lemma collectFiles_matcher_throws_witness :
  CopyIn.collectFiles
    (Fixture.toyIgnores [])
    (DirNode [("a.txt", FileNode (Some "a")); ("...", FileNode (Some "dots"));
              ("b.txt", FileNode (Some "b"))]) ""
  = CopyIn.collectFiles
      (Fixture.toyIgnores []) (DirNode [("a.txt", FileNode (Some "a"))]) "".
Proof.
  apply (collectFiles_matcher_throws
           (Fixture.toyIgnores []) [("a.txt", FileNode (Some "a"))]
           [("b.txt", FileNode (Some "b"))] "..." (FileNode (Some "dots"))
           "" "RangeError: path should be relative");
    reflexivity.
Defined.

(** ** The batches written *)

Lemma batchesFrom_sizes {A : Type} (files : list A) :
  forall fuel i,
    Forall (fun b => 1 <= List.length b <= CopyIn.batchSize)
           (CopyIn.batchesFrom fuel i files).
Proof.
  induction fuel as [| fuel IH]; intros i; cbn [CopyIn.batchesFrom];
    [constructor |].
  destruct (i <? List.length files) eqn:Hlt; [| constructor].
  apply Nat.ltb_lt in Hlt. constructor; [| apply IH].
  unfold CopyIn.slice. rewrite length_firstn, length_skipn.
  unfold CopyIn.batchSize. lia.
Qed.

Lemma batchesFrom_count {A : Type} (files : list A) :
  forall fuel i,
    List.length files <= i + fuel ->
    List.length (CopyIn.batchesFrom fuel i files)
    = (List.length files - i + 49) / 50.
Proof.
  induction fuel as [| fuel IH]; intros i Hfuel; cbn [CopyIn.batchesFrom].
  - replace (List.length files - i) with 0 by lia. reflexivity.
  - destruct (i <? List.length files) eqn:Hlt.
    + apply Nat.ltb_lt in Hlt. cbn [List.length].
      rewrite IH by (unfold CopyIn.batchSize; lia).
      unfold CopyIn.batchSize.
      destruct (Nat.le_gt_cases 50 (List.length files - i)) as [Hbig | Hsmall].
      * replace (List.length files - i + 49)
          with ((List.length files - (i + 50) + 49) + 1 * 50) by lia.
        rewrite Nat.div_add by lia. lia.
      * replace (List.length files - (i + 50)) with 0 by lia.
        change ((0 + 49) / 50) with 0.
        apply (Nat.div_unique _ 50 1 (List.length files - i - 1)); lia.
    + apply Nat.ltb_ge in Hlt.
      replace (List.length files - i) with 0 by lia. reflexivity.
Qed.

(** The batches, put end to end, are the list of files; no batch is empty
    or holds more than 50 files; and [n] files make [ceil (n / 50)]
    batches. *)
Lemma batches_shape {A : Type} (files : list A) :
  List.concat (CopyIn.batches files) = files
  /\ Forall (fun b => 1 <= List.length b <= 50) (CopyIn.batches files)
  /\ List.length (CopyIn.batches files) = (List.length files + 49) / 50.
Proof.
  split; [apply batches_concat |]. split.
  - apply batchesFrom_sizes.
  - unfold CopyIn.batches. rewrite batchesFrom_count by lia.
    rewrite Nat.sub_0_r. reflexivity.
Qed.

(** ** The patterns of nested [.gitignore] files *)

Lemma prefixPattern_scoped (prefix line : string) :
  JsString.truthy prefix = true ->
  JsString.startsWith (CopyIn.prefixPattern prefix line) (prefix ++ "/") = true
  \/ JsString.startsWith (CopyIn.prefixPattern prefix line)
                         ("!" ++ prefix ++ "/") = true.
Proof.
  intros Htruthy. unfold CopyIn.prefixPattern, JsString.startsWith.
  rewrite Htruthy. destruct (String.prefix "!" line).
  - right.
    replace ("!" ++ prefix ++ "/" ++ JsString.slice1 line)%string
      with (("!" ++ prefix ++ "/") ++ JsString.slice1 line)%string
      by (cbn [String.append]; rewrite append_assoc; reflexivity).
    apply prefix_append.
  - left. rewrite <- append_assoc. apply prefix_append.
Qed.

Lemma startsWith_deeper (pat outer inner : string) :
  JsString.startsWith pat (outer ++ "/" ++ inner ++ "/") = true ->
  JsString.startsWith pat (outer ++ "/") = true.
Proof.
  unfold JsString.startsWith. intros H.
  destruct (prefix_split _ _ H) as [r ->].
  replace ((outer ++ "/" ++ inner ++ "/") ++ r)%string
    with ((outer ++ "/") ++ (inner ++ "/") ++ r)%string
    by (rewrite !append_assoc; reflexivity).
  apply prefix_append.
Qed.

Lemma patternsOf_scoped (prefix : string) (gitignore : option string)
      (pat : string) :
  JsString.truthy prefix = true ->
  In pat (CopyIn.patternsOf prefix gitignore) ->
  JsString.startsWith pat (prefix ++ "/") = true
  \/ JsString.startsWith pat ("!" ++ prefix ++ "/") = true.
Proof.
  intros Htruthy Hin. destruct gitignore as [content |]; [| contradiction].
  apply in_map_iff in Hin. destruct Hin as (line & <- & _).
  apply prefixPattern_scoped. exact Htruthy.
Qed.

(** A nested [.gitignore] only speaks about its own directory: every
    pattern loaded from the directory at a non-empty sandbox path [prefix],
    or from a directory below it, starts with [prefix/], or with [!prefix/]
    when it is a negation. *)
Theorem nested_patterns_are_scoped (dir : Node) :
  forall prefix pat,
    JsString.truthy prefix = true ->
    In pat (CopyIn.loadFromDir dir prefix) ->
    JsString.startsWith pat (prefix ++ "/") = true
    \/ JsString.startsWith pat ("!" ++ prefix ++ "/") = true.
Proof.
  induction dir as [content | entries IH | gitignore | content]
    using Node_tree_ind;
    intros prefix pat Htruthy Hin; try contradiction;
    [| exact (patternsOf_scoped prefix gitignore pat Htruthy Hin)].
  cbn [CopyIn.loadFromDir] in Hin. apply in_app_or in Hin.
  destruct Hin as [Hown | Hsub].
  - exact (patternsOf_scoped prefix _ pat Htruthy Hown).
  - induction entries as [| [name n] rest IHrest]; [contradiction |].
    inversion IH as [| e l Hn Hrest]; subst. cbn [snd] in Hn.
    destruct (isDirectory n && negb (String.eqb name ".git")
              && negb (String.eqb name "node_modules"));
      [| exact (IHrest Hrest Hsub)].
    apply in_app_or in Hsub. destruct Hsub as [Hhere | Hlater];
      [| exact (IHrest Hrest Hlater)].
    assert (Hjoin : joinSandboxPath prefix name
                    = (prefix ++ "/" ++ name)%string)
      by (unfold joinSandboxPath; rewrite Htruthy; reflexivity).
    rewrite Hjoin in Hhere.
    assert (Htruthy' : JsString.truthy (prefix ++ "/" ++ name) = true)
      by (destruct prefix; [discriminate Htruthy | reflexivity]).
    destruct (Hn _ _ Htruthy' Hhere) as [H | H].
    + left. apply (startsWith_deeper pat prefix name).
      rewrite !append_assoc in H. exact H.
    + right. apply (startsWith_deeper pat ("!" ++ prefix) name).
      cbn [String.append] in *. rewrite ?append_assoc in H.
      rewrite ?append_assoc. exact H.
Qed.

Lemma nested_patterns_are_scoped_witness :
  In "!src/keep.log"
     (CopyIn.loadFromDir
        (DirNode [(".gitignore", FileNode (Some "*.log
!keep.log"))]) "src")
  /\ (JsString.startsWith "!src/keep.log" ("src" ++ "/") = true
      \/ JsString.startsWith "!src/keep.log" ("!" ++ "src" ++ "/") = true).
Proof.
  split; [right; left; reflexivity |].
  apply (nested_patterns_are_scoped
           (DirNode [(".gitignore", FileNode (Some "*.log
!keep.log"))]) "src" "!src/keep.log").
  - reflexivity.
  - right. left. reflexivity.
Defined.

(** What lies inside a directory named [.git] or [node_modules] has no say
    in the patterns loaded: the [.gitignore] files in there are never
    read. *)
Theorem vendor_gitignore_not_loaded
        (pre post : list (string * Node)) (name : string) (n1 n2 : Node)
        (prefix : string) :
  name = ".git" \/ name = "node_modules" ->
  CopyIn.loadFromDir (DirNode (pre ++ (name, n1) :: post)) prefix
  = CopyIn.loadFromDir (DirNode (pre ++ (name, n2) :: post)) prefix.
Proof.
  intros Hname. cbn [CopyIn.loadFromDir].
  assert (Hnot : String.eqb name ".gitignore" = false)
    by (destruct Hname as [-> | ->]; reflexivity).
  assert (Hvendor : forall n,
             isDirectory n && negb (String.eqb name ".git")
             && negb (String.eqb name "node_modules") = false)
    by (intros n; destruct Hname as [-> | ->]; destruct (isDirectory n);
        reflexivity).
  f_equal.
  - unfold CopyIn.readFileIn.
    replace (CopyIn.lookupEntry ".gitignore" (pre ++ (name, n1) :: post))
      with (CopyIn.lookupEntry ".gitignore" (pre ++ (name, n2) :: post));
      [reflexivity |].
    induction pre as [| [name0 n0] pre IH]; cbn [app CopyIn.lookupEntry].
    + rewrite Hnot. reflexivity.
    + destruct (String.eqb name0 ".gitignore"); [reflexivity | exact IH].
  - induction pre as [| [name0 n0] pre IH]; cbn [app].
    + rewrite !Hvendor. reflexivity.
    + destruct (isDirectory n0 && negb (String.eqb name0 ".git")
                && negb (String.eqb name0 "node_modules"));
        [f_equal |]; exact IH.
Qed.

Lemma vendor_gitignore_not_loaded_witness :
  CopyIn.loadFromDir
    (DirNode [("node_modules",
               DirNode [(".gitignore", FileNode (Some "secret"))]);
              ("src", DirNode [])]) ""
  = CopyIn.loadFromDir
      (DirNode [("node_modules", DirNode []); ("src", DirNode [])]) "".
Proof.
  apply (vendor_gitignore_not_loaded
           [] [("src", DirNode [])] "node_modules"
           (DirNode [(".gitignore", FileNode (Some "secret"))]) (DirNode [])
           "").
  right. reflexivity.
Defined.

(** ** Running a command *)

Lemma gather_from (which : string) (entries : list LogEntry) :
  forall acc,
    fold_left
      (fun acc entry =>
         if String.eqb (stream entry) which then (acc ++ data entry)%string
         else acc)
      entries acc
    = (acc ++ fold_right String.append ""
                 (map data
                      (filter (fun entry => String.eqb (stream entry) which)
                              entries)))%string.
Proof.
  induction entries as [| entry entries IH]; intros acc; cbn [fold_left].
  - cbn. symmetry. apply append_empty_r.
  - rewrite IH. cbn [filter].
    destruct (String.eqb (stream entry) which); [| reflexivity].
    cbn [map fold_right]. apply append_assoc.
Qed.

(** [runInSandbox] on an initialized module returns what the command
    printed and its exit code, and throws only if starting the command or
    waiting for it does: [stdout] is the data of the log entries of stream
    [stdout], in order (likewise [stderr]; entries of other streams are
    dropped), whatever error ended the log, and a non-zero exit code is a
    result, not an error. *)
Theorem runInSandbox_returns_output
        (o : Outside) (command : string) (e : Env o) (h : Handle o)
        (cmd : Cmd o) (entries : list LogEntry) (failure : option string)
        (code : Z) (w1 w2 w3 : W o) :
  sandbox (vars e) = Some h ->
  sandbox_runCommand o h "sh" ["-c"; command] (world e) = (Ok cmd, w1) ->
  cmd_logs o cmd w1 = ((entries, failure), w2) ->
  cmd_wait o cmd w2 = (Ok code, w3) ->
  runInSandbox o command e
  = (Ok {| stdout :=
             fold_right String.append ""
               (map data (filter (fun entry => String.eqb (stream entry) "stdout")
                                 entries));
           stderr :=
             fold_right String.append ""
               (map data (filter (fun entry => String.eqb (stream entry) "stderr")
                                 entries));
           exitCode := code |},
     {| vars := vars e; world := w3 |}).
Proof.
  intros Hopen Hrun Hlogs Hwait.
  unfold runInSandbox, bind, readVars, outside, ret, gather.
  rewrite Hopen. cbn [world vars]. rewrite Hrun. cbn [world vars].
  rewrite Hlogs. cbn [world vars]. rewrite Hwait.
  rewrite !gather_from. reflexivity.
Qed.

Lemma runInSandbox_returns_output_witness :
  runInSandbox Fixture.toy "ls"
    (snd (initializeSandbox Fixture.toy "/work" Fixture.env0))
  = (Ok {| stdout := "-c ls"; stderr := ""; exitCode := 0 |},
     snd (initializeSandbox Fixture.toy "/work" Fixture.env0)).
Proof.
  eapply (runInSandbox_returns_output
           Fixture.toy "ls"
           (snd (initializeSandbox Fixture.toy "/work" Fixture.env0))
           0 "-c ls" [{| stream := "stdout"; data := "-c ls" |}] None 0%Z);
    reflexivity.
Defined.

(** ** The life cycle of the sandbox handle *)

(** What [closeSandbox] leaves behind when a sandbox exists: the module
    variables are cleared in every case; if copying the files back throws,
    [close] is not attempted (the world is the one the failed copy left);
    if [close] throws, the 'Sandbox closed' line is not logged. *)
Theorem closeSandbox_effects
        (o : Outside) (localDir : string) (e : Env o) (h : Handle o) :
  sandbox (vars e) = Some h ->
  closeSandbox o localDir e
  = (Ok tt,
     {| vars := initialState o;
        world :=
          match copySandboxToLocal o h localDir (world e) with
          | (Throw _, w1) => w1
          | (Ok _, w1) =>
              match sandbox_close o h w1 with
              | (Throw _, w2) => w2
              | (Ok _, w2) => log o "  [-] Sandbox closed" "dim" w2
              end
          end |}).
Proof.
  intros Hopen.
  unfold closeSandbox, setSandbox, setSandboxDomain, tryCatch, sandboxBang,
    say, bind, readVars, writeVars, outside, ret.
  rewrite Hopen. cbn [world vars].
  destruct (copySandboxToLocal o h localDir (world e)) as [[[] | err] w1];
    cbn [world vars sandbox sandboxDomain]; [| reflexivity].
  rewrite Hopen. cbn [world vars].
  destruct (sandbox_close o h w1) as [[[] | err] w2]; reflexivity.
Qed.

Lemma closeSandbox_effects_witness :
  closeSandbox Fixture.toy "/work"
    (snd (initializeSandbox Fixture.toy "/work" Fixture.env0))
  = (Ok tt,
     {| vars := initialState Fixture.toy;
        world := world (snd (initializeSandbox Fixture.toy "/work"
                                               Fixture.env0)) |}).
Proof.
  apply (closeSandbox_effects
           Fixture.toy "/work"
           (snd (initializeSandbox Fixture.toy "/work" Fixture.env0)) 0).
  reflexivity.
Defined.

(** Closing twice is safe: the second [closeSandbox] finds no sandbox and
    does nothing, whatever the first one met. *)
Theorem closeSandbox_twice
        (o : Outside) (dir1 dir2 : string) (e : Env o) :
  closeSandbox o dir2 (snd (closeSandbox o dir1 e))
  = (Ok tt, snd (closeSandbox o dir1 e)).
Proof.
  assert (Hclosed : sandbox (vars (snd (closeSandbox o dir1 e))) = None).
  { destruct (sandbox (vars e)) as [h |] eqn:Hopen.
    - destruct (closeSandbox_open o dir1 e h Hopen) as [_ Hvars].
      rewrite Hvars. reflexivity.
    - unfold closeSandbox at 1.
      rewrite (bind_ok o _ _ e e (vars e)) by reflexivity.
      rewrite Hopen. exact Hopen. }
  set (e1 := snd (closeSandbox o dir1 e)) in *.
  unfold closeSandbox.
  rewrite (bind_ok o _ _ e1 e1 (vars e1)) by reflexivity.
  rewrite Hclosed. reflexivity.
Qed.

(** The ways [initializeSandbox] can stop early.  If [Sandbox.create]
    throws, the error propagates and the module variables keep what they
    held.  If [sandbox.domain(3000)] throws, the error propagates with the
    new handle already stored next to the domain of the previous sandbox, if
    there was one.  Once both have returned, the module holds the new handle
    and its domain, whatever copying the files or installing the tools
    does. *)
Theorem initializeSandbox_outcomes
        (o : Outside) (localDir : string) (e : Env o) :
  (forall err w1,
      Sandbox_create o SANDBOX_TIMEOUT_MS
        (log o "  [-] Creating secure sandbox..." "cyan" (world e))
      = (Throw err, w1) ->
      initializeSandbox o localDir e
      = (Throw err, {| vars := vars e; world := w1 |}))
  /\ (forall h w1 err w2,
         Sandbox_create o SANDBOX_TIMEOUT_MS
           (log o "  [-] Creating secure sandbox..." "cyan" (world e))
         = (Ok h, w1) ->
         sandbox_domain o h 3000%Z w1 = (Throw err, w2) ->
         initializeSandbox o localDir e
         = (Throw err,
            {| vars := {| sandbox := Some h;
                          sandboxDomain := sandboxDomain (vars e) |};
               world := w2 |}))
  /\ (forall h w1 d w2,
         Sandbox_create o SANDBOX_TIMEOUT_MS
           (log o "  [-] Creating secure sandbox..." "cyan" (world e))
         = (Ok h, w1) ->
         sandbox_domain o h 3000%Z w1 = (Ok d, w2) ->
         vars (snd (initializeSandbox o localDir e))
         = {| sandbox := Some h; sandboxDomain := Some d |}).
Proof.
  split; [| split].
  - intros err w1 Hcreate.
    unfold initializeSandbox, say, bind, outside. cbn [world vars].
    rewrite Hcreate. reflexivity.
  - intros h w1 err w2 Hcreate Hdomain.
    unfold initializeSandbox, setSandbox, sandboxBang, say, bind, readVars,
      writeVars, outside, ret. cbn [world vars sandbox].
    rewrite Hcreate. cbn [world vars sandbox]. rewrite Hdomain. reflexivity.
  - intros h w1 d w2 Hcreate Hdomain.
    unfold initializeSandbox.
    rewrite (bind_ok o _ _ e
               {| vars := vars e;
                  world := log o "  [-] Creating secure sandbox..." "cyan"
                             (world e) |} tt) by reflexivity.
    rewrite (bind_ok o _ _ _ {| vars := vars e; world := w1 |} h)
      by (unfold outside; cbn [world vars]; rewrite Hcreate; reflexivity).
    rewrite (bind_ok o _ _ _
               {| vars := {| sandbox := Some h;
                             sandboxDomain := sandboxDomain (vars e) |};
                  world := w1 |} tt) by reflexivity.
    rewrite (bind_ok o _ _ _
               {| vars := {| sandbox := Some h;
                             sandboxDomain := sandboxDomain (vars e) |};
                  world := w1 |} h) by reflexivity.
    rewrite (bind_ok o _ _ _
               {| vars := {| sandbox := Some h;
                             sandboxDomain := sandboxDomain (vars e) |};
                  world := w2 |} d)
      by (unfold outside; cbn [world vars]; rewrite Hdomain; reflexivity).
    rewrite (bind_ok o _ _ _
               {| vars := {| sandbox := Some h; sandboxDomain := Some d |};
                  world := w2 |} tt) by reflexivity.
    assert (Hkeeps : keepsVars
              (say ("  [+] Sandbox created (" ++ sandbox_sandboxId o h ++ ")")
                   "green" ;;;
               say ("      Dev server URL: " ++ d) "dim" ;;;
               copyLocalToSandbox o localDir ;;;
               h'' <- sandboxBang o "runCommand" ;;
               outside (installDevTools o h''))).
    { apply keepsVars_bind; [apply keepsVars_say | intros _].
      apply keepsVars_bind; [apply keepsVars_say | intros _].
      apply keepsVars_bind; [apply keepsVars_copyLocalToSandbox | intros _].
      apply keepsVars_bind; [apply keepsVars_sandboxBang | intros h''].
      apply keepsVars_outside. }
    rewrite Hkeeps. reflexivity.
Qed.

Lemma initializeSandbox_outcomes_witness :
  vars (snd (initializeSandbox Fixture.toy "/work" Fixture.env0))
  = Build_ModuleState Fixture.toy (Some 0) (Some "sb-0").
Proof.
  eapply (proj2 (proj2 (initializeSandbox_outcomes Fixture.toy "/work"
                          Fixture.env0)));
    reflexivity.
Defined.

(** Provisioning and then closing leaves the module as it was before any
    sandbox existed: once [Sandbox.create] has returned, whatever else
    [initializeSandbox] met, a [closeSandbox] that follows returns, both
    variables are [null] again, and running a command throws 'Sandbox not
    initialized'. *)
Theorem initialize_then_close_resets
        (o : Outside) (dirA dirB command : string) (e : Env o)
        (h : Handle o) (w1 : W o) :
  Sandbox_create o SANDBOX_TIMEOUT_MS
    (log o "  [-] Creating secure sandbox..." "cyan" (world e)) = (Ok h, w1) ->
  let e1 := snd (initializeSandbox o dirA e) in
  let e2 := snd (closeSandbox o dirB e1) in
  fst (closeSandbox o dirB e1) = Ok tt
  /\ vars e2 = initialState o
  /\ runInSandbox o command e2 = (Throw "Sandbox not initialized", e2).
Proof.
  intros Hcreate e1 e2.
  assert (Hopen : sandbox (vars e1) = Some h).
  { subst e1. unfold initializeSandbox.
    rewrite (bind_ok o _ _ e
               {| vars := vars e;
                  world := log o "  [-] Creating secure sandbox..." "cyan"
                             (world e) |} tt) by reflexivity.
    rewrite (bind_ok o _ _ _ {| vars := vars e; world := w1 |} h)
      by (unfold outside; cbn [world vars]; rewrite Hcreate; reflexivity).
    rewrite (bind_ok o _ _ _
               {| vars := {| sandbox := Some h;
                             sandboxDomain := sandboxDomain (vars e) |};
                  world := w1 |} tt) by reflexivity.
    rewrite (keepsHandle_after_create o dirA). reflexivity. }
  destruct (closeSandbox_open o dirB e1 h Hopen) as [Hok Hvars].
  split; [exact Hok |]. split; [exact Hvars |].
  apply guarded_calls_throw. subst e2. rewrite Hvars. reflexivity.
Qed.

Lemma initialize_then_close_resets_witness :
  fst (closeSandbox Fixture.toy "/work"
         (snd (initializeSandbox Fixture.toy "/work" Fixture.env0))) = Ok tt
  /\ vars (snd (closeSandbox Fixture.toy "/work"
                  (snd (initializeSandbox Fixture.toy "/work" Fixture.env0))))
     = initialState Fixture.toy
  /\ runInSandbox Fixture.toy "ls"
       (snd (closeSandbox Fixture.toy "/work"
               (snd (initializeSandbox Fixture.toy "/work" Fixture.env0))))
     = (Throw "Sandbox not initialized",
        snd (closeSandbox Fixture.toy "/work"
               (snd (initializeSandbox Fixture.toy "/work" Fixture.env0)))).
Proof.
  eapply (initialize_then_close_resets Fixture.toy "/work" "/work" "ls"
            Fixture.env0 0).
  reflexivity.
Defined.

(** ** More of [getTaskPrompt] *)

Lemma trim_allSpace (s : string) : allSpace s = true -> JsString.trim s = "".
Proof.
  unfold JsString.trim. induction s as [| c s IH]; [reflexivity |].
  cbn [allSpace JsString.trimStart]. intros H.
  apply andb_true_iff in H. destruct H as [Hc Hs].
  rewrite Hc. exact (IH Hs).
Qed.

(** [getTaskPrompt] with an argument.  An empty string counts as no
    argument.  Any other argument that does not end in [.md] is the prompt,
    verbatim, and the disk is not read.  One that ends in [.md] and can be
    read gives the trimmed content of the file with the resolved path as
    source, also when that content is empty: an empty prompt, not a
    request for an interview. *)
Theorem getTaskPrompt_with_argument (o : Outside) :
  (forall localDir e,
      getTaskPrompt o (Some "") localDir e = getTaskPrompt o None localDir e)
  /\ (forall arg localDir e,
         JsString.truthy arg = true ->
         JsString.endsWith arg ".md" = false ->
         getTaskPrompt o (Some arg) localDir e
         = (Ok (PromptFrom arg "CLI argument"), e))
  /\ (forall arg localDir e content w',
         JsString.endsWith arg ".md" = true ->
         fs_readFile o (promptPathOf o (env_HOME o (world e)) arg) (world e)
         = (Ok content, w') ->
         getTaskPrompt o (Some arg) localDir e
         = (Ok (PromptFrom (JsString.trim content)
                           (promptPathOf o (env_HOME o (world e)) arg)),
            {| vars := vars e; world := w' |})).
Proof.
  split; [| split].
  - reflexivity.
  - intros arg localDir e Htruthy Hmd. cbn [getTaskPrompt].
    rewrite Htruthy, Hmd. reflexivity.
  - intros arg localDir e content w' Hmd Hread. cbn [getTaskPrompt].
    rewrite (endsWith_md_truthy arg Hmd), Hmd.
    unfold bind, tryCatch, outside, ret. cbn [world vars].
    rewrite Hread. reflexivity.
Qed.

Lemma getTaskPrompt_with_argument_witness :
  getTaskPrompt Fixture.toy (Some "fix the tests") "/work" Fixture.env0
  = (Ok (PromptFrom "fix the tests" "CLI argument"), Fixture.env0)
  /\ getTaskPrompt Fixture.toy (Some "/work/PROMPT.md") "/elsewhere"
                   Fixture.env0
     = (Ok (PromptFrom "" "/work/PROMPT.md"), Fixture.env0)
  /\ getTaskPrompt (fixtureWithPrompt markedPrompt) (Some "/work/PROMPT.md")
       "/elsewhere"
       {| vars := initialState (fixtureWithPrompt markedPrompt);
          world := Fixture.world0 |}
     = (Ok (PromptFrom "Fix the login page" "/work/PROMPT.md"),
        {| vars := initialState (fixtureWithPrompt markedPrompt);
           world := Fixture.world0 |}).
Proof.
  destruct (getTaskPrompt_with_argument Fixture.toy) as (_ & Hliteral & Hfile).
  split; [| split].
  - apply Hliteral; reflexivity.
  - apply (Hfile "/work/PROMPT.md" "/elsewhere" Fixture.env0 ""
                 Fixture.world0);
      reflexivity.
  - apply (proj2 (proj2 (getTaskPrompt_with_argument
                           (fixtureWithPrompt markedPrompt)))
                 "/work/PROMPT.md" "/elsewhere"
                 (Build_Env (fixtureWithPrompt markedPrompt)
                            (initialState (fixtureWithPrompt markedPrompt))
                            Fixture.world0)
                 markedPrompt Fixture.world0);
      reflexivity.
Defined.

(** [getTaskPrompt] without an argument.  A [PROMPT.md] that cannot be read
    asks for an interview.  One with any content at all gives that content,
    trimmed, with source 'PROMPT.md'; so a file of white space only gives
    an empty prompt, not an interview. *)
Theorem getTaskPrompt_without_argument (o : Outside) :
  (forall localDir e err w',
      fs_readFile o (path_join o localDir "PROMPT.md") (world e)
      = (Throw err, w') ->
      getTaskPrompt o None localDir e
      = (Ok NeedsInterview, {| vars := vars e; world := w' |}))
  /\ (forall localDir e content w',
         fs_readFile o (path_join o localDir "PROMPT.md") (world e)
         = (Ok content, w') ->
         content <> "" ->
         getTaskPrompt o None localDir e
         = (Ok (PromptFrom (JsString.trim content) "PROMPT.md"),
            {| vars := vars e; world := w' |}))
  /\ (forall localDir e content w',
         fs_readFile o (path_join o localDir "PROMPT.md") (world e)
         = (Ok content, w') ->
         content <> "" ->
         allSpace content = true ->
         getTaskPrompt o None localDir e
         = (Ok (PromptFrom "" "PROMPT.md"),
            {| vars := vars e; world := w' |})).
Proof.
  assert (Hcontent : forall localDir e content w',
             fs_readFile o (path_join o localDir "PROMPT.md") (world e)
             = (Ok content, w') ->
             content <> "" ->
             getTaskPrompt o None localDir e
             = (Ok (PromptFrom (JsString.trim content) "PROMPT.md"),
                {| vars := vars e; world := w' |})).
  { intros localDir e content w' Hread Hne. cbn [getTaskPrompt].
    unfold promptFromFile, bind, tryCatch, outside, ret. cbn [world vars].
    rewrite Hread. destruct content; [contradiction | reflexivity]. }
  split; [| split].
  - intros localDir e err w' Hread. cbn [getTaskPrompt].
    unfold promptFromFile, bind, tryCatch, outside, ret. cbn [world vars].
    rewrite Hread. reflexivity.
  - exact Hcontent.
  - intros localDir e content w' Hread Hne Hspace.
    rewrite (Hcontent localDir e content w' Hread Hne).
    rewrite (trim_allSpace content Hspace). reflexivity.
Qed.

Lemma getTaskPrompt_without_argument_witness :
  getTaskPrompt Fixture.toy None "/nowhere" Fixture.env0
  = (Ok NeedsInterview, Fixture.env0)
  /\ getTaskPrompt (fixtureWithPrompt markedPrompt) None "/work"
       {| vars := initialState (fixtureWithPrompt markedPrompt);
          world := Fixture.world0 |}
     = (Ok (PromptFrom "Fix the login page" "PROMPT.md"),
        {| vars := initialState (fixtureWithPrompt markedPrompt);
           world := Fixture.world0 |})
  /\ getTaskPrompt (fixtureWithPrompt "   ") None "/work"
       {| vars := initialState (fixtureWithPrompt "   ");
          world := Fixture.world0 |}
     = (Ok (PromptFrom "" "PROMPT.md"),
        {| vars := initialState (fixtureWithPrompt "   ");
           world := Fixture.world0 |}).
Proof.
  split; [| split].
  - apply (proj1 (getTaskPrompt_without_argument Fixture.toy)
                 "/nowhere" Fixture.env0 "ENOENT" Fixture.world0).
    reflexivity.
  - apply (proj1 (proj2 (getTaskPrompt_without_argument
                           (fixtureWithPrompt markedPrompt)))
                 "/work"
                 (Build_Env (fixtureWithPrompt markedPrompt)
                            (initialState (fixtureWithPrompt markedPrompt))
                            Fixture.world0)
                 markedPrompt Fixture.world0).
    + reflexivity.
    + discriminate.
  - apply (proj2 (proj2 (getTaskPrompt_without_argument
                           (fixtureWithPrompt "   ")))
                 "/work"
                 (Build_Env (fixtureWithPrompt "   ")
                            (initialState (fixtureWithPrompt "   "))
                            Fixture.world0)
                 "   " Fixture.world0).
    + reflexivity.
    + discriminate.
    + reflexivity.
Defined.

(** ** Plan Mode *)

(** [runInterviewAndGetPrompt] after the interview.  If the plan is not to
    be saved, the prompt is returned with source 'Plan Mode' and the sandbox
    is not touched.  If it is to be saved and no sandbox is initialized, the
    call throws 'Sandbox not initialized' and the prompt is not returned.
    If it is to be saved and a sandbox exists, [PROMPT.md] is written there
    with the prompt as content, and on success the source is 'PROMPT.md'. *)
Theorem runInterviewAndGetPrompt_outcomes
        (o : Outside) (runPlanMode : M o (string * bool)) (e e1 : Env o)
        (prompt : string) :
  (runPlanMode
     {| vars := vars e;
        world := log o "No PROMPT.md found. Starting Plan Mode..." "yellow"
                   (world e) |}
   = (Ok (prompt, false), e1) ->
   runInterviewAndGetPrompt o runPlanMode e = (Ok (prompt, "Plan Mode"), e1))
  /\ (runPlanMode
        {| vars := vars e;
           world := log o "No PROMPT.md found. Starting Plan Mode..." "yellow"
                      (world e) |}
      = (Ok (prompt, true), e1) ->
      sandbox (vars e1) = None ->
      runInterviewAndGetPrompt o runPlanMode e
      = (Throw "Sandbox not initialized", e1))
  /\ (forall h w2,
         runPlanMode
           {| vars := vars e;
              world := log o "No PROMPT.md found. Starting Plan Mode..."
                         "yellow" (world e) |}
         = (Ok (prompt, true), e1) ->
         sandbox (vars e1) = Some h ->
         sandbox_writeFiles o h [("PROMPT.md", prompt)] (world e1)
         = (Ok tt, w2) ->
         runInterviewAndGetPrompt o runPlanMode e
         = (Ok (prompt, "PROMPT.md"),
            {| vars := vars e1;
               world := log o (String "010"%char
                                      "[+] Saved PROMPT.md to sandbox")
                          "green" w2 |})).
Proof.
  split; [| split].
  - intros Hplan.
    unfold runInterviewAndGetPrompt, say, bind, outside, ret.
    cbn [world vars]. rewrite Hplan. reflexivity.
  - intros Hplan Hnone.
    unfold runInterviewAndGetPrompt, writeToSandbox, say, bind, readVars,
      outside, ret.
    cbn [world vars]. rewrite Hplan, Hnone. reflexivity.
  - intros h w2 Hplan Hopen Hwrite.
    unfold runInterviewAndGetPrompt, writeToSandbox, say, bind, readVars,
      outside, ret.
    cbn [world vars]. rewrite Hplan, Hopen. cbn [world vars].
    rewrite Hwrite. reflexivity.
Qed.

Lemma runInterviewAndGetPrompt_outcomes_witness :
  runInterviewAndGetPrompt Fixture.toy (ret ("build a todo app", true))
                           Fixture.env0
  = (Throw "Sandbox not initialized",
     {| vars := initialState Fixture.toy;
        world := log Fixture.toy "No PROMPT.md found. Starting Plan Mode..."
                   "yellow" Fixture.world0 |}).
Proof.
  apply (proj1 (proj2 (runInterviewAndGetPrompt_outcomes
                         Fixture.toy (ret ("build a todo app", true))
                         Fixture.env0 _ "build a todo app")));
    reflexivity.
Defined.

(** * The installers of the development tools *)

Section InstallerFacts.

Variable o : Outside.

Lemma keepsVars_runInSandboxInternal (command : string) :
  keepsVars (DevTools.runInSandboxInternal o command).
Proof.
  unfold DevTools.runInSandboxInternal.
  apply keepsVars_bind; [apply keepsVars_sandboxBang | intros h].
  apply keepsVars_bind; [apply keepsVars_outside | intros cmd].
  apply keepsVars_bind; [apply keepsVars_outside | intros entries].
  apply keepsVars_bind; [apply keepsVars_outside | intros code].
  apply keepsVars_ret.
Qed.

Lemma keepsVars_runAll (commands : list string) :
  keepsVars (DevTools.runAll o commands).
Proof.
  induction commands as [| c rest IH]; cbn [DevTools.runAll].
  - apply keepsVars_ret.
  - apply keepsVars_bind;
      [apply keepsVars_runInSandboxInternal | intros _; exact IH].
Qed.

Lemma keepsVars_tryCatchE {A : Type} (body : M o A)
      (handler : string -> M o A) :
  keepsVars body -> (forall msg, keepsVars (handler msg)) ->
  keepsVars (DevTools.tryCatchE o body handler).
Proof.
  intros Hb Hh e. unfold DevTools.tryCatchE. specialize (Hb e).
  destruct (body e) as [[a | err] e1]; cbn [snd] in *.
  - exact Hb.
  - rewrite Hh. exact Hb.
Qed.

Lemma keepsVars_if {A : Type} (b : bool) (m1 m2 : M o A) :
  keepsVars m1 -> keepsVars m2 -> keepsVars (if b then m1 else m2).
Proof. destruct b; auto. Qed.

Lemma bind_inv {A B : Type} (m : M o A) (k : A -> M o B) (e e' : Env o)
      (b : B) :
  bind m k e = (Ok b, e') ->
  exists a e1, m e = (Ok a, e1) /\ k a e1 = (Ok b, e').
Proof.
  unfold bind. destruct (m e) as [[a | err] e1]; intros H.
  - exists a, e1. split; [reflexivity | exact H].
  - discriminate H.
Qed.

Lemma runInSandboxInternal_closed (command : string) (e : Env o) :
  sandbox (vars e) = None ->
  DevTools.runInSandboxInternal o command e
  = (Throw "Cannot read properties of null (reading 'runCommand')", e).
Proof.
  intros Hnone.
  unfold DevTools.runInSandboxInternal, sandboxBang, bind, readVars, throw.
  rewrite Hnone. reflexivity.
Qed.

Lemma keepsVars_chromiumSystemDeps : keepsVars (DevTools.chromiumSystemDeps o).
Proof.
  unfold DevTools.chromiumSystemDeps.
  repeat first
    [ apply keepsVars_ret
    | apply keepsVars_say
    | apply keepsVars_runInSandboxInternal
    | apply keepsVars_if
    | apply keepsVars_bind; [| intros ?] ].
Qed.

Lemma keepsVars_verifyChromium : keepsVars (DevTools.verifyChromium o).
Proof.
  unfold DevTools.verifyChromium.
  repeat first
    [ apply keepsVars_ret
    | apply keepsVars_say
    | apply keepsVars_runInSandboxInternal
    | apply keepsVars_if
    | apply keepsVars_bind; [| intros ?] ].
Qed.

Lemma keepsVars_installPackageAndBrowser :
  keepsVars (DevTools.installPackageAndBrowser o).
Proof.
  unfold DevTools.installPackageAndBrowser.
  repeat first
    [ apply keepsVars_ret
    | apply keepsVars_say
    | apply keepsVars_verifyChromium
    | apply keepsVars_runInSandboxInternal
    | apply keepsVars_if
    | apply keepsVars_bind; [| intros ?] ].
Qed.

Lemma verifyChromium_true (e e' : Env o) (b : bool) :
  DevTools.verifyChromium o e = (Ok b, e') -> b = true.
Proof.
  unfold DevTools.verifyChromium. intros H.
  apply bind_inv in H. destruct H as (r1 & e1 & _ & H).
  apply bind_inv in H. destruct H as (u1 & e2 & _ & H).
  apply bind_inv in H. destruct H as (r2 & e3 & _ & H).
  apply bind_inv in H. destruct H as (u2 & e4 & _ & H).
  unfold ret in H. congruence.
Qed.

End InstallerFacts.

(** [installRedis] never throws and leaves the module variables alone; it
    answers [true] exactly when the install command ran and exited with 0
    and the command that starts the service ran too, whatever that one's
    exit code. *)
Theorem installRedis_outcomes (o : Outside) (e : Env o) :
  exists (b : bool) (e' : Env o),
    DevTools.installRedis o e = (Ok b, e')
    /\ vars e' = vars e
    /\ (b = true <->
        exists r e1 r2,
          DevTools.runInSandboxInternal o DevTools.installRedisCommand e
          = (Ok r, e1)
          /\ exitCode r = 0%Z
          /\ DevTools.runInSandboxInternal o DevTools.startRedisCommand e1
             = (Ok r2, e')).
Proof.
  pose proof (keepsVars_runInSandboxInternal o DevTools.installRedisCommand e)
    as Hv1.
  unfold DevTools.installRedis, tryCatch, bind.
  destruct (DevTools.runInSandboxInternal o DevTools.installRedisCommand e)
    as [[r | err] e1] eqn:H1; cbn [snd] in Hv1.
  - destruct (exitCode r =? 0)%Z eqn:Hc; cbn [negb].
    + pose proof (keepsVars_runInSandboxInternal
                    o DevTools.startRedisCommand e1) as Hv2.
      destruct (DevTools.runInSandboxInternal o DevTools.startRedisCommand e1)
        as [[r2 | err2] e2] eqn:H2; cbn [snd] in Hv2.
      * exists true, e2. split; [reflexivity |]. split; [congruence |].
        split; [intros _ | reflexivity].
        exists r, e1, r2. apply Z.eqb_eq in Hc. auto.
      * exists false, e2. split; [reflexivity |]. split; [congruence |].
        split; [discriminate |].
        intros (r' & e1' & r2' & Ha & _ & Hb).
        injection Ha as <- <-. rewrite H2 in Hb. discriminate Hb.
    + exists false, e1. split; [reflexivity |]. split; [exact Hv1 |].
      split; [discriminate |].
      intros (r' & e1' & r2' & Ha & Hz & _).
      injection Ha as <- <-. apply Z.eqb_neq in Hc. contradiction.
  - exists false, e1. split; [reflexivity |]. split; [exact Hv1 |].
    split; [discriminate |].
    intros (r' & e1' & r2' & Ha & _). discriminate Ha.
Qed.

(** [installPostgres] never throws and leaves the module variables alone; it
    answers [true] exactly when the install command exited with 0 and each
    of the five set-up commands ran, whatever their exit codes. *)
Theorem installPostgres_outcomes (o : Outside) (e : Env o) :
  exists (b : bool) (e' : Env o),
    DevTools.installPostgres o e = (Ok b, e')
    /\ vars e' = vars e
    /\ (b = true <->
        exists r e1,
          DevTools.runInSandboxInternal o DevTools.installPostgresCommand e
          = (Ok r, e1)
          /\ exitCode r = 0%Z
          /\ DevTools.runAll o DevTools.postgresSetupCommands e1
             = (Ok tt, e')).
Proof.
  pose proof (keepsVars_runInSandboxInternal
                o DevTools.installPostgresCommand e) as Hv1.
  unfold DevTools.installPostgres, tryCatch, bind.
  destruct (DevTools.runInSandboxInternal o DevTools.installPostgresCommand e)
    as [[r | err] e1] eqn:H1; cbn [snd] in Hv1.
  - destruct (exitCode r =? 0)%Z eqn:Hc; cbn [negb].
    + pose proof (keepsVars_runAll o DevTools.postgresSetupCommands e1)
        as Hv2.
      destruct (DevTools.runAll o DevTools.postgresSetupCommands e1)
        as [[[] | err2] e2] eqn:H2; cbn [snd] in Hv2.
      * exists true, e2. split; [reflexivity |]. split; [congruence |].
        split; [intros _ | reflexivity].
        exists r, e1. apply Z.eqb_eq in Hc. auto.
      * exists false, e2. split; [reflexivity |]. split; [congruence |].
        split; [discriminate |].
        intros (r' & e1' & Ha & _ & Hb).
        injection Ha as <- <-. rewrite H2 in Hb. discriminate Hb.
    + exists false, e1. split; [reflexivity |]. split; [exact Hv1 |].
      split; [discriminate |].
      intros (r' & e1' & Ha & Hz & _).
      injection Ha as <- <-. apply Z.eqb_neq in Hc. contradiction.
  - exists false, e1. split; [reflexivity |]. split; [exact Hv1 |].
    split; [discriminate |].
    intros (r' & e1' & Ha & _). discriminate Ha.
Qed.

(** [installPlaywright] never throws, whatever the sandbox does, and leaves
    the module variables alone. *)
Theorem installPlaywright_never_throws (o : Outside) (e : Env o) :
  exists (b : bool) (e' : Env o),
    DevTools.installPlaywright o e = (Ok b, e') /\ vars e' = vars e.
Proof.
  assert (Hbody : keepsVars (DevTools.chromiumSystemDeps o ;;;
                             DevTools.installPackageAndBrowser o)).
  { apply keepsVars_bind; [apply keepsVars_chromiumSystemDeps | intros _].
    apply keepsVars_installPackageAndBrowser. }
  specialize (Hbody e).
  unfold DevTools.installPlaywright, DevTools.tryCatchE.
  destruct ((DevTools.chromiumSystemDeps o ;;;
             DevTools.installPackageAndBrowser o) e) as [[b | err] e1];
    cbn [snd] in Hbody.
  - exists b, e1. split; [reflexivity | exact Hbody].
  - unfold bind, say, outside, ret. cbn [world vars].
    eexists false, _. split; [reflexivity |]. exact Hbody.
Qed.



(** Without a sandbox no installer runs a command, and none throws: Redis
    and PostgreSQL answer [false] and change nothing, Playwright answers
    [false] after the two lines it logs, the second one the message of the
    exception. *)
Theorem installers_need_a_sandbox (o : Outside) (e : Env o) :
  sandbox (vars e) = None ->
  DevTools.installRedis o e = (Ok false, e)
  /\ DevTools.installPostgres o e = (Ok false, e)
  /\ exists message,
       DevTools.installPlaywright o e
       = (Ok false,
          snd (say ("      Playwright install exception: " ++ message)%string
                   "dim"
                   (snd (say "      Installing Chromium system dependencies..."
                             "dim" e)))).
Proof.
  intros Hnone. split; [| split].
  - unfold DevTools.installRedis, tryCatch, bind.
    rewrite (runInSandboxInternal_closed o _ e Hnone). reflexivity.
  - unfold DevTools.installPostgres, tryCatch, bind.
    rewrite (runInSandboxInternal_closed o _ e Hnone). reflexivity.
  - exists "Cannot read properties of null (reading 'runCommand')".
    unfold DevTools.installPlaywright, DevTools.tryCatchE,
      DevTools.chromiumSystemDeps.
    unfold bind at 1 2 3. unfold say at 1, outside at 1.
    cbn [world vars fst snd].
    rewrite runInSandboxInternal_closed by exact Hnone.
    unfold bind, say, outside, ret. cbn [world vars fst snd]. reflexivity.
Qed.

Lemma installers_need_a_sandbox_witness :
  DevTools.installRedis Fixture.toy Fixture.env0 = (Ok false, Fixture.env0)
  /\ DevTools.installPostgres Fixture.toy Fixture.env0
     = (Ok false, Fixture.env0)
  /\ exists message,
       DevTools.installPlaywright Fixture.toy Fixture.env0
       = (Ok false,
          snd (say ("      Playwright install exception: " ++ message)%string
                   "dim"
                   (snd (say "      Installing Chromium system dependencies..."
                             "dim" Fixture.env0)))).
Proof. apply (installers_need_a_sandbox Fixture.toy Fixture.env0). reflexivity. Defined.

(** * Copying the files back *)

Section CopyBackFacts.

Variable o : Outside.
Variable disk : Disk o.

Lemma tryCatch_catches {A : Type} (body : M o A) (a0 : A) (e : Env o) :
  exists a e', tryCatch body (ret a0) e = (Ok a, e').
Proof.
  unfold tryCatch, ret. destruct (body e) as [[a | err] e1]; eauto.
Qed.

Lemma keepsVars_findOutput (args : list string) :
  keepsVars (CopyOut.findOutput o args).
Proof.
  unfold CopyOut.findOutput.
  apply keepsVars_bind; [apply keepsVars_sandboxBang | intros h].
  apply keepsVars_bind; [apply keepsVars_outside | intros cmd].
  apply keepsVars_bind; [apply keepsVars_outside | intros entries].
  apply keepsVars_bind; [apply keepsVars_outside | intros code].
  apply keepsVars_ret.
Qed.

Lemma keepsVars_rootPatterns : keepsVars (CopyOut.rootPatterns o).
Proof.
  unfold CopyOut.rootPatterns.
  apply keepsVars_tryCatch; [| apply keepsVars_ret].
  apply keepsVars_bind; [apply keepsVars_sandboxBang | intros h].
  apply keepsVars_bind; [apply keepsVars_outside | intros [stream |]].
  - apply keepsVars_bind; [apply keepsVars_outside | intros content].
    apply keepsVars_ret.
  - apply keepsVars_ret.
Qed.

Lemma keepsVars_nestedPatterns (gitignorePath : string) :
  keepsVars (CopyOut.nestedPatterns o gitignorePath).
Proof.
  unfold CopyOut.nestedPatterns.
  apply keepsVars_tryCatch; [| apply keepsVars_ret].
  apply keepsVars_bind; [apply keepsVars_sandboxBang | intros h].
  apply keepsVars_bind; [apply keepsVars_outside | intros [stream |]].
  - apply keepsVars_bind; [apply keepsVars_outside | intros content].
    apply keepsVars_ret.
  - apply keepsVars_ret.
Qed.

Lemma keepsVars_copyOne (sandboxPath localPath : string) :
  keepsVars (CopyOut.copyOne o disk sandboxPath localPath).
Proof.
  unfold CopyOut.copyOne.
  apply keepsVars_tryCatch; [| apply keepsVars_ret].
  apply keepsVars_bind; [apply keepsVars_sandboxBang | intros h].
  apply keepsVars_bind; [apply keepsVars_outside | intros [stream |]].
  - apply keepsVars_bind; [apply keepsVars_outside | intros content].
    apply keepsVars_bind; [apply keepsVars_outside | intros _].
    apply keepsVars_bind; [apply keepsVars_outside | intros _].
    apply keepsVars_ret.
  - apply keepsVars_ret.
Qed.

(** The loop over the nested files never throws, and only adds to the
    instance. *)
Lemma addNested_grows (gitignoreFiles : list string) :
  forall (ig : Ignore) (e : Env o),
  exists added e',
    CopyOut.addNested o ig gitignoreFiles e = (Ok (ig ++ added), e')
    /\ vars e' = vars e.
Proof.
  induction gitignoreFiles as [| p rest IH]; intros ig e;
    cbn [CopyOut.addNested].
  - exists [], e. rewrite app_nil_r. split; reflexivity.
  - pose proof (keepsVars_nestedPatterns p e) as Hv.
    unfold bind.
    destruct (tryCatch_catches
                (let relativePath :=
                   js_replace o (CopyOut.stripDotSlash p) "/.gitignore" "" in
                 h <- sandboxBang o "readFile" ;;
                 st <- outside (sandbox_readFile o h (CopyOut.stripDotSlash p)) ;;
                 match st with
                 | Some stream =>
                     content <- outside (streamToString o stream) ;;
                     ret (map (CopyOut.prefixWith relativePath)
                              (CopyIn.gitignoreLines content))
                 | None => ret []
                 end) [] e) as (ps & e1 & H1).
    change (CopyOut.nestedPatterns o p e = (Ok ps, e1)) in H1.
    rewrite H1 in Hv |- *. cbn [snd] in Hv.
    destruct (IH (ig ++ ps) e1) as (added & e' & H2 & Hv2).
    exists (ps ++ added), e'. rewrite app_assoc.
    split; [exact H2 | congruence].
Qed.

Lemma copyOne_ok (sandboxPath localPath : string) (e : Env o) :
  exists b e',
    CopyOut.copyOne o disk sandboxPath localPath e = (Ok b, e')
    /\ vars e' = vars e.
Proof.
  pose proof (keepsVars_copyOne sandboxPath localPath e) as Hv.
  unfold CopyOut.copyOne in *.
  match goal with
  | |- context [tryCatch ?body (ret false)] =>
      destruct (tryCatch_catches body false e) as (b & e' & H)
  end.
  rewrite H in Hv |- *. exists b, e'. split; [reflexivity | exact Hv].
Qed.

(** The loop over the lines of [find] and the loop over those the matcher
    does not ignore. *)
Lemma copyFiles_split (ig : Ignore) (localDir : string)
      (files : list string) :
  (forall f, In f files ->
             exists b, ignores o ig (CopyOut.stripDotSlash f) = Ok b) ->
  forall (c s : nat) (e : Env o),
  exists (c' : nat) (e' : Env o),
    CopyOut.copyFiles o disk ig localDir files c s e
    = (Ok (c', s + List.length (filter (isIgnored o ig) files)), e')
    /\ (forall s0,
          CopyOut.copyFiles o disk ig localDir (filter (isKept o ig) files)
            c s0 e
          = (Ok (c', s0), e'))
    /\ c <= c'
    /\ c' <= c + List.length (filter (isKept o ig) files)
    /\ vars e' = vars e.
Proof.
  induction files as [| f rest IH]; intros Hall c s e.
  - exists c, e. cbn. rewrite Nat.add_0_r.
    repeat split; try reflexivity; lia.
  - destruct (Hall f (or_introl eq_refl)) as (b & Hb).
    assert (Hrest : forall f', In f' rest ->
              exists b', ignores o ig (CopyOut.stripDotSlash f') = Ok b')
      by (intros f' Hin; apply Hall; right; exact Hin).
    specialize (IH Hrest).
    assert (Hi : isIgnored o ig f = b)
      by (unfold isIgnored; rewrite Hb; destruct b; reflexivity).
    assert (Hk : isKept o ig f = negb b)
      by (unfold isKept; rewrite Hb; destruct b; reflexivity).
    cbn [filter]. rewrite Hi, Hk.
    destruct b; cbn [negb].
    + destruct (IH c (S s) e) as (c' & e' & H1 & H2 & Hle1 & Hle2 & Hv).
      exists c', e'.
      cbn [CopyOut.copyFiles List.length]. unfold bind at 1. rewrite Hb.
      rewrite H1.
      split; [f_equal; f_equal; f_equal; lia |].
      split; [exact H2 |]. split; [exact Hle1 |]. split; [exact Hle2 |].
      exact Hv.
    + destruct (copyOne_ok (CopyOut.stripDotSlash f)
                  (path_join o localDir (CopyOut.stripDotSlash f)) e)
        as (copied & e1 & Hone & Hv1).
      destruct (IH (if copied then S c else c) s e1)
        as (c' & e' & H1 & H2 & Hle1 & Hle2 & Hv).
      exists c', e'.
      cbn [CopyOut.copyFiles List.length].
      split; [| split].
      * unfold bind at 1. rewrite Hb.
        unfold bind at 1. rewrite Hone. exact H1.
      * intros s0. unfold bind at 1. rewrite Hb.
        unfold bind at 1. rewrite Hone. apply H2.
      * destruct copied; (split; [lia |]); (split; [lia |]); congruence.
Qed.

Lemma keepsVars_addNested (gitignoreFiles : list string) :
  forall ig, keepsVars (CopyOut.addNested o ig gitignoreFiles).
Proof.
  induction gitignoreFiles as [| p rest IH]; intros ig;
    cbn [CopyOut.addNested].
  - apply keepsVars_ret.
  - apply keepsVars_bind; [apply keepsVars_nestedPatterns | intros ps].
    apply IH.
Qed.

Lemma loadSandboxGitignore_keeps : keepsVars (CopyOut.loadSandboxGitignore o).
Proof.
  unfold CopyOut.loadSandboxGitignore.
  apply keepsVars_bind; [apply keepsVars_rootPatterns | intros own].
  apply keepsVars_tryCatch; [| apply keepsVars_ret].
  apply keepsVars_bind; [apply keepsVars_findOutput | intros out].
  apply keepsVars_addNested.
Qed.

End CopyBackFacts.

(** [loadSandboxGitignore] never throws, whatever the sandbox does, and
    leaves the module variables alone; the instance it returns starts with
    [.git] and [node_modules]. *)
Theorem loadSandboxGitignore_never_throws (o : Outside) (e : Env o) :
  exists (added : list string) (e' : Env o),
    CopyOut.loadSandboxGitignore o e
    = (Ok ([".git"; "node_modules"] ++ added), e')
    /\ vars e' = vars e.
Proof.
  unfold CopyOut.loadSandboxGitignore.
  pose proof (keepsVars_rootPatterns o e) as Hv1.
  unfold bind at 1.
  destruct (tryCatch_catches o
              (h <- sandboxBang o "readFile" ;;
               st <- outside (sandbox_readFile o h ".gitignore") ;;
               match st with
               | Some stream =>
                   content <- outside (streamToString o stream) ;;
                   ret (CopyIn.gitignoreLines content)
               | None => ret []
               end) [] e) as (own & e1 & H1).
  change (CopyOut.rootPatterns o e = (Ok own, e1)) in H1.
  rewrite H1 in Hv1 |- *. cbn [snd] in Hv1.
  unfold tryCatch, bind.
  pose proof (keepsVars_findOutput o CopyOut.findGitignoresArgs e1) as Hv2.
  destruct (CopyOut.findOutput o CopyOut.findGitignoresArgs e1)
    as [[out | err] e2]; cbn [snd] in Hv2.
  - destruct (addNested_grows o (CopyOut.gitignoreFilesOf out)
                ([".git"; "node_modules"] ++ own) e2)
      as (added & e3 & H3 & Hv3).
    rewrite H3. exists (own ++ added), e3.
    rewrite app_assoc. split; [reflexivity | congruence].
  - exists own, e2. split; [reflexivity | congruence].
Qed.

(** Files the matcher ignores are neither read nor written: when the
    matcher answers for every line of [find], the loop of
    [copySandboxToLocal] does to the world, and counts as copied, what it
    would over the lines that are not ignored alone; it counts the ignored
    ones as skipped, copies at most the others, never throws (a file that
    cannot be read or written is passed over) and leaves the module
    variables alone. *)
Theorem ignored_files_are_not_copied
        (o : Outside) (disk : Disk o) (ig : Ignore) (localDir : string)
        (files : list string) (copiedCount skippedCount : nat) (e : Env o) :
  (forall f, In f files ->
             exists b, ignores o ig (CopyOut.stripDotSlash f) = Ok b) ->
  exists (copied : nat) (e' : Env o),
    CopyOut.copyFiles o disk ig localDir files copiedCount skippedCount e
    = (Ok (copied,
           skippedCount + List.length (filter (isIgnored o ig) files)), e')
    /\ CopyOut.copyFiles o disk ig localDir (filter (isKept o ig) files)
         copiedCount skippedCount e
       = (Ok (copied, skippedCount), e')
    /\ copiedCount <= copied
    /\ copied <= copiedCount + List.length (filter (isKept o ig) files)
    /\ vars e' = vars e.
Proof.
  intros Hall.
  destruct (copyFiles_split o disk ig localDir files Hall
              copiedCount skippedCount e)
    as (c' & e' & H1 & H2 & Hle1 & Hle2 & Hv).
  exists c', e'. split; [exact H1 |]. split; [apply H2 |].
  split; [exact Hle1 |]. split; [exact Hle2 | exact Hv].
Qed.

Lemma ignored_files_are_not_copied_witness :
  exists (copied : nat) (e' : Env backFixture),
    CopyOut.copyFiles backFixture backDisk
      [".git"; "node_modules"; "dist"; "src/dist"] "/work"
      ["./src/index.ts"; "./dist"; "./src/dist"; "./README.md"] 0 0 backEnv
    = (Ok (copied,
           0 + List.length
                 (filter (isIgnored backFixture
                            [".git"; "node_modules"; "dist"; "src/dist"])
                         ["./src/index.ts"; "./dist"; "./src/dist";
                          "./README.md"])), e')
    /\ CopyOut.copyFiles backFixture backDisk
         [".git"; "node_modules"; "dist"; "src/dist"] "/work"
         (filter (isKept backFixture
                    [".git"; "node_modules"; "dist"; "src/dist"])
                 ["./src/index.ts"; "./dist"; "./src/dist"; "./README.md"])
         0 0 backEnv
       = (Ok (copied, 0), e')
    /\ 0 <= copied
    /\ copied
       <= 0 + List.length
                (filter (isKept backFixture
                           [".git"; "node_modules"; "dist"; "src/dist"])
                        ["./src/index.ts"; "./dist"; "./src/dist";
                         "./README.md"])
    /\ vars e' = vars backEnv.
Proof.
  apply (ignored_files_are_not_copied
           backFixture backDisk [".git"; "node_modules"; "dist"; "src/dist"]
           "/work"
           ["./src/index.ts"; "./dist"; "./src/dist"; "./README.md"]
           0 0 backEnv).
  intros f Hin. cbn [In] in Hin.
  destruct Hin as [<- | [<- | [<- | [<- | []]]]]; eexists; reflexivity.
Defined.

(** A path the matcher rejects ends the copy: the exception leaves the loop
    of [copySandboxToLocal] (no [try] is around the call of the matcher),
    the lines before it have been handled, the lines after it are not
    looked at. *)
Theorem copy_back_stops_at_rejected_path
        (o : Outside) (disk : Disk o) (ig : Ignore) (localDir : string)
        (before : list string) (file : string) (after : list string)
        (err : string) (copiedCount skippedCount : nat) (e : Env o) :
  (forall f, In f before ->
             exists b, ignores o ig (CopyOut.stripDotSlash f) = Ok b) ->
  ignores o ig (CopyOut.stripDotSlash file) = Throw err ->
  exists (counts : nat * nat) (e' : Env o),
    CopyOut.copyFiles o disk ig localDir before copiedCount skippedCount e
    = (Ok counts, e')
    /\ CopyOut.copyFiles o disk ig localDir (before ++ file :: after)
         copiedCount skippedCount e
       = (Throw err, e').
Proof.
  revert copiedCount skippedCount e.
  induction before as [| f rest IH]; intros c s e Hall Hthrow.
  - exists (c, s), e. split; [reflexivity |].
    cbn [app CopyOut.copyFiles]. unfold bind. rewrite Hthrow. reflexivity.
  - destruct (Hall f (or_introl eq_refl)) as (b & Hb).
    assert (Hrest : forall f', In f' rest ->
              exists b', ignores o ig (CopyOut.stripDotSlash f') = Ok b')
      by (intros f' Hin; apply Hall; right; exact Hin).
    destruct (copyOne_ok o disk (CopyOut.stripDotSlash f)
                (path_join o localDir (CopyOut.stripDotSlash f)) e)
      as (copied & e1 & Hone & _).
    assert (Hstep : forall files,
              CopyOut.copyFiles o disk ig localDir (f :: files) c s e
              = if b
                then CopyOut.copyFiles o disk ig localDir files c (S s) e
                else CopyOut.copyFiles o disk ig localDir files
                       (if copied then S c else c) s e1).
    { intros files. cbn [CopyOut.copyFiles]. unfold bind at 1. rewrite Hb.
      destruct b; [reflexivity |]. unfold bind at 1. rewrite Hone.
      reflexivity. }
    rewrite <- app_comm_cons. rewrite !Hstep.
    destruct b; apply IH; assumption.
Qed.

Lemma copy_back_stops_at_rejected_path_witness :
  exists (counts : nat * nat) (e' : Env backFixture),
    CopyOut.copyFiles backFixture backDisk [".git"; "dist"] "/work"
      ["./src/index.ts"; "./dist"] 0 0 backEnv
    = (Ok counts, e')
    /\ CopyOut.copyFiles backFixture backDisk [".git"; "dist"] "/work"
         (["./src/index.ts"; "./dist"] ++ "./..." :: ["./README.md"])
         0 0 backEnv
       = (Throw "RangeError: path should be relative", e').
Proof.
  apply (copy_back_stops_at_rejected_path
           backFixture backDisk [".git"; "dist"] "/work"
           ["./src/index.ts"; "./dist"] "./..." ["./README.md"]
           "RangeError: path should be relative" 0 0 backEnv).
  - intros f Hin. cbn [In] in Hin.
    destruct Hin as [<- | [<- | []]]; eexists; reflexivity.
  - reflexivity.
Defined.

(** What [copySandboxToLocal] reports: when [find] lists the files and the
    matcher answers for each of them, the call returns, the module variables
    are as before, and the last line logged gives the number of files
    copied, at most the number of lines not ignored, and, if it is not zero,
    the number of lines ignored. *)
Theorem copySandboxToLocal_reports
        (o : Outside) (disk : Disk o) (localDir : string) (e e1 e2 : Env o)
        (ig : Ignore) (out : string) :
  CopyOut.loadSandboxGitignore o
    (snd (say "  [-] Copying changes back to local..." "cyan" e))
  = (Ok ig, e1) ->
  CopyOut.findOutput o CopyOut.findFilesArgs e1 = (Ok out, e2) ->
  (forall f, In f (CopyOut.filesOf out) ->
             exists b, ignores o ig (CopyOut.stripDotSlash f) = Ok b) ->
  exists (copied : nat) (e3 : Env o),
    CopyOut.copySandboxToLocal o disk localDir e
    = (Ok tt,
       snd (say ("  [+] Copied " ++ showNat copied ++ " files back to local"
                   ++ (if (0 <? List.length
                                  (filter (isIgnored o ig)
                                          (CopyOut.filesOf out)))%nat
                       then " ("
                              ++ showNat
                                   (List.length
                                      (filter (isIgnored o ig)
                                              (CopyOut.filesOf out)))
                              ++ " ignored)"
                       else ""))%string "green" e3))
    /\ copied <= List.length (filter (isKept o ig) (CopyOut.filesOf out))
    /\ vars e3 = vars e.
Proof.
  intros Hload Hfind Hall.
  pose proof (keepsVars_say o "  [-] Copying changes back to local..." "cyan" e)
    as Hv0.
  pose proof (loadSandboxGitignore_keeps o
                (snd (say "  [-] Copying changes back to local..." "cyan" e)))
    as Hv1.
  rewrite Hload in Hv1. cbn [snd] in Hv1.
  pose proof (keepsVars_findOutput o CopyOut.findFilesArgs e1) as Hv2.
  rewrite Hfind in Hv2. cbn [snd] in Hv2.
  destruct (copyFiles_split o disk ig localDir (CopyOut.filesOf out) Hall
              0 0 e2) as (copied & e3 & Hcopy & _ & _ & Hle & Hv3).
  exists copied, e3.
  split; [| split; [exact Hle | congruence]].
  unfold CopyOut.copySandboxToLocal.
  rewrite (bind_ok o _ _ e
             (snd (say "  [-] Copying changes back to local..." "cyan" e)) tt
             eq_refl).
  rewrite (bind_ok o _ _ _ e1 ig Hload).
  rewrite (bind_ok o _ _ e1 e2 out Hfind).
  rewrite (bind_ok o _ _ e2 e3 _ Hcopy).
  cbn [Nat.add]. unfold say, outside. reflexivity.
Qed.

Lemma copySandboxToLocal_reports_witness :
  exists (copied : nat) (e3 : Env backFixture),
    CopyOut.copySandboxToLocal backFixture backDisk "/work" backEnv
    = (Ok tt,
       snd (say ("  [+] Copied " ++ showNat copied ++ " files back to local"
                   ++ (if (0 <? List.length
                                  (filter (isIgnored backFixture
                                             [".git"; "node_modules"; "dist";
                                              "src/dist"])
                                          (CopyOut.filesOf "./src/index.ts
./dist
./src/dist
./README.md
")))%nat
                       then " ("
                              ++ showNat
                                   (List.length
                                      (filter (isIgnored backFixture
                                                 [".git"; "node_modules";
                                                  "dist"; "src/dist"])
                                              (CopyOut.filesOf "./src/index.ts
./dist
./src/dist
./README.md
")))
                              ++ " ignored)"
                       else ""))%string "green" e3))
    /\ copied
       <= List.length
            (filter (isKept backFixture
                       [".git"; "node_modules"; "dist"; "src/dist"])
                    (CopyOut.filesOf "./src/index.ts
./dist
./src/dist
./README.md
"))
    /\ vars e3 = vars backEnv.
Proof.
  apply (copySandboxToLocal_reports
           backFixture backDisk "/work" backEnv
           (snd (CopyOut.loadSandboxGitignore backFixture
                   (snd (say "  [-] Copying changes back to local..." "cyan"
                             backEnv))))
           (snd (CopyOut.findOutput backFixture CopyOut.findFilesArgs
                   (snd (CopyOut.loadSandboxGitignore backFixture
                           (snd (say "  [-] Copying changes back to local..."
                                     "cyan" backEnv))))))).
  - vm_compute. reflexivity.
  - vm_compute. reflexivity.
  - intros f Hin. vm_compute in Hin.
    destruct Hin as [<- | [<- | [<- | [<- | []]]]]; eexists; reflexivity.
Defined.

(** ** The batches handed to [writeFiles] *)

Section WriteBatchesFacts.

Variable o : Outside.

Lemma writeBatches_cons_open (b : list CopyIn.CopiedFile)
      (rest : list (list CopyIn.CopiedFile)) (e : Env o) (h : Handle o) :
  sandbox (vars e) = Some h ->
  writeBatches o (b :: rest) e
  = match sandbox_writeFiles o h b (world e) with
    | (Ok _, w1) => writeBatches o rest {| vars := vars e; world := w1 |}
    | (Throw err, w1) => (Throw err, {| vars := vars e; world := w1 |})
    end.
Proof.
  intros Hopen. cbn [writeBatches].
  cbv [bind sandboxBang readVars outside ret]. rewrite Hopen.
  destruct (sandbox_writeFiles o h b (world e)) as [[[] | err] w1];
    reflexivity.
Qed.

Lemma writeBatches_cons_closed (b : list CopyIn.CopiedFile)
      (rest : list (list CopyIn.CopiedFile)) (e : Env o) :
  sandbox (vars e) = None ->
  writeBatches o (b :: rest) e
  = (Throw "Cannot read properties of null (reading 'writeFiles')", e).
Proof.
  intros Hclosed. cbn [writeBatches].
  cbv [bind sandboxBang readVars throw]. rewrite Hclosed. reflexivity.
Qed.

End WriteBatchesFacts.

Section RecordingFacts.

Variable o : Outside.

(** The run with the record is the run without it, and the record grows by
    the batches of the calls made: all of them when no call throws, those up
    to the call that throws otherwise. *)
Lemma writeBatches_recorded (bs : list (list CopyIn.CopiedFile)) :
  forall (e : Env o) (t : Handed),
  exists n,
    n <= List.length bs
    /\ writeBatches (recording o) bs (recorded o e t)
       = (fst (writeBatches o bs e),
          recorded o (snd (writeBatches o bs e)) (t ++ firstn n bs))
    /\ (fst (writeBatches o bs e) = Ok tt -> n = List.length bs).
Proof.
  induction bs as [| b rest IH]; intros e t.
  - exists 0. cbn [writeBatches firstn List.length]. rewrite app_nil_r.
    repeat split; lia.
  - destruct (sandbox (vars e)) as [h |] eqn:Hopen.
    + rewrite (writeBatches_cons_open o b rest e h Hopen).
      rewrite (writeBatches_cons_open (recording o) b rest (recorded o e t) h
                 Hopen).
      cbn [world recorded vars fst snd recording sandbox_writeFiles].
      destruct (sandbox_writeFiles o h b (world e)) as [[[] | err] w1].
      * destruct (IH {| vars := vars e; world := w1 |} (t ++ [b]))
          as (n & Hle & Heq & Hall).
        exists (S n). cbn [List.length firstn].
        split; [lia |]. split.
        -- change (writeBatches (recording o) rest
                     (recorded o {| vars := vars e; world := w1 |} (t ++ [b]))
                   = (fst (writeBatches o rest
                             {| vars := vars e; world := w1 |}),
                      recorded o
                        (snd (writeBatches o rest
                                {| vars := vars e; world := w1 |}))
                        (t ++ b :: firstn n rest))).
           rewrite Heq, <- app_assoc. reflexivity.
        -- intros Hok. rewrite (Hall Hok). reflexivity.
      * exists 1. cbn [List.length firstn fst snd].
        split; [lia |]. split; [reflexivity | discriminate].
    + rewrite (writeBatches_cons_closed o b rest e Hopen).
      rewrite (writeBatches_cons_closed (recording o) b rest (recorded o e t)
                 Hopen).
      exists 0. cbn [firstn fst snd]. rewrite app_nil_r.
      split; [lia |]. split; [reflexivity | discriminate].
Qed.

Lemma copyLocalToSandbox_recorded (localDir : string) (e : Env o)
      (t : Handed) :
  let files :=
    filesToCopy o
      (localTree o
         (log o "  [-] Copying project files to sandbox..." "cyan" (world e))
         localDir) in
  exists n,
    n <= List.length (CopyIn.batches files)
    /\ copyLocalToSandbox (recording o) localDir (recorded o e t)
       = (fst (copyLocalToSandbox o localDir e),
          recorded o (snd (copyLocalToSandbox o localDir e))
            (t ++ firstn n (CopyIn.batches files)))
    /\ (fst (copyLocalToSandbox o localDir e) = Ok tt ->
        n = List.length (CopyIn.batches files)).
Proof.
  intros files.
  set (e1 := {| vars := vars e;
                world := log o "  [-] Copying project files to sandbox..."
                           "cyan" (world e) |}).
  assert (Hplain :
            copyLocalToSandbox o localDir e
            = (if 0 <? List.length files then
                 writeBatches o (CopyIn.batches files) ;;;
                 say ("  [+] Copied " ++ showNat (List.length files)
                        ++ " files to sandbox")%string "green"
               else
                 say "  [i] Starting with empty sandbox (new project)" "dim")
                e1)
    by reflexivity.
  assert (Hrecorded :
            copyLocalToSandbox (recording o) localDir (recorded o e t)
            = (if 0 <? List.length files then
                 writeBatches (recording o) (CopyIn.batches files) ;;;
                 say ("  [+] Copied " ++ showNat (List.length files)
                        ++ " files to sandbox")%string "green"
               else
                 say "  [i] Starting with empty sandbox (new project)" "dim")
                (recorded o e1 t))
    by reflexivity.
  rewrite Hplain, Hrecorded. clear Hplain Hrecorded.
  destruct (0 <? List.length files) eqn:Hany.
  - destruct (writeBatches_recorded (CopyIn.batches files) e1 t)
      as (n & Hle & Heq & Hall).
    exists n. split; [exact Hle |].
    unfold bind. rewrite Heq.
    destruct (writeBatches o (CopyIn.batches files) e1)
      as [[[] | err] e2] eqn:Hwrite; cbn [fst snd] in *.
    + split; [reflexivity | intros _; apply Hall; reflexivity].
    + split; [reflexivity | discriminate].
  - apply Nat.ltb_ge in Hany.
    assert (Hnone : files = [])
      by (destruct files; [reflexivity | cbn [List.length] in Hany; lia]).
    rewrite Hnone. exists 0. cbn [CopyIn.batches firstn List.length].
    rewrite app_nil_r. split; [lia |]. split; [reflexivity |].
    intros _. reflexivity.
Qed.

End RecordingFacts.

(** C8.  [copyLocalToSandbox] transfers no secret and no oversized file.
    Run with a record kept of what [sandbox.writeFiles] is called with, it
    does what it does without the record, and every file of every batch it
    hands to [writeFiles] is a readable regular file of the local tree,
    reached through directories none of which is named [node_modules]; its
    name is not [.env], does not start with [.env.] and is not [.DS_Store];
    the matcher loaded from the [.gitignore] files does not ignore its path
    (nor any directory above it); and its content is strictly shorter than
    1,048,576 bytes, so a file of exactly 1 MiB is left out. *)
Theorem copyLocalToSandbox_transfers_only_allowed
        (o : Outside) (localDir : string) (e : Env o) (before : Handed) :
  let root :=
    localTree o
      (log o "  [-] Copying project files to sandbox..." "cyan" (world e))
      localDir in
  exists handed : Handed,
    copyLocalToSandbox (recording o) localDir (recorded o e before)
    = (fst (copyLocalToSandbox o localDir e),
       recorded o (snd (copyLocalToSandbox o localDir e)) (before ++ handed))
    /\ forall batch path content,
         In batch handed ->
         In (path, content) batch ->
         exists dirs name,
           path = sandboxPathOf (dirs ++ [name])
           /\ reaches root (dirs ++ [name]) (FileNode (Some content))
           /\ name <> ".env"
           /\ JsString.startsWith name ".env." = false
           /\ name <> ".DS_Store"
           /\ ~ In "node_modules" dirs
           /\ ignores o (CopyIn.loadGitignore root) path = Ok false
           /\ dirsPassed (ignores o (CopyIn.loadGitignore root)) "" dirs
           /\ (Z.of_nat (String.length content) < 1048576)%Z.
Proof.
  intros root.
  destruct (copyLocalToSandbox_recorded o localDir e before)
    as (n & _ & Hrun & _).
  exists (firstn n (CopyIn.batches (filesToCopy o root))).
  split; [exact Hrun |].
  intros batch path content Hbatch Hfile.
  apply filesToCopy_allowed.
  rewrite <- (batches_concat (filesToCopy o root)).
  apply in_concat. exists batch. split; [| exact Hfile].
  rewrite <- (firstn_skipn n (CopyIn.batches (filesToCopy o root))).
  apply in_or_app. left. exact Hbatch.
Qed.

Lemma copyLocalToSandbox_transfers_only_allowed_witness :
  exists handed : Handed,
    copyLocalToSandbox (recording Fixture.toy) "/work"
      (recorded Fixture.toy toyEnv [])
    = (fst (copyLocalToSandbox Fixture.toy "/work" toyEnv),
       recorded Fixture.toy (snd (copyLocalToSandbox Fixture.toy "/work" toyEnv))
         ([] ++ handed))
    /\ forall batch path content,
         In batch handed ->
         In (path, content) batch ->
         exists dirs name,
           path = sandboxPathOf (dirs ++ [name])
           /\ reaches Fixture.tree (dirs ++ [name]) (FileNode (Some content))
           /\ name <> ".env"
           /\ JsString.startsWith name ".env." = false
           /\ name <> ".DS_Store"
           /\ ~ In "node_modules" dirs
           /\ ignores Fixture.toy (CopyIn.loadGitignore Fixture.tree) path
              = Ok false
           /\ dirsPassed (ignores Fixture.toy (CopyIn.loadGitignore Fixture.tree))
                         "" dirs
           /\ (Z.of_nat (String.length content) < 1048576)%Z.
Proof.
  exact (copyLocalToSandbox_transfers_only_allowed
           Fixture.toy "/work" toyEnv []).
Defined.

(** On the fixture, the record of the run: one call of [writeFiles], with
    the three files selected. *)
Example recorded_batches_on_fixture :
  snd (world (snd (copyLocalToSandbox (recording Fixture.toy) "/work"
                     (recorded Fixture.toy toyEnv []))))
  = [[(".gitignore", "dist
# build output
"); ("src/index.ts", "export {}"); ("README.md", "# demo")]].
Proof. reflexivity. Qed.

(** What [copyLocalToSandbox] hands to [writeFiles], and how.  The batches
    handed over are always an initial segment of the batches the collected
    files are cut into, each of 1 to 50 files: a call that throws ends the
    copy (no [try] is around the loop), and the batches after it are never
    handed over.  When [copyLocalToSandbox] returns, every collected file
    has been handed to [writeFiles] exactly once and in order, in
    [ceil (n / 50)] batches for [n] files. *)
Theorem batches_cover_the_files
        (o : Outside) (localDir : string) (e : Env o) (before : Handed) :
  let files :=
    filesToCopy o
      (localTree o
         (log o "  [-] Copying project files to sandbox..." "cyan" (world e))
         localDir) in
  exists handed : Handed,
    copyLocalToSandbox (recording o) localDir (recorded o e before)
    = (fst (copyLocalToSandbox o localDir e),
       recorded o (snd (copyLocalToSandbox o localDir e)) (before ++ handed))
    /\ (exists n, handed = firstn n (CopyIn.batches files))
    /\ Forall (fun b => 1 <= List.length b <= 50) handed
    /\ (fst (copyLocalToSandbox o localDir e) = Ok tt ->
        List.concat handed = files
        /\ List.length handed = (List.length files + 49) / 50).
Proof.
  intros files.
  destruct (copyLocalToSandbox_recorded o localDir e before)
    as (n & _ & Hrun & Hall).
  fold files in Hrun, Hall.
  destruct (batches_shape files) as (Hconcat & Hsizes & Hcount).
  exists (firstn n (CopyIn.batches files)).
  split; [exact Hrun |]. split; [exists n; reflexivity |]. split.
  - apply Forall_forall. intros b Hb.
    rewrite Forall_forall in Hsizes. apply Hsizes.
    rewrite <- (firstn_skipn n (CopyIn.batches files)).
    apply in_or_app. left. exact Hb.
  - intros Hok. rewrite (Hall Hok), firstn_all. split; assumption.
Qed.

Lemma batches_cover_the_files_witness :
  exists handed : Handed,
    copyLocalToSandbox (recording Fixture.toy) "/work"
      (recorded Fixture.toy toyEnv [])
    = (fst (copyLocalToSandbox Fixture.toy "/work" toyEnv),
       recorded Fixture.toy (snd (copyLocalToSandbox Fixture.toy "/work" toyEnv))
         ([] ++ handed))
    /\ (exists n,
          handed
          = firstn n (CopyIn.batches (filesToCopy Fixture.toy Fixture.tree)))
    /\ Forall (fun b => 1 <= List.length b <= 50) handed
    /\ (fst (copyLocalToSandbox Fixture.toy "/work" toyEnv) = Ok tt ->
        List.concat handed = filesToCopy Fixture.toy Fixture.tree
        /\ List.length handed
           = (List.length (filesToCopy Fixture.toy Fixture.tree) + 49) / 50).
Proof.
  exact (batches_cover_the_files Fixture.toy "/work" toyEnv []).
Defined.

(** A [.gitignore] that is a link is read through the link, and the one of
    a directory that cannot be listed is read all the same. *)
Example linked_gitignore_is_loaded :
  CopyIn.loadGitignore
    (DirNode [(".gitignore", OtherNode (Some "dist"));
              ("sub", UnreadableDir (Some "*.log
!keep.log"))])
  = [".git"; "node_modules"; "dist"; "sub/*.log"; "!sub/keep.log"].
Proof. reflexivity. Qed.

(** * Properties of the outer loop *)

Import Ralph RalphSpec.

Section RunFacts.

Variable E : Engine.
Variable cfg : Settings E.

Lemma run_terminal (fuel : nat) (m : Machine E) :
  terminal (phase m) = true -> run cfg fuel m = Some m.
Proof. intros H. destruct fuel; cbn [run]; rewrite H; reflexivity. Qed.

Lemma run_step (fuel : nat) (m : Machine E) :
  terminal (phase m) = false -> run cfg (S fuel) m = run cfg fuel (step cfg m).
Proof. intros H. cbn [run]. rewrite H. reflexivity. Qed.

Lemma step_terminal (m : Machine E) :
  terminal (phase m) = true -> step cfg m = m.
Proof.
  unfold step. destruct (phase m); intros H; try discriminate H; reflexivity.
Qed.

Lemma run_ends_terminal (fuel : nat) :
  forall m m', run cfg fuel m = Some m' -> terminal (phase m') = true.
Proof.
  induction fuel as [| fuel IH]; intros m m'; cbn [run];
    destruct (terminal (phase m)) eqn:Hterm; intros H.
  - inversion H; subst; exact Hterm.
  - discriminate H.
  - inversion H; subst; exact Hterm.
  - exact (IH _ _ H).
Qed.

(** More fuel does not change the outcome of a run that ended. *)
Lemma run_more (fuel : nat) :
  forall m m' fuel',
    run cfg fuel m = Some m' -> fuel <= fuel' -> run cfg fuel' m = Some m'.
Proof.
  induction fuel as [| fuel IH]; intros m m' fuel' Hrun Hle.
  - cbn [run] in Hrun. destruct (terminal (phase m)) eqn:Hterm;
      [| discriminate Hrun].
    inversion Hrun; subst. apply run_terminal. exact Hterm.
  - destruct (terminal (phase m)) eqn:Hterm.
    + rewrite run_terminal in Hrun by exact Hterm.
      inversion Hrun; subst. apply run_terminal. exact Hterm.
    + rewrite run_step in Hrun by exact Hterm.
      destruct fuel' as [| fuel']; [lia |].
      rewrite run_step by exact Hterm.
      apply (IH _ _ _ Hrun). lia.
Qed.

Lemma run_functional (fuel1 fuel2 : nat) (m m1 m2 : Machine E) :
  run cfg fuel1 m = Some m1 -> run cfg fuel2 m = Some m2 -> m1 = m2.
Proof.
  intros H1 H2.
  apply (run_more _ _ _ (Nat.max fuel1 fuel2)) in H1; [| lia].
  apply (run_more _ _ _ (Nat.max fuel1 fuel2)) in H2; [| lia].
  congruence.
Qed.

(** A run that goes through [n] transitions to a machine that is not in a
    terminal state continues from there. *)
Lemma run_iter (n : nat) :
  forall m fuel,
    terminal (phase (Nat.iter n (step cfg) m)) = false ->
    run cfg (n + fuel) m = run cfg fuel (Nat.iter n (step cfg) m).
Proof.
  induction n as [| n IH]; intros m fuel Hlive; [reflexivity |].
  rewrite Nat.iter_succ_r in *.
  destruct (terminal (phase m)) eqn:Hterm.
  - rewrite step_terminal in Hlive by exact Hterm.
    rewrite step_terminal by exact Hterm.
    assert (Hfix : forall k, Nat.iter k (step cfg) m = m).
    { induction k as [| k IHk]; [reflexivity |].
      cbn [Nat.iter nat_rect]. unfold Nat.iter in IHk. rewrite IHk.
      apply step_terminal. exact Hterm. }
    rewrite Hfix in Hlive. congruence.
  - cbn [Nat.add]. rewrite run_step by exact Hterm. apply IH. exact Hlive.
Qed.

Lemma recordVerdict_last (v : Verdict) (st : LoopState E)
      (earlier : list (IterationRecord E)) (rec : IterationRecord E) :
  records st = earlier ++ [rec] ->
  records (recordVerdict v st) = earlier ++ [withVerdict v rec].
Proof.
  intros H. unfold recordVerdict. cbn [records]. rewrite H.
  rewrite rev_app_distr. cbn [rev app]. rewrite rev_involutive.
  reflexivity.
Qed.

Lemma firstn_before_last {A : Type} (i : nat) (l : list A) (x : A) :
  i <= List.length l -> firstn i (l ++ [x]) = firstn i l.
Proof.
  intros H. rewrite firstn_app.
  replace (i - List.length l) with 0 by lia.
  cbn [firstn]. apply app_nil_r.
Qed.

End RunFacts.

Section InvariantFacts.

Variable E : Engine.
Variable cfg : Settings E.

Lemma invariant_start (prompt : string) (w : World E) :
  invariant (start E prompt w).
Proof.
  split.
  - intros i c H. destruct i; discriminate H.
  - cbn. repeat split.
Qed.

Lemma historyAfter_snoc (prompt : string) (recs : list (IterationRecord E))
      (rec : IterationRecord E) :
  historyAfter prompt (recs ++ [rec])
  = historyAfter prompt recs ++ turnsOf rec.
Proof.
  unfold historyAfter. rewrite flat_map_app. cbn [flat_map].
  rewrite app_nil_r. reflexivity.
Qed.

(** The call appended by a [Running] machine is aligned like the ones
    before it. *)
Lemma callsAligned_snoc (prompt : string) (cs : list InnerCall)
      (recs recs' : list (IterationRecord E)) (c : InnerCall) :
  List.length cs = List.length recs ->
  (forall i c0, nth_error cs i = Some c0 ->
                callIteration c0 = S i
                /\ callMode c0 = NonStreaming
                /\ callHistory c0 = historyAfter prompt (firstn i recs)) ->
  callIteration c = S (List.length recs) ->
  callMode c = NonStreaming ->
  callHistory c = historyAfter prompt recs ->
  firstn (List.length recs) recs' = recs ->
  (forall i, i <= List.length recs -> firstn i recs' = firstn i recs) ->
  forall i c0, nth_error (cs ++ [c]) i = Some c0 ->
               callIteration c0 = S i
               /\ callMode c0 = NonStreaming
               /\ callHistory c0 = historyAfter prompt (firstn i recs').
Proof.
  intros Hlen Hcalls Hit Hmode Hhist Hall Hfirst i c0 H.
  destruct (Nat.lt_ge_cases i (List.length cs)) as [Hlt | Hge].
  - rewrite nth_error_app1 in H by exact Hlt.
    rewrite Hfirst by lia. exact (Hcalls i c0 H).
  - rewrite nth_error_app2 in H by exact Hge.
    destruct (i - List.length cs) as [| j] eqn:Hj;
      [| destruct j; discriminate H].
    inversion H; subst c0.
    assert (i = List.length recs) by lia. subst i.
    rewrite Hall. repeat split; assumption.
Qed.

Lemma invariant_step_running (m : Machine E) :
  phase m = Running -> invariant m -> invariant (step cfg m).
Proof.
  destruct m as [ph it [prompt hist recs] w cs].
  cbn [phase]. intros -> [Hcalls Hphase].
  unfold phaseInvariant in Hphase. unfold callsAligned in Hcalls.
  cbn [phase state calls iteration records history originalPrompt] in *.
  destruct Hphase as (Hlen & Hit & Hhist & Hverd).
  unfold step. cbn [phase state calls iteration now records history
    originalPrompt].
  destruct (runInnerLoop E hist (tools cfg) (toolStopWhen cfg) w)
    as [[r | err] w1].
  - split.
    + unfold callsAligned.
      cbn [calls state records originalPrompt appendRecord appendTurn].
      apply (callsAligned_snoc prompt cs recs); try assumption;
        try reflexivity.
      * rewrite firstn_app, Nat.sub_diag, firstn_all. apply app_nil_r.
      * intros i Hi. apply firstn_before_last. exact Hi.
    + unfold phaseInvariant.
      cbn [phase calls state records history originalPrompt iteration
        appendRecord appendTurn].
      rewrite !length_app. cbn [List.length].
      repeat split; try lia.
      * rewrite historyAfter_snoc, Hhist. reflexivity.
      * eexists recs, _. repeat split. exact Hverd.
  - split; [| exact I].
    unfold callsAligned. cbn [calls state records originalPrompt].
    apply (callsAligned_snoc prompt cs recs); try assumption;
      try reflexivity.
    apply firstn_all.
Qed.

Lemma invariant_step_evaluating (m : Machine E) (r : GenResult E) :
  phase m = Evaluating r -> invariant m -> invariant (step cfg m).
Proof.
  destruct m as [ph it st w cs].
  cbn [phase]. intros -> [Hcalls Hphase].
  unfold phaseInvariant in Hphase. unfold callsAligned in Hcalls.
  cbn [phase state calls iteration] in *.
  destruct Hphase as (Hlen & Hit & Hhist & earlier & rec & Hrecs & Hnone
                      & Hgen & Hverd).
  unfold step. cbn [phase state calls iteration now].
  match goal with
  | |- context [evaluate cfg st ?input w] =>
      destruct (evaluate cfg st input w) as [[v | err] w1]
  end; [| split; [exact Hcalls | exact I]].
  pose proof (recordVerdict_last E v st earlier rec Hrecs) as Hrv.
  assert (Hrh : history (recordVerdict v st) = history st) by reflexivity.
  assert (Hrp : originalPrompt (recordVerdict v st) = originalPrompt st)
    by reflexivity.
  set (st' := recordVerdict v st) in *. clearbody st'.
  rewrite Hrecs, length_app in Hlen, Hit. cbn [List.length] in Hlen, Hit.
  assert (Haligned :
            forall i c,
              nth_error cs i = Some c ->
              callIteration c = S i
              /\ callMode c = NonStreaming
              /\ callHistory c
                 = historyAfter (originalPrompt st') (firstn i (records st'))).
  { intros i c H.
    assert (i < List.length cs) by (apply nth_error_Some; congruence).
    rewrite Hrp, Hrv, firstn_before_last by lia.
    rewrite <- (firstn_before_last i earlier rec) by lia.
    rewrite <- Hrecs. exact (Hcalls i c H). }
  assert (Hdone :
            List.length cs = List.length (records st')
            /\ it = List.length (records st')
            /\ exists earlier0 rec0,
                 records st' = earlier0 ++ [rec0]
                 /\ history st'
                    = historyAfter (originalPrompt st') earlier0
                        ++ [{| kind := OutputTurn;
                               text := resultText E (generation rec0) |}]).
  { rewrite Hrv, length_app. cbn [List.length].
    split; [exact Hlen |]. split; [exact Hit |].
    exists earlier, (withVerdict v rec). split; [reflexivity |].
    rewrite Hrh, Hrp, Hhist, Hrecs, historyAfter_snoc.
    unfold turnsOf. rewrite Hnone. reflexivity. }
  destruct (complete v); [split; [exact Haligned | exact Hdone] |].
  destruct (stopWhen cfg st'); [split; [exact Haligned | exact Hdone] |].
  destruct (abortSignalled E w1); [split; [exact Haligned | exact I] |].
  clear Hdone.
  assert (Hturns : turnsOf (withVerdict v rec)
                   = turnsOf rec
                       ++ match feedbackOf v with
                          | Some fb => [{| kind := FeedbackTurn;
                                           text := fb |}]
                          | None => []
                          end).
  { unfold turnsOf, withVerdict. cbn [verdict generation].
    rewrite Hnone. reflexivity. }
  assert (Hall : forall rec', In rec' (records st') -> verdict rec' <> None).
  { intros rec' Hin. rewrite Hrv in Hin. apply in_app_or in Hin.
    destruct Hin as [Hin | [<- | []]]; [exact (Hverd _ Hin) | discriminate]. }
  rewrite Hrecs, historyAfter_snoc in Hhist.
  split.
  - unfold callsAligned. cbn [calls state].
    destruct (feedbackOf v); exact Haligned.
  - unfold phaseInvariant. cbn [phase calls iteration state].
    destruct (feedbackOf v) as [fb |];
      cbn [appendTurn records history originalPrompt];
      rewrite ?Hrp, Hrv, ?Hrh, length_app; cbn [List.length];
      (repeat split; try lia;
       [ rewrite historyAfter_snoc, Hturns, Hhist, ?app_nil_r, <- ?app_assoc;
         reflexivity
       | rewrite <- Hrv; exact Hall ]).
Qed.

Lemma invariant_step (m : Machine E) :
  invariant m -> invariant (step cfg m).
Proof.
  intros Hinv. destruct (phase m) as [| | r | | |] eqn:Hphase.
  - (* Idle *)
    destruct m as [ph it [prompt hist recs] w cs].
    cbn [phase] in Hphase. subst ph.
    destruct Hinv as [_ Hidle]. unfold phaseInvariant in Hidle.
    cbn [phase state calls records history] in Hidle.
    destruct Hidle as (-> & -> & ->).
    split.
    + intros i c H. destruct i; discriminate H.
    + cbn. repeat split. intros rec [].
  - apply invariant_step_running; assumption.
  - apply (invariant_step_evaluating m r); assumption.
  - rewrite step_terminal by (rewrite Hphase; reflexivity). exact Hinv.
  - rewrite step_terminal by (rewrite Hphase; reflexivity). exact Hinv.
  - rewrite step_terminal by (rewrite Hphase; reflexivity). exact Hinv.
Qed.

Lemma invariant_iter (n : nat) (m : Machine E) :
  invariant m -> invariant (Nat.iter n (step cfg) m).
Proof.
  intros H. induction n as [| n IH]; [exact H |].
  cbn [Nat.iter nat_rect]. apply invariant_step. exact IH.
Qed.

End InvariantFacts.

Section StepFacts.

Variable E : Engine.
Variable cfg : Settings E.

Lemma step_idle (m : Machine E) :
  phase m = Idle ->
  step cfg m
  = {| phase := Running; iteration := 1;
       state := appendTurn PromptTurn (originalPrompt (state m)) (state m);
       now := now m; calls := calls m |}.
Proof. intros H. unfold step. rewrite H. reflexivity. Qed.

Lemma step_running_ok (m : Machine E) (r : GenResult E) (w1 : World E) :
  phase m = Running ->
  runInnerLoop E (history (state m)) (tools cfg) (toolStopWhen cfg) (now m)
  = (Ok r, w1) ->
  phase (step cfg m) = Evaluating r
  /\ iteration (step cfg m) = iteration m
  /\ calls (step cfg m)
     = calls m ++ [{| callIteration := iteration m;
                      callHistory := history (state m);
                      callMode := NonStreaming |}].
Proof.
  intros Hphase Hcall. unfold step. rewrite Hphase, Hcall.
  repeat split.
Qed.

Lemma step_running_throw (m : Machine E) (e : string) (w1 : World E) :
  phase m = Running ->
  runInnerLoop E (history (state m)) (tools cfg) (toolStopWhen cfg) (now m)
  = (Throw e, w1) ->
  step cfg m
  = {| phase := Aborted e; iteration := iteration m; state := state m;
       now := w1;
       calls := calls m ++ [{| callIteration := iteration m;
                               callHistory := history (state m);
                               callMode := NonStreaming |}] |}.
Proof. intros Hphase Hcall. unfold step. rewrite Hphase, Hcall. reflexivity. Qed.

Lemma step_evaluating_complete (m : Machine E) (r : GenResult E)
      (v : Verdict) (w1 : World E) :
  phase m = Evaluating r ->
  evaluate cfg (state m) (evalInputOf m r) (now m) = (Ok v, w1) ->
  complete v = true ->
  step cfg m
  = {| phase := Completed; iteration := iteration m;
       state := recordVerdict v (state m); now := w1; calls := calls m |}.
Proof.
  intros Hphase Heval Hv. unfold step. rewrite Hphase, Heval, Hv.
  reflexivity.
Qed.

Lemma step_evaluating_stop (m : Machine E) (r : GenResult E)
      (v : Verdict) (w1 : World E) :
  phase m = Evaluating r ->
  evaluate cfg (state m) (evalInputOf m r) (now m) = (Ok v, w1) ->
  complete v = false ->
  stopWhen cfg (recordVerdict v (state m)) = true ->
  step cfg m
  = {| phase := MaxIterationsReached; iteration := iteration m;
       state := recordVerdict v (state m); now := w1; calls := calls m |}.
Proof.
  intros Hphase Heval Hv Hstop. unfold step.
  rewrite Hphase, Heval, Hv, Hstop. reflexivity.
Qed.

Lemma step_evaluating_continue (m : Machine E) (r : GenResult E)
      (v : Verdict) (w1 : World E) :
  phase m = Evaluating r ->
  evaluate cfg (state m) (evalInputOf m r) (now m) = (Ok v, w1) ->
  complete v = false ->
  stopWhen cfg (recordVerdict v (state m)) = false ->
  abortSignalled E w1 = false ->
  step cfg m
  = {| phase := Running; iteration := S (iteration m);
       state := match feedbackOf v with
                | Some fb =>
                    appendTurn FeedbackTurn fb (recordVerdict v (state m))
                | None => recordVerdict v (state m)
                end;
       now := w1; calls := calls m |}.
Proof.
  intros Hphase Heval Hv Hstop Habort. unfold step.
  rewrite Hphase, Heval, Hv, Hstop, Habort. reflexivity.
Qed.

Lemma step_evaluating_throw (m : Machine E) (r : GenResult E)
      (e : string) (w1 : World E) :
  phase m = Evaluating r ->
  evaluate cfg (state m) (evalInputOf m r) (now m) = (Throw e, w1) ->
  step cfg m
  = {| phase := Aborted e; iteration := iteration m; state := state m;
       now := w1; calls := calls m |}.
Proof.
  intros Hphase Heval. unfold step. rewrite Hphase, Heval. reflexivity.
Qed.

(** The number of records of a machine under evaluation is its iteration
    index, and entering the verdict keeps it. *)
Lemma evaluating_records (m : Machine E) (r : GenResult E) (v : Verdict) :
  invariant m -> phase m = Evaluating r ->
  List.length (records (recordVerdict v (state m))) = iteration m
  /\ List.length (calls m) = iteration m.
Proof.
  intros [_ Hphase] Hev. unfold phaseInvariant in Hphase.
  rewrite Hev in Hphase.
  destruct Hphase as (Hlen & Hit & _ & earlier & rec & Hrecs & _).
  rewrite (recordVerdict_last E v _ earlier rec Hrecs).
  rewrite Hrecs in Hit, Hlen. rewrite length_app in *.
  cbn [List.length] in *. lia.
Qed.

Lemma aligned_iterations (m : Machine E) :
  callsAligned m ->
  map callIteration (calls m) = seq 1 (List.length (calls m)).
Proof.
  intros H. apply nth_error_ext. intros i.
  rewrite nth_error_map.
  destruct (nth_error (calls m) i) as [c |] eqn:Hc; cbn [option_map].
  - destruct (H i c Hc) as (Hit & _).
    assert (i < List.length (calls m)) by (apply nth_error_Some; congruence).
    symmetry. rewrite Hit.
    replace (S i) with (nth i (seq 1 (List.length (calls m))) 0)
      by (rewrite seq_nth; lia).
    apply nth_error_nth'. rewrite length_seq. assumption.
  - symmetry. apply nth_error_None. rewrite length_seq.
    apply nth_error_None. exact Hc.
Qed.

End StepFacts.

Section Driving.

Variable E : Engine.
Variable cfg : Settings E.
Variable K : nat.

Hypothesis Hinner : innerLoopSucceeds E.
Hypothesis Habort : neverAborted E.
Hypothesis Hincomplete : reportsIncomplete cfg (fun i => i < K).
Hypothesis Hcontinue :
  forall st, List.length (records st) < K -> stopWhen cfg st = false.

(** One full iteration that is followed by another. *)
Lemma advance (m : Machine E) :
  invariant m -> phase m = Running -> iteration m < K ->
  terminal (phase (step cfg m)) = false
  /\ phase (step cfg (step cfg m)) = Running
  /\ iteration (step cfg (step cfg m)) = S (iteration m).
Proof.
  intros Hinv Hrun Hlt.
  destruct (Hinner (history (state m)) (tools cfg) (toolStopWhen cfg)
                   (now m)) as (r & w1 & Hcall).
  destruct (step_running_ok E cfg m r w1 Hrun Hcall) as (Hph & Hit & _).
  pose proof (invariant_step E cfg m Hinv) as Hinv1.
  set (m1 := step cfg m) in *.
  destruct (Hincomplete (state m1) (evalInputOf m1 r) (now m1))
    as (v & w2 & Heval & Hv).
  { cbn [evalInputOf iterationIndex]. lia. }
  destruct (evaluating_records E m1 r v Hinv1 Hph) as [Hrecs _].
  rewrite (step_evaluating_continue E cfg m1 r v w2 Hph Heval Hv).
  - rewrite Hph. cbn [terminal phase iteration]. repeat split. lia.
  - apply Hcontinue. lia.
  - apply Habort.
Qed.

Lemma drive (d : nat) :
  forall m,
    invariant m -> phase m = Running -> iteration m + d = K ->
    exists mK,
      invariant mK /\ phase mK = Running /\ iteration mK = K
      /\ forall fuel, run cfg (2 * d + fuel) m = run cfg fuel mK.
Proof.
  induction d as [| d IH]; intros m Hinv Hrun Hit.
  - exists m. split; [exact Hinv |]. split; [exact Hrun |].
    split; [lia |]. intros fuel. reflexivity.
  - destruct (advance m Hinv Hrun) as (Hlive & Hph2 & Hit2); [lia |].
    destruct (IH (step cfg (step cfg m))) as (mK & HinvK & HphK & HitK & Hfuel).
    + apply invariant_step, invariant_step, Hinv.
    + exact Hph2.
    + lia.
    + exists mK. split; [exact HinvK |]. split; [exact HphK |].
      split; [exact HitK |]. intros fuel.
      replace (2 * S d + fuel) with (S (S (2 * d + fuel))) by lia.
      rewrite run_step by (rewrite Hrun; reflexivity).
      rewrite run_step by exact Hlive.
      apply Hfuel.
Qed.

(** From the start to the machine about to run iteration [K]. *)
Lemma reach (prompt : string) (w : World E) :
  1 <= K ->
  exists mK,
    invariant mK /\ phase mK = Running /\ iteration mK = K
    /\ forall fuel,
         run cfg (2 * K - 1 + fuel) (start E prompt w) = run cfg fuel mK.
Proof.
  intros HK.
  destruct (drive (K - 1) (step cfg (start E prompt w)))
    as (mK & HinvK & HphK & HitK & Hfuel).
  - apply invariant_step, invariant_start.
  - reflexivity.
  - cbn [step start phase iteration]. lia.
  - exists mK. split; [exact HinvK |]. split; [exact HphK |].
    split; [exact HitK |]. intros fuel.
    replace (2 * K - 1 + fuel) with (S (2 * (K - 1) + fuel)) by lia.
    rewrite run_step by reflexivity. apply Hfuel.
Qed.

End Driving.

Section Closing.

Variable E : Engine.
Variable cfg : Settings E.

Hypothesis Hinner : innerLoopSucceeds E.

(** The last iteration of a run that ends on a verdict. *)
Lemma close_on_verdict (m : Machine E) (final : Phase E) :
  invariant m -> phase m = Running ->
  (forall m1 r,
      invariant m1 -> phase m1 = Evaluating r ->
      iteration m1 = iteration m ->
      exists st w1,
        step cfg m1
        = {| phase := final; iteration := iteration m1; state := st;
             now := w1; calls := calls m1 |}
        /\ List.length (records st) = iteration m1) ->
  terminal final = true ->
  exists m',
    (forall fuel, run cfg (2 + fuel) m = Some m')
    /\ invariant m' /\ phase m' = final /\ iteration m' = iteration m
    /\ List.length (calls m') = iteration m
    /\ List.length (records (state m')) = iteration m.
Proof.
  intros Hinv Hrun Hlast Hfinal.
  destruct (Hinner (history (state m)) (tools cfg) (toolStopWhen cfg)
                   (now m)) as (r & w1 & Hcall).
  destruct (step_running_ok E cfg m r w1 Hrun Hcall) as (Hph & Hit & _).
  pose proof (invariant_step E cfg m Hinv) as Hinv1.
  set (m1 := step cfg m) in *.
  destruct (Hlast m1 r Hinv1 Hph Hit) as (st & w2 & Hstep & Hrecs).
  destruct (evaluating_records E m1 r {| complete := true; reason := None |}
                               Hinv1 Hph) as [_ Hcalls].
  exists (step cfg m1).
  split; [| split; [apply invariant_step; exact Hinv1 |]].
  - intros fuel. cbn [Nat.add].
    rewrite run_step by (rewrite Hrun; reflexivity).
    fold m1. rewrite run_step by (rewrite Hph; reflexivity).
    apply run_terminal. rewrite Hstep. exact Hfinal.
  - rewrite Hstep. cbn [phase iteration calls state].
    repeat split; congruence.
Qed.

End Closing.

Ltac case_inner :=
  cbv zeta;
  match goal with
  | |- context [runInnerLoop ?E ?h ?t ?s ?w] =>
      destruct (runInnerLoop E h t s w) as [[?r | ?e] ?w1]
  end.

Ltac case_eval :=
  cbv zeta;
  match goal with
  | |- context [evaluate ?cfg ?st ?input ?w] =>
      destruct (evaluate cfg st input w) as [[?v | ?e] ?w1]
  end.

Section Growth.

Variable E : Engine.
Variable cfg : Settings E.

Lemma step_grows (m : Machine E) :
  phase m <> Idle ->
  phase (step cfg m) <> Idle
  /\ iteration m <= iteration (step cfg m)
  /\ List.length (calls m) <= List.length (calls (step cfg m)).
Proof.
  intros Hstarted. unfold step.
  destruct (phase m) as [| | r | | |] eqn:Hphase;
    [contradiction | | | | |];
    try (rewrite Hphase; repeat split; (discriminate || lia)).
  - case_inner; cbn [phase iteration calls]; rewrite length_app;
      cbn [List.length]; repeat split; (discriminate || lia).
  - case_eval; cbn [phase iteration calls];
      [| repeat split; (discriminate || lia)].
    destruct (complete v); cbn [phase iteration calls];
      [repeat split; (discriminate || lia) |].
    destruct (stopWhen cfg _); cbn [phase iteration calls];
      [repeat split; (discriminate || lia) |].
    destruct (abortSignalled E w1); cbn [phase iteration calls];
      repeat split; (discriminate || lia).
Qed.

Lemma run_grows (fuel : nat) :
  forall m m',
    phase m <> Idle ->
    run cfg fuel m = Some m' ->
    iteration m <= iteration m'
    /\ List.length (calls m) <= List.length (calls m').
Proof.
  induction fuel as [| fuel IH]; intros m m' Hstarted; cbn [run];
    destruct (terminal (phase m)); intros H; try discriminate H;
    try (inversion H; subst; lia).
  destruct (step_grows m Hstarted) as (Hnext & Hit & Hcalls).
  destruct (IH _ _ Hnext H). lia.
Qed.

(** Whatever the collaborators do, a run that ends has started its
    first iteration and invoked the inner loop for it. *)
Lemma first_iteration_runs (fuel : nat) (prompt : string) (w : World E)
      (m : Machine E) :
  loopMachine cfg fuel prompt w = Some m ->
  1 <= iteration m /\ 1 <= List.length (calls m).
Proof.
  unfold loopMachine. intros H.
  destruct fuel as [| fuel]; [discriminate H |].
  rewrite run_step in H by reflexivity.
  destruct fuel as [| fuel]; [discriminate H |].
  rewrite run_step in H by reflexivity.
  apply run_grows in H.
  - revert H.
    cbn [step start phase state history appendTurn originalPrompt iteration
      calls now].
    case_inner; cbn [iteration calls app List.length]; lia.
  - cbn [step start phase state history appendTurn originalPrompt iteration
      calls now].
    case_inner; discriminate.
Qed.

Lemma resultOf_iterations (m : Machine E) (r : LoopResult E) :
  resultOf m = Some r ->
  iterations r = iteration m
  /\ allIterationResults r = map generation (records (state m))
  /\ match phase m with
     | Completed => completionReason r = Verified /\ error r = None
     | MaxIterationsReached =>
         completionReason r = MaxIterations /\ error r = None
     | Aborted e => completionReason r = AbortedRun /\ error r = Some e
     | _ => False
     end.
Proof.
  unfold resultOf. destruct (phase m); intros H; try discriminate H;
    inversion H; subst; cbn; repeat split.
Qed.

End Growth.

(** C1.  With [maxIterations = N], [N >= 1], an evaluator that reports
    incomplete on every iteration (an inner loop that returns, and no abort
    signal), [loop] returns once the fuel covers its [2 N + 1] transitions:
    it has run exactly [N] iterations, one inner-loop call each, and the
    reason is 'max-iterations'; [N = 1] gives exactly one generation call.
    And whatever the stop condition, the evaluator and the inner loop do, a
    [loop] that returns has run its first iteration: [iterations >= 1], with
    an inner-loop call made for it. *)
Theorem loop_runs_to_max_iterations
        (E : Engine) (cfg : Settings E) (prompt : string) (w : World E) :
  (forall fuel m r,
      loopMachine cfg fuel prompt w = Some m ->
      loop cfg fuel prompt w = Some r ->
      1 <= iterations r /\ 1 <= List.length (calls m))
  /\ forall N,
      1 <= N ->
      maxIterationsIs cfg N ->
      innerLoopSucceeds E ->
      neverAborted E ->
      reportsIncomplete cfg (fun _ => True) ->
      exists m r,
        (forall fuel,
            2 * N + 1 <= fuel ->
            loopMachine cfg fuel prompt w = Some m
            /\ loop cfg fuel prompt w = Some r)
        /\ iterations r = N
        /\ completionReason r = MaxIterations
        /\ List.length (allIterationResults r) = N
        /\ map callIteration (calls m) = seq 1 N
        /\ Forall (fun c => callMode c = NonStreaming) (calls m).
Proof.
  split.
  - intros fuel m r Hm Hr. unfold loop in Hr. rewrite Hm in Hr.
    destruct (resultOf_iterations E m r Hr) as (-> & _).
    exact (first_iteration_runs E cfg fuel prompt w m Hm).
  - intros N HN Hmax Hinner Habort Hinc.
    destruct (reach E cfg N Hinner Habort) with (prompt := prompt) (w := w)
      as (mN & HinvN & HphN & HitN & Hfuel); try assumption.
    { intros st input w0 _. apply Hinc. exact I. }
    { intros st Hlt. rewrite Hmax. unfold iterationCountIs.
      apply Nat.leb_gt. exact Hlt. }
    destruct (close_on_verdict E cfg Hinner mN MaxIterationsReached HinvN HphN)
      as (m' & Hrun & Hinv' & Hph' & Hit' & Hcalls' & Hrecs');
      [| reflexivity |].
    { intros m1 r Hinv1 Hph1 Hit1.
      destruct (Hinc (state m1) (evalInputOf m1 r) (now m1) I)
        as (v & w2 & Heval & Hv).
      destruct (evaluating_records E m1 r v Hinv1 Hph1) as [Hrecs _].
      exists (recordVerdict v (state m1)), w2. split; [| exact Hrecs].
      apply (step_evaluating_stop E cfg m1 r v w2 Hph1 Heval Hv).
      rewrite Hmax. unfold iterationCountIs. apply Nat.leb_le. lia. }
    assert (Hres : resultOf m' = Some (summary MaxIterations None m'))
      by (unfold resultOf; rewrite Hph'; reflexivity).
    exists m', (summary MaxIterations None m').
    split; [| cbn [summary iterations completionReason allIterationResults];
              rewrite length_map;
              repeat split; try lia;
              [rewrite (aligned_iterations E m' (proj1 Hinv')); congruence
              | apply Forall_forall; intros c Hc;
                apply In_nth_error in Hc; destruct Hc as [i Hc];
                exact (proj1 (proj2 (proj1 Hinv' i c Hc)))]].
    intros fuel Hge.
    assert (Hm : loopMachine cfg fuel prompt w = Some m').
    { unfold loopMachine.
      apply (run_more E cfg (2 * N - 1 + 2)); [| lia].
      rewrite Hfuel. apply (Hrun 0). }
    split; [exact Hm |]. unfold loop. rewrite Hm. exact Hres.
Qed.

Lemma loop_runs_to_max_iterations_witness :
  maxIterationsIs LoopFixture.retryOnce 1
  /\ exists m r,
       (forall fuel,
           2 * 1 + 1 <= fuel ->
           loopMachine LoopFixture.retryOnce
                       fuel "do it" 0 = Some m
           /\ loop LoopFixture.retryOnce
                   fuel "do it" 0 = Some r)
       /\ iterations r = 1
       /\ completionReason r = MaxIterations
       /\ List.length (allIterationResults r) = 1
       /\ map callIteration (calls m) = seq 1 1
       /\ Forall (fun c => callMode c = NonStreaming) (calls m).
Proof.
  split; [intros st; reflexivity |].
  apply (proj2 (loop_runs_to_max_iterations
                  LoopFixture.engine
                  LoopFixture.retryOnce
                  "do it" 0) 1).
  - lia.
  - intros st. reflexivity.
  - intros h t s w. eexists _, _. reflexivity.
  - intros w. reflexivity.
  - intros st input w _. eexists _, _. split; reflexivity.
Defined.

(** With [maxIterations = N] no iteration past the [N]-th is started (the
    first one always is). *)
Lemma iteration_within_bound
      (E : Engine) (cfg : Settings E) (N : nat) (prompt : string)
      (w : World E) (n : nat) :
  maxIterationsIs cfg N ->
  iteration (Nat.iter n (step cfg) (start E prompt w)) <= Nat.max 1 N.
Proof.
  intros Hmax. induction n as [| n IH]; [cbn; lia |].
  cbn [Nat.iter nat_rect].
  pose proof (invariant_iter E cfg n _ (invariant_start E prompt w)) as Hinv.
  fold (Nat.iter n (step cfg) (start E prompt w)).
  set (m := Nat.iter n (step cfg) (start E prompt w)) in *.
  unfold step.
  destruct (phase m) as [| | r | | |] eqn:Hphase;
    cbn [iteration]; try exact IH; try lia.
  - case_inner; cbn [iteration]; exact IH.
  - destruct (evaluate cfg (state m) (evalInputOf m r) (now m))
      as [[v | e] w1] eqn:Heval; cbn [iteration]; [| exact IH].
    destruct (complete v); cbn [iteration]; [exact IH |].
    destruct (stopWhen cfg (recordVerdict v (state m))) eqn:Hstop;
      cbn [iteration]; [exact IH |].
    destruct (abortSignalled E w1); cbn [iteration]; [exact IH |].
    rewrite Hmax in Hstop. unfold iterationCountIs in Hstop.
    apply Nat.leb_gt in Hstop.
    destruct (evaluating_records E m r v Hinv Hphase) as [Hrecs _].
    lia.
Qed.

(** C2.  Whatever the stop condition (so for every [maxIterations = N],
    under which an iteration [k] under evaluation has [k <= N]), whichever
    the evaluator variant: if the evaluator returns a verdict with
    [complete = true] while iteration [k] is under evaluation, [loop]
    returns with reason 'verified' and [iterations = k]; the inner loop has
    been invoked for the iterations [1 .. k] and is not invoked again after
    the verdict, so iteration [k + 1] is never started. *)
Theorem loop_stops_when_verified
        (E : Engine) (cfg : Settings E) (prompt : string) (w : World E)
        (n : nat) (r : GenResult E) (v : Verdict) (w' : World E) :
  let m := Nat.iter n (step cfg) (start E prompt w) in
  phase m = Evaluating r ->
  evaluate cfg (state m) (evalInputOf m r) (now m) = (Ok v, w') ->
  complete v = true ->
  (forall N, maxIterationsIs cfg N -> iteration m <= Nat.max 1 N)
  /\ forall fuel,
      n < fuel ->
      exists m' res,
        loopMachine cfg fuel prompt w = Some m'
        /\ loop cfg fuel prompt w = Some res
        /\ phase m' = Completed
        /\ completionReason res = Verified
        /\ iterations res = iteration m
        /\ List.length (allIterationResults res) = iteration m
        /\ calls m' = calls m
        /\ map callIteration (calls m') = seq 1 (iteration m)
        /\ Forall (fun c => callIteration c <= iteration m) (calls m').
Proof.
  intros m Hphase Heval Hv.
  split; [intros N Hmax; apply iteration_within_bound; exact Hmax |].
  intros fuel Hfuel.
  pose proof (step_evaluating_complete E cfg m r v w' Hphase Heval Hv)
    as Hstep.
  assert (Hinv : invariant m)
    by (apply invariant_iter, invariant_start).
  destruct (evaluating_records E m r v Hinv Hphase) as [Hrecs Hcalls].
  set (m' := {| phase := Completed; iteration := iteration m;
                state := recordVerdict v (state m); now := w';
                calls := calls m |}) in *.
  assert (Hm : loopMachine cfg fuel prompt w = Some m').
  { unfold loopMachine.
    replace fuel with (n + S (fuel - S n)) by lia.
    rewrite run_iter by (fold m; rewrite Hphase; reflexivity).
    fold m. rewrite run_step by (rewrite Hphase; reflexivity).
    rewrite Hstep. apply run_terminal. reflexivity. }
  assert (Hits : map callIteration (calls m) = seq 1 (iteration m))
    by (rewrite (aligned_iterations E m (proj1 Hinv)); congruence).
  exists m', (summary Verified None m').
  split; [exact Hm |].
  split; [unfold loop; rewrite Hm; reflexivity |].
  cbn [summary iterations completionReason allIterationResults m' phase
         iteration state calls].
  rewrite length_map.
  split; [reflexivity |]. split; [reflexivity |]. split; [reflexivity |].
  split; [exact Hrecs |]. split; [reflexivity |]. split; [exact Hits |].
  apply Forall_forall. intros c Hc.
  assert (Hin : In (callIteration c) (seq 1 (iteration m)))
    by (rewrite <- Hits; apply in_map; exact Hc).
  apply in_seq in Hin. lia.
Qed.

Lemma loop_stops_when_verified_witness :
  phase (Nat.iter 4 (step LoopFixture.selfJudged)
                  (start LoopFixture.judgingEngine "do it" 0))
  = @Evaluating LoopFixture.judgingEngine "draft 3"
  /\ iteration (Nat.iter 4 (step LoopFixture.selfJudged)
                         (start LoopFixture.judgingEngine "do it" 0)) = 2
  /\ maxIterationsIs LoopFixture.selfJudged 5
  /\ exists m' res,
       loopMachine LoopFixture.selfJudged 5 "do it" 0 = Some m'
       /\ loop LoopFixture.selfJudged 5 "do it" 0 = Some res
       /\ phase m' = Completed
       /\ completionReason res = Verified
       /\ iterations res = 2
       /\ List.length (allIterationResults res) = 2
       /\ List.length (calls m') = 2
       /\ map callIteration (calls m') = [1; 2]
       /\ Forall (fun c => callIteration c <= 2) (calls m').
Proof.
  split; [reflexivity |]. split; [reflexivity |].
  split; [intros st; reflexivity |].
  destruct (proj2 (loop_stops_when_verified
                     LoopFixture.judgingEngine LoopFixture.selfJudged
                     "do it" 0 4
                     "draft 3" {| complete := true; reason := Some "YES" |} 4
                     eq_refl eq_refl eq_refl) 5)
    as (m' & res & Hm & Hres & Hph & Hwhy & Hit & Hlen & Hcalls & Hits & Hall);
    [lia |].
  exists m', res.
  split; [exact Hm |]. split; [exact Hres |]. split; [exact Hph |].
  split; [exact Hwhy |]. split; [exact Hit |]. split; [exact Hlen |].
  split; [rewrite Hcalls; reflexivity |].
  split; [exact Hits | exact Hall].
Defined.

(** ** Determinism *)

Section Determinism.

Variable E : Engine.
Variable cfg : Settings E.

Hypothesis Hstubs : deterministicStubs cfg.

Lemma Forall2_rev {A B : Type} (R : A -> B -> Prop) (l1 : list A)
      (l2 : list B) :
  Forall2 R l1 l2 -> Forall2 R (rev l1) (rev l2).
Proof.
  induction 1 as [| x y l1 l2 Hxy Hrest IH]; [constructor |].
  cbn [rev]. apply Forall2_app; [exact IH |]. repeat constructor. exact Hxy.
Qed.

Lemma sameState_appendTurn (k : TurnKind) (t : string)
      (s1 s2 : LoopState E) :
  sameState s1 s2 -> sameState (appendTurn k t s1) (appendTurn k t s2).
Proof.
  intros (Hp & Hh & Hr). unfold sameState, appendTurn.
  cbn [originalPrompt history records]. rewrite Hh. repeat split; assumption.
Qed.

Lemma sameState_appendRecord (r1 r2 : IterationRecord E)
      (s1 s2 : LoopState E) :
  sameRecord r1 r2 -> sameState s1 s2 ->
  sameState (appendRecord r1 s1) (appendRecord r2 s2).
Proof.
  intros Hrec (Hp & Hh & Hr). unfold sameState, appendRecord.
  cbn [originalPrompt history records].
  split; [exact Hp |]. split; [exact Hh |].
  apply Forall2_app; [exact Hr |].
  constructor; [exact Hrec | constructor].
Qed.

Lemma sameState_recordVerdict (v : Verdict) (s1 s2 : LoopState E) :
  sameState s1 s2 -> sameState (recordVerdict v s1) (recordVerdict v s2).
Proof.
  intros (Hp & Hh & Hr). unfold sameState, recordVerdict.
  cbn [originalPrompt history records].
  split; [exact Hp |]. split; [exact Hh |].
  apply Forall2_rev in Hr.
  destruct Hr as [| r1 r2 l1 l2 (Hi & Hg & _) Hrest]; [constructor |].
  apply Forall2_app; [apply Forall2_rev; exact Hrest |].
  repeat constructor; assumption.
Qed.

Lemma sameMachine_terminal (m1 m2 : Machine E) :
  sameMachine m1 m2 -> terminal (phase m1) = terminal (phase m2).
Proof. intros (Hph & _). rewrite Hph. reflexivity. Qed.

Ltac same_machine H :=
  split; [reflexivity |];
  split; [reflexivity |];
  split; [exact H | reflexivity].

(** Machines in the same state of the loop take the same transition. *)
Lemma sameMachine_step (m1 m2 : Machine E) :
  sameMachine m1 m2 -> sameMachine (step cfg m1) (step cfg m2).
Proof.
  destruct Hstubs as (Hinner & Heval & Hstop & Habort).
  intros (Hph & Hit & Hst & Hcalls).
  unfold step. rewrite <- Hph.
  destruct (phase m1) as [| | r | | |] eqn:Hphase.
  - (* Idle *)
    destruct Hst as (Hp & Hh & Hr).
    repeat split; cbn [phase iteration state calls]; try assumption.
    + cbn [appendTurn history]. rewrite Hp, Hh. reflexivity.
  - (* Running *)
    destruct Hst as (Hp & Hh & Hr). rewrite <- Hh, <- Hit, <- Hcalls.
    pose proof (Hinner (history (state m1)) (tools cfg) (toolStopWhen cfg)
                       (now m1) (now m2)) as Hsame.
    destruct (runInnerLoop E (history (state m1)) (tools cfg)
                (toolStopWhen cfg) (now m1)) as [[r1 | e1] w1];
      destruct (runInnerLoop E (history (state m1)) (tools cfg)
                  (toolStopWhen cfg) (now m2)) as [[r2 | e2] w2];
      cbn [fst] in Hsame; try discriminate Hsame;
      inversion Hsame; subst.
    + split; [reflexivity |]. split; [reflexivity |].
      split; [| reflexivity].
      apply sameState_appendRecord.
      * repeat split.
      * apply sameState_appendTurn. repeat split; assumption.
    + same_machine (conj Hp (conj Hh Hr)).
  - (* Evaluating *)
    rewrite <- Hit, <- Hcalls.
    assert (Hin : sameInput (evalInputOf m1 r) (evalInputOf m2 r)).
    { destruct Hst as (Hp & Hh & Hr).
      unfold sameInput, evalInputOf.
      cbn [latestResult iterationIndex allIterationRecords evalPrompt].
      repeat split; assumption. }
    pose proof (Heval (state m1) (state m2) _ _ (now m1) (now m2) Hst Hin)
      as Hsame.
    destruct (evaluate cfg (state m1) (evalInputOf m1 r) (now m1))
      as [[v1 | e1] w1];
      destruct (evaluate cfg (state m2) (evalInputOf m2 r) (now m2))
        as [[v2 | e2] w2];
      cbn [fst] in Hsame; try discriminate Hsame;
      inversion Hsame; subst.
    + pose proof (sameState_recordVerdict v2 _ _ Hst) as Hst'.
      destruct (complete v2); [same_machine Hst' |].
      rewrite <- (Hstop _ _ Hst').
      destruct (stopWhen cfg (recordVerdict v2 (state m1)));
        [same_machine Hst' |].
      rewrite <- (Habort w1 w2).
      destruct (abortSignalled E w1); [same_machine Hst' |].
      split; [reflexivity |]. split; [reflexivity |].
      split; [| reflexivity]. cbn [state].
      destruct (feedbackOf v2);
        [apply sameState_appendTurn |]; exact Hst'.
    + same_machine Hst.
  - split; [congruence | split; [assumption | split; assumption]].
  - split; [congruence | split; [assumption | split; assumption]].
  - split; [congruence | split; [assumption | split; assumption]].
Qed.

Lemma sameMachine_run (fuel1 : nat) :
  forall fuel2 m1 m2 m1' m2',
    sameMachine m1 m2 ->
    run cfg fuel1 m1 = Some m1' ->
    run cfg fuel2 m2 = Some m2' ->
    sameMachine m1' m2'.
Proof.
  induction fuel1 as [| fuel1 IH]; intros fuel2 m1 m2 m1' m2' Hsame H1 H2;
    pose proof (sameMachine_terminal m1 m2 Hsame) as Hterm;
    cbn [run] in H1; destruct (terminal (phase m1)) eqn:Ht1;
    try discriminate H1.
  - rewrite run_terminal in H2 by congruence.
    inversion H1; inversion H2; subst. exact Hsame.
  - rewrite run_terminal in H2 by congruence.
    inversion H1; inversion H2; subst. exact Hsame.
  - destruct fuel2 as [| fuel2];
      cbn [run] in H2; rewrite <- Hterm in H2; [discriminate H2 |].
    exact (IH fuel2 _ _ _ _ (sameMachine_step m1 m2 Hsame) H1 H2).
Qed.

End Determinism.



(** ** Errors of the evaluator *)

Lemma evaluatorRaises_evaluate
      (E : Engine) (cfg : Settings E) (m : Machine E) (r : GenResult E)
      (e : string) (w' : World E) :
  evaluatorRaises cfg m r e w' ->
  evaluate cfg (state m) (evalInputOf m r) (now m) = (Throw e, w').
Proof.
  unfold evaluatorRaises, evaluate, judge.
  destruct (evaluator cfg) as [question | who question | fn];
    intros H; rewrite H; reflexivity.
Qed.

(** C3.  Whichever the evaluator variant, if the evaluator call raises
    while iteration [k] is under evaluation (the generation request of a
    self-judge or judge-model fails, the callback throws), [loop] returns
    with reason 'aborted' and the raised error attached, [iterations = k],
    and the inner loop has been invoked for the iterations [1 .. k] only:
    the error is not read as a negative verdict and no iteration follows. *)
Theorem evaluator_error_aborts
        (E : Engine) (cfg : Settings E) (prompt : string) (w : World E)
        (n : nat) (r : GenResult E) (e : string) (w' : World E) :
  let m := Nat.iter n (step cfg) (start E prompt w) in
  phase m = Evaluating r ->
  evaluatorRaises cfg m r e w' ->
  forall fuel,
    n < fuel ->
    exists m' res,
      loopMachine cfg fuel prompt w = Some m'
      /\ loop cfg fuel prompt w = Some res
      /\ phase m' = Aborted e
      /\ completionReason res = AbortedRun
      /\ error res = Some e
      /\ iterations res = iteration m
      /\ calls m' = calls m
      /\ map callIteration (calls m') = seq 1 (iteration m).
Proof.
  intros m Hphase Hraise fuel Hfuel.
  pose proof (evaluatorRaises_evaluate E cfg m r e w' Hraise) as Heval.
  pose proof (step_evaluating_throw E cfg m r e w' Hphase Heval) as Hstep.
  assert (Hinv : invariant m)
    by (apply invariant_iter, invariant_start).
  destruct (evaluating_records E m r {| complete := true; reason := None |}
                               Hinv Hphase) as [_ Hcalls].
  set (m' := {| phase := Aborted e; iteration := iteration m;
                state := state m; now := w'; calls := calls m |}) in *.
  assert (Hm : loopMachine cfg fuel prompt w = Some m').
  { unfold loopMachine.
    replace fuel with (n + S (fuel - S n)) by lia.
    rewrite run_iter by (fold m; rewrite Hphase; reflexivity).
    fold m. rewrite run_step by (rewrite Hphase; reflexivity).
    rewrite Hstep. apply run_terminal. reflexivity. }
  exists m', (summary AbortedRun (Some e) m').
  split; [exact Hm |].
  split; [unfold loop; rewrite Hm; reflexivity |].
  repeat split.
  cbn [calls m']. rewrite (aligned_iterations E m (proj1 Hinv)).
  congruence.
Qed.

Lemma evaluator_error_aborts_witness :
  phase (Nat.iter 2 (step LoopFixture.crashingJudge)
                  (start LoopFixture.engine "do it" 0))
  = @Evaluating LoopFixture.engine "draft 1"
  /\ @evaluatorRaises LoopFixture.engine LoopFixture.crashingJudge
       (Nat.iter 2 (step LoopFixture.crashingJudge)
                 (start LoopFixture.engine "do it" 0))
       "draft 1" "evaluator crashed" 1
  /\ exists m' res,
       loopMachine LoopFixture.crashingJudge 3 "do it" 0 = Some m'
       /\ loop LoopFixture.crashingJudge 3 "do it" 0 = Some res
       /\ phase m' = Aborted "evaluator crashed"
       /\ completionReason res = AbortedRun
       /\ error res = Some "evaluator crashed"
       /\ iterations res = 1
       /\ List.length (calls m') = 1
       /\ map callIteration (calls m') = [1].
Proof.
  split; [reflexivity |]. split; [reflexivity |].
  destruct (evaluator_error_aborts
              LoopFixture.engine LoopFixture.crashingJudge "do it" 0 2
              "draft 1" "evaluator crashed" 1 eq_refl eq_refl 3)
    as (m' & res & Hm & Hres & Hph & Hwhy & Herr & Hit & Hcalls & Hits);
    [lia |].
  exists m', res. rewrite Hcalls.
  repeat split; assumption.
Defined.

(** The judges fail alike: a generation request that throws aborts the
    run of a self-judge. *)
Example self_judge_network_failure :
  @evaluatorRaises LoopFixture.engine LoopFixture.selfJudging
    (Nat.iter 2 (step LoopFixture.selfJudging)
              (start LoopFixture.engine "do it" 0))
    "draft 1" "network down" 2
  /\ option_map (fun res => (completionReason res, error res, iterations res))
                (loop LoopFixture.selfJudging 3 "do it" 0)
     = Some (AbortedRun, Some "network down", 1).
Proof. split; reflexivity. Qed.

(** ** Feedback and the history *)

Lemma firstn_snoc_nth_error {A : Type} (l : list A) :
  forall i x, nth_error l i = Some x -> firstn (S i) l = firstn i l ++ [x].
Proof.
  induction l as [| y l IH]; intros [| i] x H; try discriminate H.
  - inversion H; subst. reflexivity.
  - cbn [firstn app]. f_equal. apply IH. exact H.
Qed.

Section IndexFacts.

Variable E : Engine.
Variable cfg : Settings E.

Lemma recordsIndexed_snoc (recs : list (IterationRecord E))
      (rec : IterationRecord E) :
  (forall i r, nth_error recs i = Some r -> index r = S i) ->
  index rec = S (List.length recs) ->
  forall i r, nth_error (recs ++ [rec]) i = Some r -> index r = S i.
Proof.
  intros Hrecs Hrec i r H.
  destruct (Nat.lt_ge_cases i (List.length recs)) as [Hlt | Hge].
  - rewrite nth_error_app1 in H by exact Hlt. exact (Hrecs i r H).
  - rewrite nth_error_app2 in H by exact Hge.
    destruct (i - List.length recs) as [| j] eqn:Hj;
      [| destruct j; discriminate H].
    inversion H; subst r. rewrite Hrec. lia.
Qed.

Lemma recordsIndexed_step (m : Machine E) :
  invariant m -> recordsIndexed m -> recordsIndexed (step cfg m).
Proof.
  intros [_ Hphase] Hidx. unfold phaseInvariant in Hphase.
  unfold recordsIndexed in *. unfold step.
  destruct (phase m) as [| | r | | |]; try exact Hidx.
  - destruct Hphase as (_ & Hit & _).
    case_inner; cbn [state records appendRecord appendTurn];
      [| exact Hidx].
    apply recordsIndexed_snoc; [exact Hidx | exact Hit].
  - destruct Hphase as (_ & _ & _ & earlier & rec & Hrecs & _).
    case_eval; [| exact Hidx].
    assert (Hnew : forall i r0,
               nth_error (records (recordVerdict v (state m))) i = Some r0 ->
               index r0 = S i).
    { rewrite (recordVerdict_last E v _ earlier rec Hrecs).
      rewrite Hrecs in Hidx.
      apply recordsIndexed_snoc.
      - intros i r0 H. apply Hidx. rewrite nth_error_app1; [exact H |].
        apply nth_error_Some. congruence.
      - cbn [withVerdict index]. apply Hidx.
        rewrite nth_error_app2, Nat.sub_diag by lia. reflexivity. }
    destruct (complete v); [exact Hnew |].
    destruct (stopWhen cfg _); [exact Hnew |].
    destruct (abortSignalled E w1); [exact Hnew |].
    cbn [state]. destruct (feedbackOf v); exact Hnew.
Qed.

End IndexFacts.

Lemma recordsIndexed_iter (E : Engine) (cfg : Settings E) (n : nat)
      (prompt : string) (w : World E) :
  recordsIndexed (Nat.iter n (step cfg) (start E prompt w)).
Proof.
  induction n as [| n IH].
  - intros i rec H. destruct i; discriminate H.
  - cbn [Nat.iter nat_rect]. apply recordsIndexed_step; [| exact IH].
    apply invariant_iter, invariant_start.
Qed.

Lemma occurrences_app (t : Turn) (h1 h2 : list Turn) :
  occurrences t (h1 ++ h2) = occurrences t h1 + occurrences t h2.
Proof. unfold occurrences. rewrite filter_app, length_app. reflexivity. Qed.

(** C4.  At any point of a run, let iteration [i + 1] have received a
    verdict that is not complete and carries feedback, and let iteration
    [i + 2] have been started.  Then the history passed to iteration [i + 2]
    is the history passed to iteration [i + 1], unchanged, followed by two
    new turns: the output of iteration [i + 1] and the feedback.  The
    feedback turn is a new one: it sits past the end of the earlier history,
    and the later history holds exactly one more turn with that feedback
    than the earlier one (which may hold some, when the same text was sent
    before).  The earlier turns are all kept, in place. *)
Theorem feedback_is_appended
        (E : Engine) (cfg : Settings E) (prompt : string) (w : World E)
        (n i : nat) (c c' : InnerCall) (rec : IterationRecord E)
        (v : Verdict) (fb : string) :
  let m := Nat.iter n (step cfg) (start E prompt w) in
  nth_error (calls m) i = Some c ->
  nth_error (calls m) (S i) = Some c' ->
  nth_error (records (state m)) i = Some rec ->
  verdict rec = Some v ->
  complete v = false ->
  reason v = Some fb ->
  callIteration c = S i
  /\ index rec = S i
  /\ callIteration c' = S (S i)
  /\ callHistory c'
     = callHistory c
         ++ [{| kind := OutputTurn; text := resultText E (generation rec) |};
             {| kind := FeedbackTurn; text := fb |}]
  /\ nth_error (callHistory c') (S (List.length (callHistory c)))
     = Some {| kind := FeedbackTurn; text := fb |}
  /\ occurrences {| kind := FeedbackTurn; text := fb |} (callHistory c')
     = S (occurrences {| kind := FeedbackTurn; text := fb |} (callHistory c))
  /\ firstn (List.length (callHistory c)) (callHistory c') = callHistory c.
Proof.
  intros m Hc Hc' Hrec Hv Hincomplete Hfb.
  assert (Hinv : invariant m)
    by (apply invariant_iter, invariant_start).
  destruct Hinv as [Haligned _].
  destruct (Haligned i c Hc) as (Hit & _ & Hh).
  destruct (Haligned (S i) c' Hc') as (Hit' & _ & Hh').
  rewrite (firstn_snoc_nth_error _ i rec Hrec), historyAfter_snoc in Hh'.
  assert (Hturns : turnsOf rec
                   = [{| kind := OutputTurn;
                         text := resultText E (generation rec) |};
                      {| kind := FeedbackTurn; text := fb |}]).
  { unfold turnsOf, feedbackOf. rewrite Hv, Hincomplete, Hfb. reflexivity. }
  rewrite Hturns, <- Hh in Hh'.
  split; [exact Hit |].
  split; [exact (recordsIndexed_iter E cfg n prompt w i rec Hrec) |].
  split; [exact Hit' |]. split; [exact Hh' |].
  rewrite Hh'. split; [| split].
  - rewrite nth_error_app2 by lia.
    replace (S (List.length (callHistory c)) - List.length (callHistory c))
      with 1 by lia.
    reflexivity.
  - rewrite occurrences_app. unfold occurrences at 2.
    cbn [filter sameTurn kind text List.length].
    rewrite String.eqb_refl. cbn [List.length]. lia.
  - rewrite firstn_app, Nat.sub_diag, firstn_all. apply app_nil_r.
Qed.

Lemma feedback_is_appended_witness :
  exists c c' rec,
    nth_error (calls (Nat.iter 6 (step LoopFixture.retryThrice)
                               (start LoopFixture.engine "do it" 0))) 1
    = Some c
    /\ nth_error (calls (Nat.iter 6 (step LoopFixture.retryThrice)
                                  (start LoopFixture.engine "do it" 0))) 2
       = Some c'
    /\ nth_error (records (state (Nat.iter 6 (step LoopFixture.retryThrice)
                                           (start LoopFixture.engine
                                                  "do it" 0)))) 1
       = Some rec
    /\ callIteration c = 2
    /\ index rec = 2
    /\ callIteration c' = 3
    /\ callHistory c'
       = callHistory c
           ++ [{| kind := OutputTurn;
                  text := resultText LoopFixture.engine (generation rec) |};
               {| kind := FeedbackTurn; text := "retry" |}]
    /\ nth_error (callHistory c') (S (List.length (callHistory c)))
       = Some {| kind := FeedbackTurn; text := "retry" |}
    /\ occurrences {| kind := FeedbackTurn; text := "retry" |} (callHistory c)
       = 1
    /\ occurrences {| kind := FeedbackTurn; text := "retry" |} (callHistory c')
       = S (occurrences {| kind := FeedbackTurn; text := "retry" |}
                        (callHistory c))
    /\ firstn (List.length (callHistory c)) (callHistory c') = callHistory c.
Proof.
  eexists _, _, _.
  split; [reflexivity |]. split; [reflexivity |]. split; [reflexivity |].
  destruct (feedback_is_appended
              LoopFixture.engine LoopFixture.retryThrice "do it" 0 6 1
              _ _ _ {| complete := false; reason := Some "retry" |} "retry"
              eq_refl eq_refl eq_refl eq_refl eq_refl eq_refl)
    as (H1 & H2 & H3 & H4 & H5 & H6 & H7).
  split; [exact H1 |]. split; [exact H2 |]. split; [exact H3 |].
  split; [exact H4 |]. split; [exact H5 |]. split; [reflexivity |].
  split; [exact H6 | exact H7].
Defined.

(** ** The streaming finalizer *)

Lemma aligned_modes (E : Engine) (m : Machine E) :
  callsAligned m ->
  map (fun c => (callIteration c, callMode c)) (calls m)
  = map (fun i => (i, NonStreaming)) (seq 1 (List.length (calls m))).
Proof.
  intros H. apply nth_error_ext. intros i.
  rewrite !nth_error_map.
  destruct (nth_error (calls m) i) as [c |] eqn:Hc; cbn [option_map].
  - destruct (H i c Hc) as (Hit & Hmode & _).
    assert (Hi : i < List.length (calls m))
      by (apply nth_error_Some; congruence).
    rewrite (nth_error_nth' _ 0) by (rewrite length_seq; exact Hi).
    rewrite seq_nth by exact Hi. cbn [option_map].
    rewrite Hit, Hmode. reflexivity.
  - assert (Hnone : nth_error (seq 1 (List.length (calls m))) i = None).
    { apply nth_error_None. rewrite length_seq.
      apply nth_error_None. exact Hc. }
    rewrite Hnone. reflexivity.
Qed.



